(** * diract-digester: decoding DirAct packets and reassembling digests

    A shallow embedding of the two decoder files of the repository,
    [lib/diractdigester.js] (module [Lib]) and the logging variant that also
    carries the raddec timestamp (module [Part000]), together with the
    JavaScript primitives they rely on ([String.prototype.substr],
    [parseInt(_, 16)], the 32-bit operators [&], [>>], [<<], sparse arrays,
    object identity). *)

From Stdlib Require Import ZArith QArith Qcanon Qround String Ascii List Lia Permutation.
From stdpp Require Import base gmap strings list.

(** ** JavaScript primitives *)

Module Js.

Local Open Scope Z_scope.

(** [s.substr(start, len)]: the characters from [start], at most [len] of
    them, clipped at the end of the string. *)
Definition substr (start len : nat) (s : string) : string :=
  String.substring start len s.

(** [s.substr(start)]: everything from position [start] on. *)
Fixpoint substrFrom (start : nat) (s : string) : string :=
  match start, s with
  | O, _ => s
  | S n, EmptyString => EmptyString
  | S n, String _ s' => substrFrom n s'
  end.

(** A JavaScript number that came out of [parseInt]: an integer, or [NaN]
    ([None]).  All strings parsed here have at most six characters, far
    below the 2^53 limit of exact integers. *)
Definition number := option Z.

Definition hexDigit (c : ascii) : option Z :=
  let n := Z.of_nat (nat_of_ascii c) in
  if (48 <=? n) && (n <=? 57) then Some (n - 48)
  else if (97 <=? n) && (n <=? 102) then Some (n - 87)
  else if (65 <=? n) && (n <=? 70) then Some (n - 55)
  else None.

(** White space skipped by [parseInt]: TAB, LF, VT, FF, CR, SP and NBSP
    (code units are read as Latin-1). *)
Definition isWhiteSpace (c : ascii) : bool :=
  let n := Z.of_nat (nat_of_ascii c) in
  ((9 <=? n) && (n <=? 13)) || (n =? 32) || (n =? 160).

Fixpoint skipWhiteSpace (s : string) : string :=
  match s with
  | String c s' => if isWhiteSpace c then skipWhiteSpace s' else s
  | EmptyString => s
  end.

(** The optional sign: [(true, rest)] after a minus. *)
Definition stripSign (s : string) : bool * string :=
  match s with
  | String "-"%char s' => (true, s')
  | String "+"%char s' => (false, s')
  | _ => (false, s)
  end.

(** With radix 16 a leading [0x] or [0X] is dropped. *)
Definition stripHexPrefix (s : string) : string :=
  match s with
  | String "0"%char (String "x"%char s') => s'
  | String "0"%char (String "X"%char s') => s'
  | _ => s
  end.

(** The longest prefix of hexadecimal digits, read as a number; [acc] is the
    value of the digits seen so far ([None] when there are none yet). *)
Fixpoint hexPrefix (acc : option Z) (s : string) : option Z :=
  match s with
  | EmptyString => acc
  | String c s' =>
      match hexDigit c with
      | Some d => hexPrefix (Some (16 * default 0 acc + d)) s'
      | None => acc
      end
  end.

(** [parseInt(s, 16)]. *)
Definition parseInt16 (s : string) : number :=
  let '(neg, s1) := stripSign (skipWhiteSpace s) in
  match hexPrefix None (stripHexPrefix s1) with
  | Some v => Some (if neg then - v else v)
  | None => None
  end.

(** [ToInt32]: [NaN] becomes 0, an integer wraps into [-2^31, 2^31). *)
Definition toInt32 (x : number) : Z :=
  match x with
  | None => 0
  | Some z => (z + 2 ^ 31) mod 2 ^ 32 - 2 ^ 31
  end.

(** [x & m], [x >> k] and [x << k] on a number and an integer literal. *)
Definition band (x : number) (m : Z) : Z := Z.land (toInt32 x) m.
Definition shr (x : number) (k : Z) : Z := Z.shiftr (toInt32 x) k.
Definition shl (x : Z) (k : Z) : Z := toInt32 (Some (Z.shiftl (toInt32 (Some x)) k)).

(** [x > n]: false on [NaN]. *)
Definition gt (x : number) (n : Z) : bool :=
  match x with
  | None => false
  | Some z => n <? z
  end.

(** [Math.round]: the nearest integer, halves towards plus infinity. *)
Definition mathRound (q : Qc) : Z := Qfloor (q + Q2Qc (1 # 2))%Qc.

(** A sparse array: [None] is a hole.  Only index assignment is used on the
    arrays of this program, so the length is the position after the last
    populated index. *)
Abbreviation array A := (list (option A)) (only parsing).

(** [a[i] = v]: overwrite in range, otherwise extend with holes up to [i]. *)
Definition arraySet {A} (i : nat) (v : A) (a : array A) : array A :=
  if decide (i < length a)%nat then <[i := Some v]> a
  else a ++ replicate (i - length a) None ++ [Some v].

(** The number of callbacks of [a.forEach]: holes are skipped. *)
Fixpoint forEachCount {A} (a : array A) : nat :=
  match a with
  | [] => O
  | Some _ :: a' => S (forEachCount a')
  | None :: a' => forEachCount a'
  end.

End Js.

(** ** Data model *)

(** One [{instanceId, count}] pair of a digest page. *)
Record Entry := {
  entry_instanceId : string;
  entry_count : Js.number
}.

(** One [{instanceId, rssi}] pair of a proximity report. *)
Record Nearest := {
  nearest_instanceId : string;
  nearest_rssi : Z
}.

(** The object handed to [handleDirActProximity].  [prox_timestamp] is
    absent ([None]) in [lib/diractdigester.js]. *)
Record Proximity := {
  cyclicCount : Z;
  prox_instanceId : string;
  acceleration : list (option Qc);
  batteryPercentage : Z;
  nearest : list Nearest;
  prox_timestamp : option Z
}.

(** The [numberOfInteractions] property of a digest object: [null] until a
    last page is seen, then a number, and removed by [delete] on emission. *)
Inductive Expected :=
  | ExpNull
  | ExpNumber (n : nat)
  | ExpDeleted.

(** A digest object.  [timestamp] is absent ([None]) in
    [lib/diractdigester.js]; [isHandled = false] stands for the property not
    being there yet (it is only ever assigned [true]). *)
Record Digest := {
  instanceId : string;
  digestTimestamp : Z;
  numberOfInteractions : Expected;
  interactions : Js.array Entry;
  timestamp : option Z;
  isHandled : bool
}.

#[global] Instance Expected_eq_dec : EqDecision Expected.
Proof. solve_decision. Defined.

#[global] Instance Digest_inhabited : Inhabited Digest :=
  populate {| instanceId := ""; digestTimestamp := 0; numberOfInteractions := ExpNull;
              interactions := []; timestamp := None; isHandled := false |}.

(** Object identity: digest objects live in a store and the [digests] map
    and the handler both hold references to them. *)
Definition loc := nat.

(** A [DirActDigester] instance with the store of the digest objects it has
    created and the log of handler invocations.  A handler option is [true]
    when a handler is registered; what it is called with is appended to
    [proximityCalls] or [digestCalls] (for a digest: the reference passed
    and the object as it is at the time of the call). *)
Record DirActDigester := {
  handleDirActProximity : bool;
  handleDirActDigest : bool;
  digests : gmap string loc;
  heap : gmap loc Digest;
  nextLoc : loc;
  proximityCalls : list Proximity;
  digestCalls : list (loc * Digest)
}.

(** [new DirActDigester(options)] *)
Definition newDirActDigester (proximity digest : bool) : DirActDigester :=
  {| handleDirActProximity := proximity; handleDirActDigest := digest;
     digests := ∅; heap := ∅; nextLoc := 0; proximityCalls := []; digestCalls := [] |}.

(** *** Store operations *)

(** A new object: a fresh reference. *)
Definition alloc (d : Digest) (st : DirActDigester) : loc * DirActDigester :=
  (nextLoc st,
   {| handleDirActProximity := handleDirActProximity st;
      handleDirActDigest := handleDirActDigest st;
      digests := digests st;
      heap := <[nextLoc st := d]> (heap st);
      nextLoc := S (nextLoc st);
      proximityCalls := proximityCalls st;
      digestCalls := digestCalls st |}).

(** Dereference. *)
Definition deref (l : loc) (st : DirActDigester) : Digest := heap st !!! l.

(** In-place mutation of the object at [l]. *)
Definition mutate (l : loc) (f : Digest → Digest) (st : DirActDigester) : DirActDigester :=
  {| handleDirActProximity := handleDirActProximity st;
     handleDirActDigest := handleDirActDigest st;
     digests := digests st;
     heap := <[l := f (deref l st)]> (heap st);
     nextLoc := nextLoc st;
     proximityCalls := proximityCalls st;
     digestCalls := digestCalls st |}.

(** [instance.digests.set(instanceId, digest)] *)
Definition digestsSet (id : string) (l : loc) (st : DirActDigester) : DirActDigester :=
  {| handleDirActProximity := handleDirActProximity st;
     handleDirActDigest := handleDirActDigest st;
     digests := <[id := l]> (digests st);
     heap := heap st;
     nextLoc := nextLoc st;
     proximityCalls := proximityCalls st;
     digestCalls := digestCalls st |}.

(** [instance.handleDirActDigest(digest)].  [updateDigest] is reached only
    from [processPacket], under the guard that this handler is registered. *)
Definition callDigestHandler (l : loc) (st : DirActDigester) : DirActDigester :=
  {| handleDirActProximity := handleDirActProximity st;
     handleDirActDigest := handleDirActDigest st;
     digests := digests st;
     heap := heap st;
     nextLoc := nextLoc st;
     proximityCalls := proximityCalls st;
     digestCalls := digestCalls st ++ [(l, deref l st)] |}.

(** [instance.handleDirActProximity(diract)] *)
Definition callProximityHandler (p : Proximity) (st : DirActDigester) : DirActDigester :=
  {| handleDirActProximity := handleDirActProximity st;
     handleDirActDigest := handleDirActDigest st;
     digests := digests st;
     heap := heap st;
     nextLoc := nextLoc st;
     proximityCalls := proximityCalls st ++ [p];
     digestCalls := digestCalls st |}.

(** Field updates of a digest object. *)
Definition setNumberOfInteractions (e : Expected) (d : Digest) : Digest :=
  {| instanceId := instanceId d; digestTimestamp := digestTimestamp d;
     numberOfInteractions := e; interactions := interactions d;
     timestamp := timestamp d; isHandled := isHandled d |}.

Definition setInteractions (a : Js.array Entry) (d : Digest) : Digest :=
  {| instanceId := instanceId d; digestTimestamp := digestTimestamp d;
     numberOfInteractions := numberOfInteractions d; interactions := a;
     timestamp := timestamp d; isHandled := isHandled d |}.

Definition setIsHandled (b : bool) (d : Digest) : Digest :=
  {| instanceId := instanceId d; digestTimestamp := digestTimestamp d;
     numberOfInteractions := numberOfInteractions d; interactions := interactions d;
     timestamp := timestamp d; isHandled := b |}.

(** ** Code shared verbatim by the two files *)

Definition DIRACT_PROXIMITY_SIGNATURE : string := "ff830501".
Definition DIRACT_DIGEST_SIGNATURE : string := "ff830511".
Definition DIRACT_PACKET_SIGNATURE_OFFSET : nat := 24.
Definition DIRACT_DEVICES_PER_PAGE : nat := 3.

(** [toBatteryPercentage(bits)].  The quotient [100 * data / 63] is never
    within 1/126 of a half, so rounding the exact quotient is what the
    floating-point computation does. *)
Definition toBatteryPercentage (bits : string) : Z :=
  let data := Js.band (Js.parseInt16 bits) 0x3f in
  Js.mathRound (Q2Qc (inject_Z (100 * data)) / Q2Qc (inject_Z 63))%Qc.

(** [toAcceleration(byte, isUpper)]; [None] is [null].  The results are
    multiples of 1/16, exact in floating point. *)
Definition toAcceleration (byte : string) (isUpper : bool) : option Qc :=
  let data := Js.parseInt16 byte in
  let data := if isUpper then Js.shr data 2 else Js.band data 0x3f in
  if (data =? 32)%Z then None
  else if (31 <? data)%Z then Some (Q2Qc (inject_Z (data - 64)) / Q2Qc (inject_Z 16))%Qc
  else Some (Q2Qc (inject_Z data) / Q2Qc (inject_Z 16))%Qc.

(** [toRssi(bits)] *)
Definition toRssi (bits : string) : Z :=
  (Js.band (Js.parseInt16 bits) 0x3f - 92)%Z.

(** [for (i = start; i < frameLength + 2; i += 5) out.push(body(i))]: the
    loop of both packet decoders, with fuel. *)
Fixpoint forStride5 {A} (fuel : nat) (frameLength : Z) (i : nat) (body : nat → A)
    (out : list A) : list A :=
  match fuel with
  | O => out
  | S fuel' =>
      if (Z.of_nat i <? frameLength + 2)%Z
      then forStride5 fuel' frameLength (i + 5) body (out ++ [body i])
      else out
  end.

(** Fuel that always suffices: the index grows at every turn. *)
Definition loopFuel (frameLength : Z) : nat := Z.to_nat (frameLength + 2).

(** [isDigestComplete(digest)] *)
Definition isDigestComplete (digest : Digest) : bool :=
  match numberOfInteractions digest with
  | ExpNull => false
  | ExpNumber n => bool_decide (Js.forEachCount (interactions digest) = n)
  | ExpDeleted => false
  end.

(** The fields the packet decoders of both files read off
    [data = packet.substr(30)], each with the same expression. *)

(** [parseInt(data.substr(2,2), 16) & 0x1f] *)
Definition decodeFrameLength (data : string) : Z :=
  Js.band (Js.parseInt16 (Js.substr 2 2 data)) 0x1f.

(** [parseInt(data.substr(2,1), 16) >> 1], in [processProximityPacket] *)
Definition decodeCyclicCount (data : string) : Z :=
  Js.shr (Js.parseInt16 (Js.substr 2 1 data)) 1.

(** [parseInt(data.substr(2,1), 16) >> 1], in [processDigestPacket] *)
Definition decodePageNumber (data : string) : Z :=
  Js.shr (Js.parseInt16 (Js.substr 2 1 data)) 1.

(** [(parseInt(data.substr(12,1), 16) & 0x8) === 0x8] *)
Definition decodeIsLastPage (data : string) : bool :=
  (Js.band (Js.parseInt16 (Js.substr 12 1 data)) 0x8 =? 0x8)%Z.

(** [parseInt(data.substr(12,6), 16) & 0x7fffff] *)
Definition decodeDigestTimestamp (data : string) : Z :=
  Js.band (Js.parseInt16 (Js.substr 12 6 data)) 0x7fffff.

(** [page.forEach(function(entry, index) { interactions[offset + index] = entry; })] *)
Fixpoint writePage (offset index : nat) (page : list Entry) (a : Js.array Entry)
    : Js.array Entry :=
  match page with
  | [] => a
  | entry :: rest => writePage offset (S index) rest (Js.arraySet (offset + index) entry a)
  end.

(** The tail of [updateDigest] in both files:
    [if (isDigestComplete(digest)) { delete digest.numberOfInteractions;
       instance.handleDirActDigest(digest); digest.isHandled = true; }] *)
Definition emitIfComplete (digest : loc) (st : DirActDigester) : DirActDigester :=
  if isDigestComplete (deref digest st) then
    let st := mutate digest (setNumberOfInteractions ExpDeleted) st in
    let st := callDigestHandler digest st in
    mutate digest (setIsHandled true) st
  else st.

(** What a packet decoder passes on to [updateDigest].  The page number, a
    hexadecimal digit shifted right by one, is never negative and is kept as
    a natural number: it is only used to index the [interactions] array. *)
Record DigestPage := {
  page_instanceId : string;
  page_digestTimestamp : Z;
  page_isLastPage : bool;
  page_pageNumber : nat;
  page_entries : list Entry
}.

(** A raddec as far as [handleRaddec] looks at it: [None] is a property that
    is not there. *)
Record Raddec := {
  packets : option (list string);
  raddec_timestamp : option Z
}.

(** The proximity report both files build, up to the [timestamp] field.
    ([lib/diractdigester.js] leaves [nearestIndex] undeclared, which makes it
    a global in sloppy mode and does not change the result.) *)
Definition decodeProximity (data : string) (tstamp : option Z) : Proximity :=
  let frameLength := decodeFrameLength data in
  {| cyclicCount := decodeCyclicCount data;
     prox_instanceId := Js.substr 4 8 data;
     acceleration := [ toAcceleration (Js.substr 12 2 data) true;
                       toAcceleration (Js.substr 13 2 data) false;
                       toAcceleration (Js.substr 15 2 data) true ];
     batteryPercentage := toBatteryPercentage (Js.substr 16 2 data);
     nearest :=
       forStride5 (loopFuel frameLength) frameLength 9
         (λ nearestIndex,
            {| nearest_instanceId := Js.substr (nearestIndex * 2) 8 data;
               nearest_rssi := toRssi (Js.substr (nearestIndex * 2 + 8) 2 data) |}) [];
     prox_timestamp := tstamp |}.

(** ** [lib/diractdigester.js] *)

Module Lib.

(** [addDigestPage(interactions, pageNumber, page)] *)
Definition addDigestPage (interactions : Js.array Entry) (pageNumber : nat)
    (page : list Entry) : Js.array Entry :=
  let offset := pageNumber * DIRACT_DEVICES_PER_PAGE in
  writePage offset 0 page interactions.

(** [createDigest(instanceId, digestTimestamp, isLastPage, pageNumber, page)] *)
Definition createDigest (id : string) (ts : Z) (isLastPage : bool) (pageNumber : nat)
    (page : list Entry) : Digest :=
  let interactions := addDigestPage [] pageNumber page in
  let numberOfInteractions :=
    if isLastPage then ExpNumber (pageNumber + length page) else ExpNull in
  {| instanceId := id; digestTimestamp := ts;
     numberOfInteractions := numberOfInteractions;
     interactions := interactions; timestamp := None; isHandled := false |}.

(** [updateDigest(instance, instanceId, digestTimestamp, isLastPage, pageNumber, page)] *)
Definition updateDigest (st : DirActDigester) (id : string) (ts : Z) (isLastPage : bool)
    (pageNumber : nat) (page : list Entry) : DirActDigester :=
  match digests st !! id with
  | None =>
      let '(digest, st) := alloc (createDigest id ts isLastPage pageNumber page) st in
      let st := digestsSet id digest st in
      emitIfComplete digest st
  | Some digest =>
      if negb (digestTimestamp (deref digest st) =? ts)%Z then
        let '(digest, st) := alloc (createDigest id ts isLastPage pageNumber page) st in
        let st := digestsSet id digest st in
        emitIfComplete digest st
      else if isHandled (deref digest st) then st
      else
        let st :=
          mutate digest (λ d, setInteractions (addDigestPage (interactions d) pageNumber page) d) st in
        emitIfComplete digest st
  end.

(** Lines 106-118 of [processDigestPacket]: the page read off the packet. *)
Definition decodeDigestPage (packet : string) : DigestPage :=
  let data := Js.substrFrom 30 packet in
  let frameLength := decodeFrameLength data in
  {| page_instanceId := Js.substr 4 8 data;
     page_digestTimestamp := decodeDigestTimestamp data;
     page_isLastPage := decodeIsLastPage data;
     page_pageNumber := Z.to_nat (decodePageNumber data);
     page_entries :=
       forStride5 (loopFuel frameLength) frameLength 9
         (λ pageIndex,
            let count := Js.parseInt16 (Js.substr (pageIndex * 2 + 8) 2 data) in
            {| entry_instanceId := Js.substr (pageIndex * 2) 8 data;
               entry_count := count |}) [] |}.

(** [processDigestPacket(instance, packet)] *)
Definition processDigestPacket (st : DirActDigester) (packet : string) : DirActDigester :=
  let p := decodeDigestPage packet in
  updateDigest st (page_instanceId p) (page_digestTimestamp p) (page_isLastPage p)
    (page_pageNumber p) (page_entries p).

(** [processProximityPacket(instance, packet)] *)
Definition processProximityPacket (st : DirActDigester) (packet : string) : DirActDigester :=
  let data := Js.substrFrom 30 packet in
  callProximityHandler (decodeProximity data None) st.

(** [processPacket(instance, packet)] *)
Definition processPacket (st : DirActDigester) (packet : string) : DirActDigester :=
  let signature :=
    Js.substr DIRACT_PACKET_SIGNATURE_OFFSET (String.length DIRACT_PROXIMITY_SIGNATURE) packet in
  let isDirActProximity := String.eqb signature DIRACT_PROXIMITY_SIGNATURE in
  let isDirActDigest := String.eqb signature DIRACT_DIGEST_SIGNATURE in
  if isDirActProximity && handleDirActProximity st then processProximityPacket st packet
  else if isDirActDigest && handleDirActDigest st then processDigestPacket st packet
  else st.

(** [handleRaddec(raddec)] *)
Definition handleRaddec (st : DirActDigester) (raddec : Raddec) : DirActDigester :=
  match packets raddec with
  | Some ps => foldl processPacket st ps
  | None => st
  end.

(** A page handed to [updateDigest], and a sequence of them. *)
Definition feed (st : DirActDigester) (p : DigestPage) : DirActDigester :=
  updateDigest st (page_instanceId p) (page_digestTimestamp p) (page_isLastPage p)
    (page_pageNumber p) (page_entries p).

Definition run (st : DirActDigester) (ps : list DigestPage) : DirActDigester :=
  foldl feed st ps.

End Lib.

(** ** The variant with logging and the raddec timestamp *)

Module Part000.

(** [addDigestPage(digest, isLastPage, pageNumber, page)] *)
Definition addDigestPage (digest : Digest) (isLastPage : bool) (pageNumber : nat)
    (page : list Entry) : Digest :=
  let offset := pageNumber * DIRACT_DEVICES_PER_PAGE in
  let digest :=
    if isLastPage then setNumberOfInteractions (ExpNumber (offset + length page)) digest
    else digest in
  setInteractions (writePage offset 0 page (interactions digest)) digest.

(** [createDigest(instanceId, digestTimestamp, isLastPage, pageNumber, page, timestamp)] *)
Definition createDigest (id : string) (ts : Z) (isLastPage : bool) (pageNumber : nat)
    (page : list Entry) (tstamp : Z) : Digest :=
  let digest :=
    {| instanceId := id; digestTimestamp := ts; numberOfInteractions := ExpNull;
       interactions := []; timestamp := Some tstamp; isHandled := false |} in
  addDigestPage digest isLastPage pageNumber page.

(** [updateDigest(instance, instanceId, digestTimestamp, isLastPage, pageNumber, page, timestamp)] *)
Definition updateDigest (st : DirActDigester) (id : string) (ts : Z) (isLastPage : bool)
    (pageNumber : nat) (page : list Entry) (tstamp : Z) : DirActDigester :=
  match digests st !! id with
  | None =>
      let '(digest, st) := alloc (createDigest id ts isLastPage pageNumber page tstamp) st in
      let st := digestsSet id digest st in
      emitIfComplete digest st
  | Some digest =>
      if negb (digestTimestamp (deref digest st) =? ts)%Z then
        let '(digest, st) := alloc (createDigest id ts isLastPage pageNumber page tstamp) st in
        let st := digestsSet id digest st in
        emitIfComplete digest st
      else if isHandled (deref digest st) then st
      else
        let st := mutate digest (λ d, addDigestPage d isLastPage pageNumber page) st in
        emitIfComplete digest st
  end.

(** Lines 118-133 of [processDigestPacket]: the page read off the packet. *)
Definition decodeDigestPage (packet : string) : DigestPage :=
  let data := Js.substrFrom 30 packet in
  let frameLength := decodeFrameLength data in
  {| page_instanceId := Js.substr 4 8 data;
     page_digestTimestamp := decodeDigestTimestamp data;
     page_isLastPage := decodeIsLastPage data;
     page_pageNumber := Z.to_nat (decodePageNumber data);
     page_entries :=
       forStride5 (loopFuel frameLength) frameLength 9
         (λ pageIndex,
            let count := Js.parseInt16 (Js.substr (pageIndex * 2 + 8) 2 data) in
            let count :=
              if Js.gt count 128 then Some (Js.shl (Js.band count 0x7f) 8) else count in
            {| entry_instanceId := Js.substr (pageIndex * 2) 8 data;
               entry_count := count |}) [] |}.

(** [processDigestPacket(instance, packet, timestamp)] *)
Definition processDigestPacket (st : DirActDigester) (packet : string) (tstamp : Z)
    : DirActDigester :=
  let p := decodeDigestPage packet in
  updateDigest st (page_instanceId p) (page_digestTimestamp p) (page_isLastPage p)
    (page_pageNumber p) (page_entries p) tstamp.

(** [processProximityPacket(instance, packet, timestamp)] *)
Definition processProximityPacket (st : DirActDigester) (packet : string) (tstamp : Z)
    : DirActDigester :=
  let data := Js.substrFrom 30 packet in
  callProximityHandler (decodeProximity data (Some tstamp)) st.

(** [processPacket(instance, packet, timestamp)] *)
Definition processPacket (st : DirActDigester) (packet : string) (tstamp : Z)
    : DirActDigester :=
  let signature :=
    Js.substr DIRACT_PACKET_SIGNATURE_OFFSET (String.length DIRACT_PROXIMITY_SIGNATURE) packet in
  let isDirActProximity := String.eqb signature DIRACT_PROXIMITY_SIGNATURE in
  let isDirActDigest := String.eqb signature DIRACT_DIGEST_SIGNATURE in
  if isDirActProximity && handleDirActProximity st then
    processProximityPacket st packet tstamp
  else if isDirActDigest && handleDirActDigest st then
    processDigestPacket st packet tstamp
  else st.

(** [handleRaddec(raddec)]; [now] is what [Date.now()] returns.
    [raddec.timestamp || Date.now()] falls back on a missing or zero
    timestamp. *)
Definition handleRaddec (st : DirActDigester) (raddec : Raddec) (now : Z) : DirActDigester :=
  match packets raddec with
  | Some ps =>
      let tstamp :=
        match raddec_timestamp raddec with
        | Some t => if (t =? 0)%Z then now else t
        | None => now
        end in
      foldl (λ st packet, processPacket st packet tstamp) st ps
  | None => st
  end.

(** A page handed to [updateDigest] with the timestamp of its raddec, and a
    sequence of them. *)
Definition feed (st : DirActDigester) (pt : DigestPage * Z) : DirActDigester :=
  updateDigest st (page_instanceId pt.1) (page_digestTimestamp pt.1) (page_isLastPage pt.1)
    (page_pageNumber pt.1) (page_entries pt.1) pt.2.

Definition run (st : DirActDigester) (ps : list (DigestPage * Z)) : DirActDigester :=
  foldl feed st ps.

(** The accumulator after [addDigestPage] of each page in turn. *)
Definition addPages (digest : Digest) (ps : list DigestPage) : Digest :=
  foldl (λ d p, addDigestPage d (page_isLastPage p) (page_pageNumber p) (page_entries p))
    digest ps.

End Part000.

(** ** Notions used to state the properties *)

(** [updateDigest] of either file, given the object [createDigest] makes for
    the page at hand ([fresh]) and what the [addDigestPage] call does to the
    stored object ([add]): the two places where the files differ. *)
Definition updateDigestWith (fresh : Digest) (add : Digest → Digest)
    (st : DirActDigester) (id : string) (ts : Z) : DirActDigester :=
  match digests st !! id with
  | None =>
      let '(digest, st) := alloc fresh st in
      let st := digestsSet id digest st in
      emitIfComplete digest st
  | Some digest =>
      if negb (digestTimestamp (deref digest st) =? ts)%Z then
        let '(digest, st) := alloc fresh st in
        let st := digestsSet id digest st in
        emitIfComplete digest st
      else if isHandled (deref digest st) then st
      else emitIfComplete digest (mutate digest add st)
  end.

(** The populated indices of a sparse array whose first slot has index [k],
    in increasing order. *)
Fixpoint populatedFrom {A} (k : nat) (a : Js.array A) : list nat :=
  match a with
  | [] => []
  | Some _ :: a' => k :: populatedFrom (S k) a'
  | None :: a' => populatedFrom (S k) a'
  end.

Definition populatedIndices {A} (a : Js.array A) : list nat := populatedFrom 0 a.

(** Index [i] of the array holds an entry. *)
Definition populated {A} (a : Js.array A) (i : nat) : Prop :=
  ∃ e, a !! i = Some (Some e).

(** The [(instanceId, digestTimestamp)] pairs the digest handler has been
    called for, in call order. *)
Definition emittedKeys (st : DirActDigester) : list (string * Z) :=
  map (λ c, (instanceId c.2, digestTimestamp c.2)) (digestCalls st).

(** No device returns to a digest timestamp it has left: between two pages
    of a device that carry the same timestamp, every page of that device
    carries it too. *)
Definition noReturn (ps : list DigestPage) : Prop :=
  ∀ ps1 q ps2 r ps3 p ps4,
    ps = ps1 ++ q :: ps2 ++ r :: ps3 ++ p :: ps4 →
    page_instanceId q = page_instanceId r →
    page_instanceId r = page_instanceId p →
    page_digestTimestamp q = page_digestTimestamp p →
    page_digestTimestamp r = page_digestTimestamp q.

(** The count a last page announces. *)
Definition announcedCount (p : DigestPage) : nat :=
  page_pageNumber p * DIRACT_DEVICES_PER_PAGE + length (page_entries p).


(** The acceleration decoder as the specification words it, on a raw byte
    value. *)
Definition decodeAcceleration (byte : Z) (isUpperField : bool) : option Qc :=
  let shifted := if isUpperField then Z.shiftr byte 2 else byte in
  let v := Z.land shifted 0x3f in
  if (v =? 32)%Z then None
  else if (33 <=? v)%Z && (v <=? 63)%Z
       then Some (Q2Qc (inject_Z (v - 64)) / Q2Qc (inject_Z 16))%Qc
       else Some (Q2Qc (inject_Z v) / Q2Qc (inject_Z 16))%Qc.

(** The 6-bit field [v] of the specification's acceleration decoder. *)
Definition accelerationField (byte : Z) (isUpperField : bool) : Z :=
  Z.land (if isUpperField then Z.shiftr byte 2 else byte) 0x3f.

(** The first body byte of a packet's [data], the one [frameLength] is read
    from. *)
Definition firstBodyByte (data : string) : Js.number :=
  Js.parseInt16 (Js.substr 2 2 data).

(** The count policy of the timestamp variant, applied to a count as
    [lib/diractdigester.js] reads it. *)
Definition rescaleCount (count : Js.number) : Js.number :=
  if Js.gt count 128 then Some (Js.shl (Js.band count 0x7f) 8) else count.

Definition rescaleEntry (e : Entry) : Entry :=
  {| entry_instanceId := entry_instanceId e; entry_count := rescaleCount (entry_count e) |}.

(** The digest a handler is called with, without its [timestamp]. *)
Definition withoutTimestamp (d : Digest) : Digest :=
  {| instanceId := instanceId d; digestTimestamp := digestTimestamp d;
     numberOfInteractions := numberOfInteractions d; interactions := interactions d;
     timestamp := None; isHandled := isHandled d |}.

(** *** Sample packets

    Twenty-four characters of header, the digest signature, the frame byte
    (page number in the top three bits, frame length in the low five), the
    instance identifier, the last-page bit with the 23-bit digest timestamp,
    and five characters per entry. *)

(** Page 0, last, digest timestamp 3600, one entry with count 5. *)
Definition packetT1 : string :=
  "000000000000000000000000ff8305110c01234567800e100aaaaaaa05".

(** Page 0, not last, digest timestamp 3601, one entry. *)
Definition packetT2 : string :=
  "000000000000000000000000ff8305110c01234567000e110aaaaaaa05".

(** Page 0, last, one entry whose count byte is [ff]. *)
Definition packetCount255 : string :=
  "000000000000000000000000ff8305110c01234567800e100aaaaaaaff".

(** Page 1, last, one entry: announces four interactions. *)
Definition packetPage1Last : string :=
  "000000000000000000000000ff8305112c01234567800e100aaaaaaa05".

(** Page 2, not last, three entries. *)
Definition packetPage2 : string :=
  "000000000000000000000000ff8305115601234567000e100bbbbbbb010ccccccc020ddddddd03".

(** Page 0, last, frame byte [1e]: frame length 30, top three bits 0. *)
Definition packetFrame1e : string :=
  "000000000000000000000000ff8305111e01234567800e100aaaaaaa05".

(** The two pages of a five-entry digest. *)
Definition page0of2 (id : string) (ts : Z) (e0 e1 e2 : Entry) : DigestPage :=
  {| page_instanceId := id; page_digestTimestamp := ts; page_isLastPage := false;
     page_pageNumber := 0; page_entries := [e0; e1; e2] |}.

Definition page1of2 (id : string) (ts : Z) (e3 e4 : Entry) : DigestPage :=
  {| page_instanceId := id; page_digestTimestamp := ts; page_isLastPage := true;
     page_pageNumber := 1; page_entries := [e3; e4] |}.

(** One step from [st] to [st'] for device [id] either calls no handler, or
    calls it once with a reference [l] and the object [d] it then sees, such
    that [l] is what the map holds for [id] afterwards, [d] has no
    [numberOfInteractions] and is not yet marked handled, and the stored
    object ends up as [d] marked handled. *)
Definition handlerGetsStoredObject (id : string) (st st' : DirActDigester) : Prop :=
  digestCalls st' = digestCalls st ∨
  ∃ (l : loc) (d : Digest),
    digestCalls st' = digestCalls st ++ [(l, d)] ∧
    digests st' !! id = Some l ∧
    numberOfInteractions d = ExpDeleted ∧
    isHandled d = false ∧
    deref l st' = setIsHandled true d.

(** The instance after one digest packet for a handled accumulator. *)
Definition handledInstance : DirActDigester :=
  Part000.processPacket (newDirActDigester true true) packetT1 7.

(** A proximity packet whose frame byte is [1e]. *)
Definition packetProximity1e : string :=
  "000000000000000000000000ff8305011e0123456700000000".

(** The digest both files hand over for a one-page digest, up to the
    [timestamp] field. *)
Definition onePageDigest (id : string) (ts : Z) (page : list Entry) (tstamp : option Z)
    : Digest :=
  {| instanceId := id; digestTimestamp := ts; numberOfInteractions := ExpDeleted;
     interactions := map Some page; timestamp := tstamp; isHandled := false |}.

(** The completed five-entry digest as the handler sees it. *)
Definition fiveEntryDigest (id : string) (ts : Z) (e0 e1 e2 e3 e4 : Entry) (tstamp : Z)
    : Digest :=
  {| instanceId := id; digestTimestamp := ts; numberOfInteractions := ExpDeleted;
     interactions := [Some e0; Some e1; Some e2; Some e3; Some e4];
     timestamp := Some tstamp; isHandled := false |}.

(** The digest handed over after [packetPage1Last] and [packetPage2]. *)
Definition gappedDigest : Digest :=
  {| instanceId := "01234567"; digestTimestamp := 3600;
     numberOfInteractions := ExpDeleted;
     interactions :=
       [ None; None; None;
         Some {| entry_instanceId := "0aaaaaaa"; entry_count := Some 5%Z |};
         None; None;
         Some {| entry_instanceId := "0bbbbbbb"; entry_count := Some 1%Z |};
         Some {| entry_instanceId := "0ccccccc"; entry_count := Some 2%Z |};
         Some {| entry_instanceId := "0ddddddd"; entry_count := Some 3%Z |} ];
     timestamp := Some 7%Z; isHandled := false |}.

(** Device [id] is currently assembling epoch [t]. *)
Definition currentEpoch (st : DirActDigester) (id : string) (t : Z) : Prop :=
  ∃ l, digests st !! id = Some l ∧ digestTimestamp (deref l st) = t.

(** What holds of the instance after the pages [ps] have been fed to a fresh
    one: no pair has been handed over twice; every stored reference is
    allocated and points to an object of its device; an epoch handed over
    and still current is marked handled; and every pair handed over comes
    from a page and is either the device's current epoch or was followed by
    a page of the device with another epoch. *)
Record ReassemblerInv (ps : list DigestPage) (st : DirActDigester) : Prop := {
  inv_nodup : NoDup (emittedKeys st);
  inv_wf : ∀ id l, digests st !! id = Some l →
             l < nextLoc st ∧ instanceId (deref l st) = id;
  inv_handled : ∀ id l, digests st !! id = Some l →
                  (id, digestTimestamp (deref l st)) ∈ emittedKeys st →
                  isHandled (deref l st) = true;
  inv_keys : ∀ id t, (id, t) ∈ emittedKeys st →
               ∃ ps1 q ps2,
                 ps = ps1 ++ q :: ps2 ∧
                 page_instanceId q = id ∧ page_digestTimestamp q = t ∧
                 (currentEpoch st id t ∨
                  ∃ r, r ∈ ps2 ∧ page_instanceId r = id ∧ page_digestTimestamp r ≠ t)
}.

(** The raddec with the packets of epochs T1, T2 and T1 again. *)
Definition raddecT1T2T1 : Raddec :=
  {| packets := Some [packetT1; packetT2; packetT1]; raddec_timestamp := Some 7%Z |}.

(** A page for device [id] that starts a new epoch while an accumulator is
    stored: the map then holds a new object, made from that page alone, and
    the handler is called exactly when that object is complete. *)
Definition supersedes (st : DirActDigester) (id : string) (fresh : Digest)
    (st' : DirActDigester) : Prop :=
  digests st' !! id = Some (nextLoc st) ∧
  digestCalls st'
  = if isDigestComplete fresh
    then digestCalls st ++ [(nextLoc st, setNumberOfInteractions ExpDeleted fresh)]
    else digestCalls st.

(** The body offsets the loop of both packet decoders visits for a given
    frame length: 9, 14, 19, ... below [frameLength + 2]. *)
Definition entryOffsets (frameLength : Z) : list nat :=
  map (λ k, 9 + 5 * k) (seq 0 (Z.to_nat ((frameLength - 3) / 5))).

(** Every 8-bit character. *)
Definition allAscii : list ascii := map ascii_of_nat (seq 0 256).

(** The count the timestamp variant stores for a raw count byte. *)
Definition storedCount (b : Z) : Z :=
  if (b <=? 128)%Z then b else (256 * (b - 128))%Z.

(** The value of six hexadecimal digits, most significant first. *)
Definition hex6 (h1 h2 h3 h4 h5 h6 : Z) : Z :=
  (((((h1 * 16 + h2) * 16 + h3) * 16 + h4) * 16 + h5) * 16 + h6)%Z.

(** What the store looks like in every reachable instance: each reference
    in the map is allocated and points to an object of that device, which is
    marked handled exactly when its [numberOfInteractions] was deleted. *)
Definition StoreInv (st : DirActDigester) : Prop :=
  ∀ id l, digests st !! id = Some l →
    l < nextLoc st ∧
    instanceId (deref l st) = id ∧
    (isHandled (deref l st) = true ↔ numberOfInteractions (deref l st) = ExpDeleted).

(** The timestamp [handleRaddec] of the timestamp variant passes on:
    [raddec.timestamp || Date.now()]. *)
Definition effectiveTimestamp (raddec : Raddec) (now : Z) : Z :=
  match raddec_timestamp raddec with
  | Some t => if (t =? 0)%Z then now else t
  | None => now
  end.

(** The number of packets of a raddec. *)
Definition packetCount (raddec : Raddec) : nat :=
  match packets raddec with
  | Some ps => length ps
  | None => 0
  end.

(** What one packet may do to an instance: the handler options stay,
    nothing is deallocated, no device leaves the map, and at most one
    handler is called, once; a proximity report carries the timestamp
    [stamp]. *)
Definition packetEffect (stamp : option Z) (st st' : DirActDigester) : Prop :=
  handleDirActProximity st' = handleDirActProximity st ∧
  handleDirActDigest st' = handleDirActDigest st ∧
  nextLoc st ≤ nextLoc st' ∧
  (∀ id, is_Some (digests st !! id) → is_Some (digests st' !! id)) ∧
  ((proximityCalls st' = proximityCalls st ∧ digestCalls st' = digestCalls st) ∨
   (∃ r, proximityCalls st' = proximityCalls st ++ [r] ∧
         prox_timestamp r = stamp ∧
         digestCalls st' = digestCalls st) ∨
   (∃ c, digestCalls st' = digestCalls st ++ [c] ∧
         proximityCalls st' = proximityCalls st)).

(** What the packets of one raddec, [n] of them, may do to an instance. *)
Definition raddecEffect (stamp : option Z) (n : nat) (st st' : DirActDigester) : Prop :=
  handleDirActProximity st' = handleDirActProximity st ∧
  handleDirActDigest st' = handleDirActDigest st ∧
  nextLoc st ≤ nextLoc st' ∧
  (∀ id, is_Some (digests st !! id) → is_Some (digests st' !! id)) ∧
  ∃ newProximity newDigests,
    proximityCalls st' = proximityCalls st ++ newProximity ∧
    digestCalls st' = digestCalls st ++ newDigests ∧
    length newProximity + length newDigests ≤ n ∧
    Forall (λ r, prox_timestamp r = stamp) newProximity.

(** A one-entry last page 0 of epoch 3600 from device 89abcdef. *)
Definition packetOtherDevice : string :=
  "000000000000000000000000ff8305110c89abcdef800e100aaaaaaa05".

(** Handling the raddecs [rs] one after the other; for the timestamp variant
    each comes with the current time at its handling. *)
Definition Lib_handleRaddecs (st : DirActDigester) (rs : list Raddec) : DirActDigester :=
  foldl Lib.handleRaddec st rs.

Definition Part000_handleRaddecs (st : DirActDigester) (rs : list (Raddec * Z))
    : DirActDigester :=
  foldl (λ st r, Part000.handleRaddec st r.1 r.2) st rs.

(** Page [k] of a digest of device [id] and epoch [ts]. *)
Definition pageAt (id : string) (ts : Z) (isLast : bool) (k : nat) (es : list Entry)
    : DigestPage :=
  {| page_instanceId := id; page_digestTimestamp := ts; page_isLastPage := isLast;
     page_pageNumber := k; page_entries := es |}.

(** The pages of a well-formed digest: page [k] carries the [k]-th chunk,
    and the page after the last chunk is marked last and carries
    [lastEntries]. *)
Definition paginate (id : string) (ts : Z) (chunks : list (list Entry))
    (lastEntries : list Entry) : list DigestPage :=
  imap (λ k es, pageAt id ts false k es) chunks
  ++ [pageAt id ts true (length chunks) lastEntries].

(** The object [createDigest] of the timestamp variant starts from. *)
Definition emptyDigest (id : string) (ts : Z) (tstamp : Z) : Digest :=
  {| instanceId := id; digestTimestamp := ts; numberOfInteractions := ExpNull;
     interactions := []; timestamp := Some tstamp; isHandled := false |}.

(** A digest as the handler of the timestamp variant sees it, all its
    entries in place. *)
Definition completedDigest (id : string) (ts : Z) (entries : list Entry) (tstamp : Z)
    : Digest :=
  {| instanceId := id; digestTimestamp := ts; numberOfInteractions := ExpDeleted;
     interactions := map Some entries; timestamp := Some tstamp; isHandled := false |}.

(** A fresh instance after the first page of device [id], when that page did
    not complete a digest: one accumulator [d], at reference 0. *)
Definition singleDevice (pa : bool) (id : string) (d : Digest) : DirActDigester :=
  {| handleDirActProximity := pa; handleDirActDigest := true;
     digests := <[id := 0]> ∅; heap := <[0 := d]> ∅; nextLoc := 1;
     proximityCalls := []; digestCalls := [] |}.

#[global] Instance Entry_eq_dec : EqDecision Entry.
Proof. solve_decision. Defined.

#[global] Instance DigestPage_eq_dec : EqDecision DigestPage.
Proof. solve_decision. Defined.





(** Page [p] is of the device and epoch of the digest object [d]. *)
Definition pageOf (d : Digest) (p : DigestPage) : Prop :=
  page_instanceId p = instanceId d ∧ page_digestTimestamp p = digestTimestamp d.

(** Every entry of [d] sits at its absolute index: it is entry [j] of a
    page [p] of [ps], of the device and epoch of [d], and its index is
    [pageNumber * 3 + j]. *)
Definition placedByPages (ps : list DigestPage) (d : Digest) : Prop :=
  ∀ i e, interactions d !! i = Some (Some e) →
    ∃ p j, p ∈ ps ∧ pageOf d p ∧ page_entries p !! j = Some e ∧
           i = page_pageNumber p * DIRACT_DEVICES_PER_PAGE + j.

(** The expected count of [d], when it is a number, is the count a page of
    [ps] marked last, of the device and epoch of [d], announces. *)
Definition countedByLastPage (ps : list DigestPage) (d : Digest) : Prop :=
  ∀ n, numberOfInteractions d = ExpNumber n →
    ∃ p, p ∈ ps ∧ pageOf d p ∧ page_isLastPage p = true ∧ announcedCount p = n.

(** The object [updateDigest] of the timestamp variant tests for
    completeness when page [p] is not absorbed: the stored accumulator of
    the page's device with the page added when it is of the page's epoch,
    the object [createDigest] makes from the page otherwise. *)
Definition Part000_accumulator (st : DirActDigester) (p : DigestPage) (tstamp : Z) : Digest :=
  match digests st !! page_instanceId p with
  | Some digest =>
      if (digestTimestamp (deref digest st) =? page_digestTimestamp p)%Z
      then Part000.addDigestPage (deref digest st) (page_isLastPage p) (page_pageNumber p)
             (page_entries p)
      else Part000.createDigest (page_instanceId p) (page_digestTimestamp p)
             (page_isLastPage p) (page_pageNumber p) (page_entries p) tstamp
  | None =>
      Part000.createDigest (page_instanceId p) (page_digestTimestamp p)
        (page_isLastPage p) (page_pageNumber p) (page_entries p) tstamp
  end.

(** What holds of a digest [d] handed over after the pages [ps]: it comes
    without its expected count; the number [n] of its populated indices is
    the count a page of [ps] marked last, of its device and epoch,
    announces; every entry sits at its absolute index; and all indices below
    [n] are populated exactly when none at or beyond [n] is. *)
Definition countedDigest (ps : list DigestPage) (d : Digest) : Prop :=
  let n := length (populatedIndices (interactions d)) in
  numberOfInteractions d = ExpDeleted ∧
  (∃ p, p ∈ ps ∧ pageOf d p ∧ page_isLastPage p = true ∧ announcedCount p = n) ∧
  placedByPages ps d ∧
  ((∀ i, i < n → populated (interactions d) i)
   ↔ (∀ i, n ≤ i → ¬ populated (interactions d) i)).

(** The pages of [packetPage1Last] and [packetPage2]. *)
Definition pageOneLast : DigestPage :=
  {| page_instanceId := "01234567"; page_digestTimestamp := 3600; page_isLastPage := true;
     page_pageNumber := 1;
     page_entries := [ {| entry_instanceId := "0aaaaaaa"; entry_count := Some 5%Z |} ] |}.

Definition pageTwo : DigestPage :=
  {| page_instanceId := "01234567"; page_digestTimestamp := 3600; page_isLastPage := false;
     page_pageNumber := 2;
     page_entries := [ {| entry_instanceId := "0bbbbbbb"; entry_count := Some 1%Z |};
                       {| entry_instanceId := "0ccccccc"; entry_count := Some 2%Z |};
                       {| entry_instanceId := "0ddddddd"; entry_count := Some 3%Z |} ] |}.

(** What holds of the instance after the pages [ps] have been fed to a fresh
    one in the timestamp variant: every stored accumulator has its entries
    at their absolute indices and an expected count announced by a last
    page, and every digest handed over is as [countedDigest] says. *)
Record EmissionInv (ps : list DigestPage) (st : DirActDigester) : Prop := {
  einv_store : StoreInv st;
  einv_stored : ∀ id l, digests st !! id = Some l →
                  placedByPages ps (deref l st) ∧ countedByLastPage ps (deref l st);
  einv_emitted : ∀ l d, (l, d) ∈ digestCalls st → countedDigest ps d
}.

(** While page [k] of [ps] is processed the digest handler is called for
    the pair [key]: the calls after the first [k + 1] pages are the calls
    after the first [k] pages followed by one for [key]. *)
Definition calledAt {P} (run : list P → DirActDigester) (ps : list P) (k : nat)
    (key : string * Z) : Prop :=
  emittedKeys (run (take (S k) ps)) = emittedKeys (run (take k ps)) ++ [key].

(** Strictly between pages [i] and [j] there is a page of device [id] that
    carries a digest timestamp other than [ts]. *)
Definition leftBetween (ps : list DigestPage) (i j : nat) (id : string) (ts : Z) : Prop :=
  ∃ k r, i < k < j ∧ ps !! k = Some r ∧
         page_instanceId r = id ∧ page_digestTimestamp r ≠ ts.

(** Device [id] returns to the digest timestamp [ts]: two of its pages
    carry [ts] and one between them carries another timestamp. *)
Definition returnsTo (ps : list DigestPage) (id : string) (ts : Z) : Prop :=
  ∃ i j q p, ps !! i = Some q ∧ ps !! j = Some p ∧
    page_instanceId q = id ∧ page_digestTimestamp q = ts ∧
    page_instanceId p = id ∧ page_digestTimestamp p = ts ∧
    leftBetween ps i j id ts.

(** [x] occurs at most once in [l]. *)
Definition atMostOnce {A} (x : A) (l : list A) : Prop :=
  ∀ a b, l !! a = Some x → l !! b = Some x → a = b.

(** The accumulator stored for device [id] is of epoch [ts] and marked
    handled. *)
Definition handledAt (st : DirActDigester) (id : string) (ts : Z) : Prop :=
  ∃ l, digests st !! id = Some l ∧ digestTimestamp (deref l st) = ts ∧
       isHandled (deref l st) = true.

(** The pages of the packets of epochs T1, T2 and T1 again, each with the
    raddec timestamp 7. *)
Definition pagesT1T2T1 : list (DigestPage * Z) :=
  map (λ packet, (Part000.decodeDigestPage packet, 7%Z)) [packetT1; packetT2; packetT1].

(** The same pages followed by a one-page digest of another device. *)
Definition pagesT1T2T1Other : list (DigestPage * Z) :=
  map (λ packet, (Part000.decodeDigestPage packet, 7%Z))
    [packetT1; packetT2; packetT1; packetOtherDevice].

(** * Properties *)

(** ** JavaScript primitives *)

Lemma toInt32_small (z : Z) :
  (- 2 ^ 31 ≤ z < 2 ^ 31)%Z → Js.toInt32 (Some z) = z.
Proof.
  intros Hz. unfold Js.toInt32.
  rewrite Z.mod_small; lia.
Qed.

Lemma land_low_bits (x n : Z) :
  (0 ≤ n)%Z → (0 ≤ x < 2 ^ n)%Z → Z.land x (Z.ones n) = x.
Proof.
  intros Hn Hx. rewrite Z.land_ones by done. apply Z.mod_small; lia.
Qed.

Lemma land_ones_range (x n : Z) :
  (0 ≤ n)%Z → (0 ≤ Z.land x (Z.ones n) < 2 ^ n)%Z.
Proof.
  intros Hn. rewrite Z.land_ones by done. apply Z.mod_pos_bound; lia.
Qed.

Lemma Some_Qc_eq (x : option Qc) (q : Qc) :
  match x with Some p => (p == q)%Q | None => False end → x = Some q.
Proof.
  destruct x as [p|]; [|done]. intros H. f_equal. by apply Qc_is_canon.
Qed.

(** ** The acceleration decoder *)

Lemma accelerationField_range (b : Z) (isUpper : bool) :
  (0 ≤ accelerationField b isUpper ≤ 63)%Z.
Proof.
  unfold accelerationField.
  pose proof (land_ones_range (if isUpper then Z.shiftr b 2 else b) 6) as H.
  change (Z.ones 6) with 63%Z in H. change (2 ^ 6)%Z with 64%Z in H. lia.
Qed.

Lemma shiftr2_byte (b : Z) :
  (0 ≤ b ≤ 255)%Z → Z.land (Z.shiftr b 2) 0x3f = Z.shiftr b 2.
Proof.
  intros Hb. apply (land_low_bits _ 6); [lia|].
  rewrite Z.shiftr_div_pow2 by lia.
  change (2 ^ 2)%Z with 4%Z. change (2 ^ 6)%Z with 64%Z.
  split; [apply Z.div_pos; lia | apply Z.div_lt_upper_bound; lia].
Qed.

(** C8. For every raw byte value 0-255 (given, as the code takes it, by a
    string that [parseInt] reads as that value) and either flag,
    [toAcceleration] computes what the specification describes: shift right
    by two when the flag is set, mask to six bits to get [v] in 0-63, absent
    for [v = 32], [(v - 64) / 16] for [v] in 33-63 and [v / 16] for [v] in
    0-31.  In particular the raw values 32, 0, 16 and 48 (hexadecimal 20,
    00, 10 and 30) decode to absent, 0, 1 and -1. *)
Theorem toAcceleration_decodes (byte : string) (b : Z) (isUpper : bool) :
  Js.parseInt16 byte = Some b →
  (0 ≤ b ≤ 255)%Z →
  (0 ≤ accelerationField b isUpper ≤ 63)%Z ∧
  toAcceleration byte isUpper = decodeAcceleration b isUpper ∧
  toAcceleration "20" false = None ∧
  toAcceleration "00" false = Some 0%Qc ∧
  toAcceleration "10" false = Some 1%Qc ∧
  toAcceleration "30" false = Some (- 1)%Qc.
Proof.
  intros Hparse Hb. split; [apply accelerationField_range|]. split.
  - unfold toAcceleration, decodeAcceleration. rewrite Hparse.
    pose proof (accelerationField_range b isUpper) as Hv.
    unfold accelerationField in Hv.
    unfold Js.shr, Js.band. rewrite toInt32_small by lia.
    destruct isUpper.
    + rewrite shiftr2_byte in * by done.
      destruct (Z.shiftr b 2 =? 32)%Z eqn:E32; [done|].
      apply Z.eqb_neq in E32.
      destruct (31 <? Z.shiftr b 2)%Z eqn:E31.
      * apply Z.ltb_lt in E31.
        replace ((33 <=? Z.shiftr b 2)%Z && (Z.shiftr b 2 <=? 63)%Z) with true; [done|].
        symmetry. apply andb_true_iff. split; apply Z.leb_le; lia.
      * apply Z.ltb_ge in E31.
        replace ((33 <=? Z.shiftr b 2)%Z && (Z.shiftr b 2 <=? 63)%Z) with false; [done|].
        symmetry. apply andb_false_iff. left. apply Z.leb_gt. lia.
    + destruct (Z.land b 63 =? 32)%Z eqn:E32; [done|].
      apply Z.eqb_neq in E32.
      destruct (31 <? Z.land b 63)%Z eqn:E31.
      * apply Z.ltb_lt in E31.
        replace ((33 <=? Z.land b 63)%Z && (Z.land b 63 <=? 63)%Z) with true; [done|].
        symmetry. apply andb_true_iff. split; apply Z.leb_le; lia.
      * apply Z.ltb_ge in E31.
        replace ((33 <=? Z.land b 63)%Z && (Z.land b 63 <=? 63)%Z) with false; [done|].
        symmetry. apply andb_false_iff. left. apply Z.leb_gt. lia.
  - repeat split; try reflexivity; apply Some_Qc_eq; reflexivity.
Qed.

Lemma toAcceleration_decodes_witness :
  toAcceleration "30" false = decodeAcceleration 48 false.
Proof.
  apply (toAcceleration_decodes "30" 48 false); [reflexivity | lia].
Defined.

(** ** The store *)

Lemma deref_mutate_eq (l : loc) (f : Digest → Digest) (st : DirActDigester) :
  deref l (mutate l f st) = f (deref l st).
Proof. unfold deref, mutate; simpl. by rewrite lookup_total_insert_eq. Qed.

Lemma deref_mutate_ne (l l' : loc) (f : Digest → Digest) (st : DirActDigester) :
  l ≠ l' → deref l' (mutate l f st) = deref l' st.
Proof. intros Hne. unfold deref, mutate; simpl. by rewrite lookup_total_insert_ne. Qed.

Lemma deref_alloc_eq (d : Digest) (st : DirActDigester) :
  deref (alloc d st).1 (alloc d st).2 = d.
Proof. unfold deref, alloc; simpl. by rewrite lookup_total_insert_eq. Qed.

Lemma deref_alloc_ne (d : Digest) (st : DirActDigester) (l : loc) :
  l ≠ nextLoc st → deref l (alloc d st).2 = deref l st.
Proof. intros Hne. unfold deref, alloc; simpl. by rewrite lookup_total_insert_ne. Qed.

Lemma deref_digestsSet (id : string) (l l' : loc) (st : DirActDigester) :
  deref l' (digestsSet id l st) = deref l' st.
Proof. reflexivity. Qed.

Lemma deref_callDigestHandler (l l' : loc) (st : DirActDigester) :
  deref l' (callDigestHandler l st) = deref l' st.
Proof. reflexivity. Qed.

(** What the emission does to the instance, field by field. *)
Lemma emitIfComplete_incomplete (l : loc) (st : DirActDigester) :
  isDigestComplete (deref l st) = false → emitIfComplete l st = st.
Proof. intros H. unfold emitIfComplete. by rewrite H. Qed.

Lemma emitIfComplete_complete (l : loc) (st : DirActDigester) :
  isDigestComplete (deref l st) = true →
  emitIfComplete l st =
    {| handleDirActProximity := handleDirActProximity st;
       handleDirActDigest := handleDirActDigest st;
       digests := digests st;
       heap := <[l := setIsHandled true (setNumberOfInteractions ExpDeleted (deref l st))]>
                 (heap st);
       nextLoc := nextLoc st;
       proximityCalls := proximityCalls st;
       digestCalls :=
         digestCalls st ++ [(l, setNumberOfInteractions ExpDeleted (deref l st))] |}.
Proof.
  intros H. unfold emitIfComplete. rewrite H.
  unfold mutate at 1. simpl.
  rewrite deref_callDigestHandler, deref_mutate_eq.
  f_equal. unfold mutate; simpl. by rewrite insert_insert_eq.
Qed.

(** Either nothing is emitted, or exactly one call is appended, with the
    stored object as it is after the [delete]. *)
Lemma emitIfComplete_calls (l : loc) (st : DirActDigester) :
  (isDigestComplete (deref l st) = false ∧ emitIfComplete l st = st) ∨
  (isDigestComplete (deref l st) = true ∧
   digestCalls (emitIfComplete l st) =
     digestCalls st ++ [(l, setNumberOfInteractions ExpDeleted (deref l st))] ∧
   digests (emitIfComplete l st) = digests st ∧
   nextLoc (emitIfComplete l st) = nextLoc st ∧
   deref l (emitIfComplete l st) =
     setIsHandled true (setNumberOfInteractions ExpDeleted (deref l st)) ∧
   ∀ l', l' ≠ l → deref l' (emitIfComplete l st) = deref l' st).
Proof.
  destruct (isDigestComplete (deref l st)) eqn:E.
  - right. split; [done|]. rewrite emitIfComplete_complete by done. simpl.
    repeat split.
    + unfold deref; simpl. by rewrite lookup_total_insert_eq.
    + intros l' Hne. unfold deref; simpl. by rewrite lookup_total_insert_ne.
  - left. split; [done|]. by apply emitIfComplete_incomplete.
Qed.

(** Both files' [updateDigest] are instances of [updateDigestWith]. *)
Lemma Lib_updateDigest_with (st : DirActDigester) (id : string) (ts : Z) (isLast : bool)
    (pn : nat) (page : list Entry) :
  Lib.updateDigest st id ts isLast pn page =
  updateDigestWith (Lib.createDigest id ts isLast pn page)
    (λ d, setInteractions (Lib.addDigestPage (interactions d) pn page) d) st id ts.
Proof. reflexivity. Qed.

Lemma Part000_updateDigest_with (st : DirActDigester) (id : string) (ts : Z) (isLast : bool)
    (pn : nat) (page : list Entry) (tstamp : Z) :
  Part000.updateDigest st id ts isLast pn page tstamp =
  updateDigestWith (Part000.createDigest id ts isLast pn page tstamp)
    (λ d, Part000.addDigestPage d isLast pn page) st id ts.
Proof. reflexivity. Qed.

(** ** Unknown packets and unregistered handlers *)

(** C9. A packet whose signature is neither the proximity nor the digest
    signature, a proximity packet while no proximity handler is registered,
    and a digest packet while no digest handler is registered leave the
    instance as it is: the accumulator map, the store and both call logs are
    unchanged.  The embedded functions are total, so no failure is raised.
    This holds for both files. *)
Theorem processPacket_skips (st : DirActDigester) (packet : string) (tstamp : Z) :
  let signature := Js.substr 24 8 packet in
  (signature ≠ DIRACT_PROXIMITY_SIGNATURE ∧ signature ≠ DIRACT_DIGEST_SIGNATURE) ∨
  (signature = DIRACT_PROXIMITY_SIGNATURE ∧ handleDirActProximity st = false) ∨
  (signature = DIRACT_DIGEST_SIGNATURE ∧ handleDirActDigest st = false) →
  Lib.processPacket st packet = st ∧ Part000.processPacket st packet tstamp = st.
Proof.
  intros signature H.
  unfold Lib.processPacket, Part000.processPacket.
  change (Js.substr DIRACT_PACKET_SIGNATURE_OFFSET
            (String.length DIRACT_PROXIMITY_SIGNATURE) packet) with signature.
  destruct H as [[Hp Hd] | [[Hp Hh] | [Hd Hh]]].
  - apply String.eqb_neq in Hp, Hd. by rewrite Hp, Hd.
  - rewrite Hp, Hh. by rewrite andb_false_r.
  - rewrite Hd, Hh. by rewrite andb_false_r.
Qed.

Lemma processPacket_skips_witness :
  Lib.processPacket (newDirActDigester false true)
    "000000000000000000000000ff8305013e01234567800e100aaaaaaaff"
  = newDirActDigester false true.
Proof.
  apply (processPacket_skips (newDirActDigester false true)
           "000000000000000000000000ff8305013e01234567800e100aaaaaaaff" 0).
  right; left. split; reflexivity.
Defined.

(** ** Pages for a handled accumulator *)

(** C6. When the accumulator stored for a device is marked handled, a
    further page with the same instance identifier and digest timestamp
    returns at once: the instance is left as it was, so the accumulator is
    still in the map and unchanged and no handler call is logged.  This
    holds for both files. *)
Theorem handled_page_absorbed (st : DirActDigester) (id : string) (digest : loc) (ts : Z)
    (isLast : bool) (pn : nat) (page : list Entry) (tstamp : Z) :
  digests st !! id = Some digest →
  isHandled (deref digest st) = true →
  digestTimestamp (deref digest st) = ts →
  (Lib.updateDigest st id ts isLast pn page = st ∧
   Part000.updateDigest st id ts isLast pn page tstamp = st) ∧
  digests (Part000.updateDigest st id ts isLast pn page tstamp) !! id = Some digest ∧
  digests (Lib.updateDigest st id ts isLast pn page) !! id = Some digest.
Proof.
  intros Hmap Hhandled Hts.
  assert (Lib.updateDigest st id ts isLast pn page = st) as HL.
  { unfold Lib.updateDigest. rewrite Hmap, Hts, Z.eqb_refl. simpl. by rewrite Hhandled. }
  assert (Part000.updateDigest st id ts isLast pn page tstamp = st) as HP.
  { unfold Part000.updateDigest. rewrite Hmap, Hts, Z.eqb_refl. simpl. by rewrite Hhandled. }
  by rewrite HL, HP.
Qed.

Lemma handled_page_absorbed_witness :
  Part000.updateDigest handledInstance "01234567" 3600 true 0 [] 9 = handledInstance.
Proof.
  apply (handled_page_absorbed handledInstance "01234567" 0 3600 true 0 [] 9);
    reflexivity.
Defined.

(** ** The handler is called with the stored object *)

Lemma updateDigestWith_emits (fresh : Digest) (add : Digest → Digest)
    (st : DirActDigester) (id : string) (ts : Z) :
  isHandled fresh = false →
  (∀ d, isHandled (add d) = isHandled d) →
  handlerGetsStoredObject id st (updateDigestWith fresh add st id ts).
Proof.
  intros Hfresh Hadd. unfold updateDigestWith.
  assert (handlerGetsStoredObject id st
            (emitIfComplete (nextLoc st) (digestsSet id (nextLoc st) (alloc fresh st).2)))
    as Hnew.
  { set (st1 := digestsSet id (nextLoc st) (alloc fresh st).2).
    assert (deref (nextLoc st) st1 = fresh) as Hd by apply deref_alloc_eq.
    destruct (emitIfComplete_calls (nextLoc st) st1) as [[_ ->] | (_ & Hc & Hm & _ & Hl & _)].
    - by left.
    - right. eexists _, _. split; [exact Hc|]. rewrite Hm, Hl, Hd.
      repeat split; try done. unfold st1; simpl. by rewrite lookup_insert_eq. }
  destruct (digests st !! id) as [l|] eqn:Hmap; [|exact Hnew].
  destruct (negb _); [exact Hnew|].
  destruct (isHandled (deref l st)) eqn:Hh; [by left|].
  set (st1 := mutate l add st).
  assert (deref l st1 = add (deref l st)) as Hd by apply deref_mutate_eq.
  destruct (emitIfComplete_calls l st1) as [[_ ->] | (_ & Hc & Hm & _ & Hl & _)].
  - by left.
  - right. eexists _, _. split; [exact Hc|]. rewrite Hm, Hl, Hd.
    repeat split; try done. simpl. by rewrite Hadd.
Qed.

(** C10. Whenever [updateDigest] calls the digest handler, the reference it
    passes is the one held in the map for that device after the call (the
    stored accumulator itself, not a copy); the object the handler sees has
    had [numberOfInteractions] deleted and is not yet marked handled;
    [isHandled] becomes true on that same object afterwards.  At most one
    call is made per page.  This holds for both files. *)
Theorem handler_receives_stored_accumulator (st : DirActDigester) (id : string) (ts : Z)
    (isLast : bool) (pn : nat) (page : list Entry) (tstamp : Z) :
  handleDirActDigest st = true →
  handlerGetsStoredObject id st (Lib.updateDigest st id ts isLast pn page) ∧
  handlerGetsStoredObject id st (Part000.updateDigest st id ts isLast pn page tstamp).
Proof.
  intros _. rewrite Lib_updateDigest_with, Part000_updateDigest_with.
  split; apply updateDigestWith_emits; try done.
  - unfold Part000.createDigest, Part000.addDigestPage. by destruct isLast.
  - intros d. unfold Part000.addDigestPage. by destruct isLast.
Qed.

Lemma handler_receives_stored_accumulator_witness :
  handlerGetsStoredObject "01234567" (newDirActDigester true true)
    (Part000.updateDigest (newDirActDigester true true) "01234567" 3600 true 0
       [ {| entry_instanceId := "0aaaaaaa"; entry_count := Some 5%Z |} ] 7).
Proof.
  apply (handler_receives_stored_accumulator (newDirActDigester true true) "01234567" 3600
           true 0 [ {| entry_instanceId := "0aaaaaaa"; entry_count := Some 5%Z |} ] 7).
  reflexivity.
Defined.

(** ** Reading hexadecimal digits *)

Ltac ascii_cases c := destruct c as [[] [] [] [] [] [] [] []].

Lemma hexDigit_range (c : ascii) (h : Z) :
  Js.hexDigit c = Some h → (0 ≤ h ≤ 15)%Z.
Proof.
  unfold Js.hexDigit. intros H.
  repeat match type of H with
         | (if ?b then _ else _) = _ => destruct b eqn:?
         end; simplify_eq; lia.
Qed.

Lemma hexDigit_not_white (c : ascii) (h : Z) :
  Js.hexDigit c = Some h → Js.isWhiteSpace c = false.
Proof. ascii_cases c; intros H; vm_compute in H; (discriminate || reflexivity). Qed.

Lemma hexDigit_no_sign (c : ascii) (h : Z) (s : string) :
  Js.hexDigit c = Some h → Js.stripSign (String c s) = (false, String c s).
Proof. ascii_cases c; intros H; vm_compute in H; (discriminate || reflexivity). Qed.

Lemma hexDigit_no_prefix (c1 c2 : ascii) (l : Z) (s : string) :
  Js.hexDigit c2 = Some l →
  Js.stripHexPrefix (String c1 (String c2 s)) = String c1 (String c2 s).
Proof.
  intros H. ascii_cases c1; try reflexivity.
  ascii_cases c2; vm_compute in H; (discriminate || reflexivity).
Qed.

(** One digit reads as its value, two digits as a byte, high nibble first. *)
Lemma parseInt16_hex1 (c : ascii) (h : Z) :
  Js.hexDigit c = Some h → Js.parseInt16 (String c "") = Some h.
Proof.
  intros H. unfold Js.parseInt16. simpl Js.skipWhiteSpace.
  rewrite (hexDigit_not_white c h H), (hexDigit_no_sign c h _ H).
  assert (Js.stripHexPrefix (String c "") = String c "") as -> by by ascii_cases c.
  simpl. rewrite H. simpl. f_equal; lia.
Qed.

Lemma parseInt16_hex2 (c1 c2 : ascii) (h l : Z) :
  Js.hexDigit c1 = Some h → Js.hexDigit c2 = Some l →
  Js.parseInt16 (String c1 (String c2 "")) = Some (16 * h + l)%Z.
Proof.
  intros H1 H2. unfold Js.parseInt16. simpl Js.skipWhiteSpace.
  rewrite (hexDigit_not_white c1 h H1), (hexDigit_no_sign c1 h _ H1).
  rewrite (hexDigit_no_prefix c1 c2 l _ H2).
  simpl. rewrite H1. simpl. rewrite H2. simpl. f_equal; lia.
Qed.

(** Whatever the character, one character parses to a digit value or to
    [NaN], which [ToInt32] turns into 0. *)
Lemma toInt32_parseInt16_char (c : ascii) :
  (0 ≤ Js.toInt32 (Js.parseInt16 (String c "")) ≤ 15)%Z.
Proof.
  assert ((0 <=? Js.toInt32 (Js.parseInt16 (String c "")))%Z &&
          (Js.toInt32 (Js.parseInt16 (String c "")) <=? 15)%Z = true) as H
    by (ascii_cases c; vm_compute; reflexivity).
  apply andb_true_iff in H as [H1 H2]. lia.
Qed.

Lemma substr_one_char (n : nat) (s : string) :
  Js.substr n 1 s = "" ∨ ∃ c, Js.substr n 1 s = String c "".
Proof.
  unfold Js.substr. revert s. induction n as [|n IH]; intros [|a s]; simpl; eauto.
  destruct s; eauto.
Qed.

Lemma substr_two_one (n : nat) (s : string) (c1 c2 : ascii) :
  Js.substr n 2 s = String c1 (String c2 "") → Js.substr n 1 s = String c1 "".
Proof.
  unfold Js.substr. revert s. induction n as [|n IH]; intros [|a s]; simpl; try done.
  - intros H. injection H as -> _. by destruct s.
  - apply IH.
Qed.

(** The nibble shifted right by one is in 0-7 for every [data]. *)
Lemma decodePageNumber_range (data : string) :
  (0 ≤ decodePageNumber data ≤ 7)%Z.
Proof.
  unfold decodePageNumber, Js.shr.
  assert (0 ≤ Js.toInt32 (Js.parseInt16 (Js.substr 2 1 data)) ≤ 15)%Z as H.
  { destruct (substr_one_char 2 data) as [-> | [c ->]].
    - vm_compute. split; discriminate.
    - apply toInt32_parseInt16_char. }
  rewrite Z.shiftr_div_pow2 by lia. change (2 ^ 1)%Z with 2%Z.
  split; [apply Z.div_pos; lia | apply Z.lt_succ_r, Z.div_lt_upper_bound; lia].
Qed.

Lemma high_nibble_bits (h l : Z) :
  (0 ≤ h ≤ 15)%Z → (0 ≤ l ≤ 15)%Z →
  Z.shiftr h 1 = Z.land (Z.shiftr (16 * h + l) 5) 0x7.
Proof.
  intros Hh Hl.
  rewrite !Z.shiftr_div_pow2 by lia.
  change (2 ^ 1)%Z with 2%Z. change (2 ^ 5)%Z with 32%Z.
  assert ((16 * h + l) / 32 = h / 2)%Z as ->.
  { symmetry. apply (Z.div_unique _ _ _ (16 * (h mod 2) + l)).
    - pose proof (Z.mod_pos_bound h 2). lia.
    - pose proof (Z.div_mod h 2). lia. }
  symmetry. apply (land_low_bits _ 3); [lia|]. change (2 ^ 3)%Z with 8%Z.
  split; [apply Z.div_pos; lia | apply Z.div_lt_upper_bound; lia].
Qed.

(** ** Page number and cyclic count *)

(** C7, as the claim states it, fails: with frame byte [1e] (decimal 30),
    bits 1-4 of the byte are [(30 >> 1) & 0xf = 15], but both files decode
    page number 0 and cyclic count 0. *)
Lemma pageNumber_not_bits_1_to_4 :
  firstBodyByte (Js.substrFrom 30 packetFrame1e) = Some 30%Z ∧
  firstBodyByte (Js.substrFrom 30 packetProximity1e) = Some 30%Z ∧
  Z.land (Z.shiftr 30 1) 0xf = 15%Z ∧
  page_pageNumber (Lib.decodeDigestPage packetFrame1e) = 0 ∧
  page_pageNumber (Part000.decodeDigestPage packetFrame1e) = 0 ∧
  map cyclicCount
    (proximityCalls (Lib.processPacket (newDirActDigester true true) packetProximity1e))
    = [0%Z] ∧
  map cyclicCount
    (proximityCalls (Part000.processPacket (newDirActDigester true true) packetProximity1e 7))
    = [0%Z].
Proof. repeat split; reflexivity. Qed.

(** C7, amended. The cyclic count of a proximity report and the page number
    of a digest page are the single hexadecimal digit in the high-nibble
    position of the first body byte, shifted right by one: for every packet
    they lie in 0-7 and, when the byte is written as two hexadecimal digits,
    they are bits 5-7 of the byte, [(byte >> 5) & 0x7] (the low five bits
    being the frame length). *)
Theorem pageNumber_cyclicCount_top_bits (packet : string) (tstamp : option Z) :
  let data := Js.substrFrom 30 packet in
  let cyc := cyclicCount (decodeProximity data tstamp) in
  let pnL := page_pageNumber (Lib.decodeDigestPage packet) in
  let pnP := page_pageNumber (Part000.decodeDigestPage packet) in
  (0 ≤ cyc ≤ 7)%Z ∧ pnL ≤ 7 ∧ pnP = pnL ∧ Z.of_nat pnL = cyc ∧
  ∀ c1 c2 h l,
    Js.substr 2 2 data = String c1 (String c2 "") →
    Js.hexDigit c1 = Some h → Js.hexDigit c2 = Some l →
    firstBodyByte data = Some (16 * h + l)%Z ∧
    decodeFrameLength data = Z.land (16 * h + l) 0x1f ∧
    cyc = Z.land (Z.shiftr (16 * h + l) 5) 0x7.
Proof.
  intros data cyc pnL pnP.
  pose proof (decodePageNumber_range data) as Hr.
  change cyc with (decodePageNumber data).
  change pnL with (Z.to_nat (decodePageNumber data)).
  change pnP with (Z.to_nat (decodePageNumber data)).
  repeat split; try lia.
  - unfold firstBodyByte. rewrite H. by apply parseInt16_hex2.
  - unfold decodeFrameLength, Js.band. rewrite H, (parseInt16_hex2 c1 c2 h l) by done.
    apply hexDigit_range in H0, H1. rewrite toInt32_small; [done | lia].
  - unfold decodePageNumber, Js.shr.
    rewrite (substr_two_one _ _ _ _ H), (parseInt16_hex1 c1 h) by done.
    apply hexDigit_range in H0, H1. rewrite toInt32_small by lia.
    by apply high_nibble_bits.
Qed.

Lemma pageNumber_cyclicCount_top_bits_witness :
  cyclicCount (decodeProximity (Js.substrFrom 30 packetProximity1e) None)
  = Z.land (Z.shiftr (16 * 1 + 14) 5) 0x7.
Proof.
  destruct (pageNumber_cyclicCount_top_bits packetProximity1e None) as (_ & _ & _ & _ & H).
  apply (H "1"%char "e"%char 1%Z 14%Z); reflexivity.
Defined.

(** ** The two decoders side by side *)

Lemma forStride5_map {A B} (g : A → B) (fuel : nat) (frameLength : Z) (i : nat)
    (body : nat → A) (out : list A) :
  forStride5 fuel frameLength i (λ k, g (body k)) (map g out)
  = map g (forStride5 fuel frameLength i body out).
Proof.
  revert i out. induction fuel as [|fuel IH]; intros i out; simpl; [done|].
  destruct (Z.of_nat i <? frameLength + 2)%Z; [|done].
  rewrite <- IH. by rewrite map_app.
Qed.

(** The loop has all the fuel it can use: one more unit changes nothing. *)
Lemma forStride5_fuel {A} (fuel : nat) (frameLength : Z) (i : nat) (body : nat → A)
    (out : list A) :
  (frameLength + 2 ≤ Z.of_nat (i + fuel))%Z →
  forStride5 (S fuel) frameLength i body out = forStride5 fuel frameLength i body out.
Proof.
  revert i out. induction fuel as [|fuel IH]; intros i out Hf.
  - simpl. destruct (Z.of_nat i <? frameLength + 2)%Z eqn:E; [|done].
    apply Z.ltb_lt in E. lia.
  - change (forStride5 (S (S fuel)) frameLength i body out)
      with (if (Z.of_nat i <? frameLength + 2)%Z
            then forStride5 (S fuel) frameLength (i + 5) body (out ++ [body i])
            else out).
    change (forStride5 (S fuel) frameLength i body out)
      with (if (Z.of_nat i <? frameLength + 2)%Z
            then forStride5 fuel frameLength (i + 5) body (out ++ [body i])
            else out).
    destruct (Z.of_nat i <? frameLength + 2)%Z; [|done].
    apply IH. lia.
Qed.

Lemma loopFuel_enough {A} (frameLength : Z) (i : nat) (body : nat → A) (out : list A)
    (extra : nat) :
  forStride5 (loopFuel frameLength + extra) frameLength i body out
  = forStride5 (loopFuel frameLength) frameLength i body out.
Proof.
  induction extra as [|extra IH].
  - by rewrite Nat.add_0_r.
  - rewrite <- IH. rewrite Nat.add_succ_r.
    apply forStride5_fuel. unfold loopFuel. lia.
Qed.

Lemma toInt32_mod128 (z : Z) : (Js.toInt32 (Some z) mod 128 = z mod 128)%Z.
Proof.
  unfold Js.toInt32.
  pose proof (Z.div_mod (z + 2 ^ 31) (2 ^ 32)) as H.
  set (q := ((z + 2 ^ 31) / 2 ^ 32)%Z) in *.
  replace ((z + 2 ^ 31) mod 2 ^ 32 - 2 ^ 31)%Z with (z + (- q * 33554432) * 128)%Z by lia.
  apply Z.mod_add. lia.
Qed.

(** A count above 128 never survives the rescaling unchanged. *)
Lemma rescaleCount_fixed (count : Js.number) :
  rescaleCount count = count ↔ Js.gt count 128 = false.
Proof.
  unfold rescaleCount. split; [|by intros ->].
  destruct (Js.gt count 128) eqn:E; [|done].
  destruct count as [z|]; [|done]. simpl in E. apply Z.ltb_lt in E.
  intros H. exfalso. injection H as H.
  unfold Js.shl, Js.band in H.
  change 0x7f%Z with (Z.ones 7) in H.
  rewrite Z.land_ones in H by lia.
  rewrite toInt32_mod128 in H. change (2 ^ 7)%Z with 128%Z in H.
  pose proof (Z.mod_pos_bound z 128) as Hk.
  rewrite (toInt32_small (z mod 128)) in H by lia.
  rewrite Z.shiftl_mul_pow2 in H by lia. change (2 ^ 8)%Z with 256%Z in H.
  rewrite toInt32_small in H by lia.
  pose proof (Z.div_mod z 128). lia.
Qed.

Lemma rescaleEntry_fixed (e : Entry) :
  rescaleEntry e = e ↔ Js.gt (entry_count e) 128 = false.
Proof.
  rewrite <- rescaleCount_fixed. destruct e as [i c]. unfold rescaleEntry; simpl.
  split; [by intros [= ->] | by intros ->].
Qed.

Lemma map_fixed {A} (f : A → A) (l : list A) :
  map f l = l ↔ Forall (λ x, f x = x) l.
Proof.
  induction l as [|x l IH]; simpl.
  - split; [constructor | done].
  - split.
    + intros [= Hx Hl]. constructor; [done | by apply IH].
    + intros H. inversion H as [|? ? Hx Hl]; subst. rewrite Hx. f_equal. by apply IH.
Qed.

Lemma DigestPage_eq (p q : DigestPage) :
  page_instanceId p = page_instanceId q →
  page_digestTimestamp p = page_digestTimestamp q →
  page_isLastPage p = page_isLastPage q →
  page_pageNumber p = page_pageNumber q →
  page_entries p = page_entries q →
  p = q.
Proof. destruct p, q; simpl; by intros -> -> -> -> ->. Qed.

Lemma Part000_decodeDigestPage_entries (packet : string) :
  page_entries (Part000.decodeDigestPage packet)
  = map rescaleEntry (page_entries (Lib.decodeDigestPage packet)).
Proof.
  unfold Part000.decodeDigestPage, Lib.decodeDigestPage. simpl.
  rewrite <- forStride5_map. reflexivity.
Qed.

(** Writing a page right behind the last slot appends it. *)
Lemma writePage_append (offset index : nat) (page : list Entry) (a : Js.array Entry) :
  offset + index = length a → writePage offset index page a = a ++ map Some page.
Proof.
  revert index a. induction page as [|e page IH]; intros index a Hlen; simpl.
  - by rewrite app_nil_r.
  - assert (Js.arraySet (offset + index) e a = a ++ [Some e]) as ->.
    { unfold Js.arraySet. rewrite decide_False by lia.
      by replace (offset + index - length a) with 0 by lia. }
    rewrite IH by (rewrite length_app; simpl; lia).
    by rewrite <- app_assoc.
Qed.

Lemma forEachCount_map_Some {A} (l : list A) :
  Js.forEachCount (map Some l) = length l.
Proof. induction l as [|x l IH]; simpl; [done | by rewrite IH]. Qed.

(** A complete first page of a new device is handed over at once. *)
Lemma fresh_device_emits (fresh : Digest) (add : Digest → Digest) (st : DirActDigester)
    (id : string) (ts : Z) :
  digests st !! id = None →
  isDigestComplete fresh = true →
  digestCalls (updateDigestWith fresh add st id ts)
  = digestCalls st ++ [(nextLoc st, setNumberOfInteractions ExpDeleted fresh)].
Proof.
  intros Hmap Hc. unfold updateDigestWith. rewrite Hmap.
  set (st1 := digestsSet id (nextLoc st) (alloc fresh st).2).
  assert (deref (nextLoc st) st1 = fresh) as Hd by apply deref_alloc_eq.
  change (digestCalls (emitIfComplete (nextLoc st) st1)
          = digestCalls st ++ [(nextLoc st, setNumberOfInteractions ExpDeleted fresh)]).
  rewrite emitIfComplete_complete by by rewrite Hd.
  simpl. by rewrite Hd.
Qed.

Lemma Lib_createDigest_page0 (id : string) (ts : Z) (page : list Entry) :
  Lib.createDigest id ts true 0 page
  = {| instanceId := id; digestTimestamp := ts;
       numberOfInteractions := ExpNumber (length page);
       interactions := map Some page; timestamp := None; isHandled := false |}.
Proof.
  unfold Lib.createDigest, Lib.addDigestPage. simpl.
  by rewrite writePage_append.
Qed.

Lemma Part000_createDigest_page0 (id : string) (ts : Z) (page : list Entry) (tstamp : Z) :
  Part000.createDigest id ts true 0 page tstamp
  = {| instanceId := id; digestTimestamp := ts;
       numberOfInteractions := ExpNumber (length page);
       interactions := map Some page; timestamp := Some tstamp; isHandled := false |}.
Proof.
  unfold Part000.createDigest, Part000.addDigestPage. simpl.
  by rewrite writePage_append.
Qed.

Lemma one_page_digest_emitted (pa pd : bool) (id : string) (ts : Z) (page : list Entry)
    (tstamp : Z) :
  digestCalls (Lib.updateDigest (newDirActDigester pa pd) id ts true 0 page)
    = [(0, onePageDigest id ts page None)] ∧
  digestCalls (Part000.updateDigest (newDirActDigester pa pd) id ts true 0 page tstamp)
    = [(0, onePageDigest id ts page (Some tstamp))].
Proof.
  rewrite Lib_updateDigest_with, Part000_updateDigest_with.
  rewrite Lib_createDigest_page0, Part000_createDigest_page0.
  split; rewrite fresh_device_emits; try done;
    unfold isDigestComplete; simpl; rewrite forEachCount_map_Some;
    by apply bool_decide_eq_true_2.
Qed.

(** C4, as the claim states it, fails: for a packet whose count byte is
    [ff], [lib/diractdigester.js] extracts the count 255 and the timestamp
    variant 32512, and the digests handed to the handler carry these
    different counts. *)
Lemma decoders_disagree_on_count_above_128 :
  page_entries (Lib.decodeDigestPage packetCount255)
    = [ {| entry_instanceId := "0aaaaaaa"; entry_count := Some 255%Z |} ] ∧
  page_entries (Part000.decodeDigestPage packetCount255)
    = [ {| entry_instanceId := "0aaaaaaa"; entry_count := Some 32512%Z |} ] ∧
  map (λ c, interactions c.2)
    (digestCalls (Lib.processPacket (newDirActDigester true true) packetCount255))
    = [ [ Some {| entry_instanceId := "0aaaaaaa"; entry_count := Some 255%Z |} ] ] ∧
  map (λ c, interactions c.2)
    (digestCalls (Part000.processPacket (newDirActDigester true true) packetCount255 7))
    = [ [ Some {| entry_instanceId := "0aaaaaaa"; entry_count := Some 32512%Z |} ] ].
Proof. repeat split; vm_compute; reflexivity. Qed.

(** C4, amended. Off every digest packet the two files read the same page
    number, instance identifier, last-page flag and digest timestamp and the
    same entries up to the count: the timestamp variant's count is the count
    of [lib/diractdigester.js] rescaled, [(count & 0x7f) << 8] when it is
    above 128 and unchanged otherwise, so the two pages are equal exactly
    when no count is above 128.  A one-page digest (page 0 marked last)
    given to a fresh instance is handed to the handler by both files with
    the same instance identifier, digest timestamp and interactions; the
    timestamp variant adds the [timestamp] field. *)
Theorem decoders_agree_up_to_rescaling (packet : string) :
  let a := Lib.decodeDigestPage packet in
  let b := Part000.decodeDigestPage packet in
  page_pageNumber b = page_pageNumber a ∧
  page_instanceId b = page_instanceId a ∧
  page_isLastPage b = page_isLastPage a ∧
  page_digestTimestamp b = page_digestTimestamp a ∧
  page_entries b = map rescaleEntry (page_entries a) ∧
  (b = a ↔ Forall (λ e, Js.gt (entry_count e) 128 = false) (page_entries a)) ∧
  ∀ (pa : bool) (id : string) (ts : Z) (page : list Entry) (tstamp : Z),
    digestCalls (Lib.updateDigest (newDirActDigester pa true) id ts true 0 page)
      = [(0, onePageDigest id ts page None)] ∧
    digestCalls (Part000.updateDigest (newDirActDigester pa true) id ts true 0 page tstamp)
      = [(0, onePageDigest id ts page (Some tstamp))].
Proof.
  intros a b.
  pose proof (Part000_decodeDigestPage_entries packet) as He. fold a b in He.
  split; [by cbv [a b Lib.decodeDigestPage Part000.decodeDigestPage page_pageNumber]|].
  split; [by cbv [a b Lib.decodeDigestPage Part000.decodeDigestPage page_instanceId]|].
  split; [by cbv [a b Lib.decodeDigestPage Part000.decodeDigestPage page_isLastPage]|].
  split; [by cbv [a b Lib.decodeDigestPage Part000.decodeDigestPage page_digestTimestamp]|].
  split; [exact He|].
  split; [split|].
  - intros Hab. rewrite Hab in He. symmetry in He. apply map_fixed in He.
    eapply Forall_impl; [exact He|]. intros e. apply rescaleEntry_fixed.
  - intros Hall.
    assert (page_entries b = page_entries a) as Hent.
    { rewrite He. apply map_fixed. eapply Forall_impl; [exact Hall|].
      intros e. apply rescaleEntry_fixed. }
    apply DigestPage_eq; [| | | |exact Hent].
    + by cbv [a b Lib.decodeDigestPage Part000.decodeDigestPage page_instanceId].
    + by cbv [a b Lib.decodeDigestPage Part000.decodeDigestPage page_digestTimestamp].
    + by cbv [a b Lib.decodeDigestPage Part000.decodeDigestPage page_isLastPage].
    + by cbv [a b Lib.decodeDigestPage Part000.decodeDigestPage page_pageNumber].
  - intros pa id ts page tstamp. exact (one_page_digest_emitted pa true id ts page tstamp).
Qed.

(** ** Sparse arrays *)

Lemma forEachCount_populatedFrom {A} (k : nat) (a : Js.array A) :
  Js.forEachCount a = length (populatedFrom k a).
Proof.
  revert k. induction a as [|[x|] a IH]; intros k; simpl; [done | | done].
  by rewrite (IH (S k)).
Qed.

Lemma elem_of_populatedFrom {A} (k i : nat) (a : Js.array A) :
  i ∈ populatedFrom k a ↔ k ≤ i ∧ populated a (i - k).
Proof.
  unfold populated. revert k. induction a as [|x a IH]; intros k; simpl.
  - split; [by intros ?%elem_of_nil | by intros [_ [e ?]]].
  - assert (i ∈ populatedFrom (S k) a ↔ k ≤ i ∧ i ≠ k ∧ ∃ e, (x :: a) !! (i - k) = Some (Some e))
      as Htail.
    { rewrite IH. split.
      - intros [Hle [e He]]. replace (i - k) with (S (i - S k)) by lia.
        repeat split; [lia | lia | by exists e].
      - intros (Hle & Hne & e & He). replace (i - k) with (S (i - S k)) in He by lia.
        split; [lia | by exists e]. }
    destruct x as [x|].
    + rewrite elem_of_cons, Htail. split.
      * intros [-> | (Hle & _ & He)]; [|done].
        split; [lia|]. replace (k - k) with 0 by lia. by exists x.
      * intros [Hle He]. destruct (decide (i = k)) as [->|Hne]; [by left | by right].
    + rewrite Htail. split; [by intros (Hle & _ & He)|].
      intros [Hle [e He]]. repeat split; [done| |by exists e].
      intros ->. replace (k - k) with 0 in He by lia. done.
Qed.

Lemma elem_of_populatedIndices {A} (i : nat) (a : Js.array A) :
  i ∈ populatedIndices a ↔ populated a i.
Proof.
  unfold populatedIndices. rewrite elem_of_populatedFrom.
  replace (i - 0) with i by lia. split; [by intros [_ ?] | intros ?; split; [lia | done]].
Qed.

Lemma NoDup_populatedFrom {A} (k : nat) (a : Js.array A) :
  NoDup (populatedFrom k a).
Proof.
  revert k. induction a as [|[x|] a IH]; intros k; simpl; [constructor | | apply IH].
  constructor; [|apply IH].
  rewrite elem_of_populatedFrom. lia.
Qed.


Lemma populated_lt_length {A} (a : Js.array A) (i : nat) :
  populated a i → i < length a.
Proof. intros [e He]. by apply lookup_lt_Some in He. Qed.

Lemma populated_arraySet {A} (j : nat) (v : A) (a : Js.array A) (i : nat) :
  populated (Js.arraySet j v a) i ↔ i = j ∨ populated a i.
Proof.
  unfold Js.arraySet. destruct (decide (j < length a)) as [Hlt|Hge].
  - unfold populated. destruct (decide (i = j)) as [->|Hne].
    + rewrite list_lookup_insert_eq by done.
      split; [intros _; by left | intros _; by exists v].
    + rewrite list_lookup_insert_ne by done.
      split; [intros ?; by right | intros [? | ?]; done].
  - split.
    + intros [e He]. destruct (decide (i < length a)) as [Hi|Hi].
      * right. exists e. by rewrite lookup_app_l in He.
      * rewrite lookup_app_r in He by lia.
        destruct (decide (i - length a < j - length a)) as [Hr|Hr].
        -- rewrite lookup_app_l in He by by rewrite length_replicate.
           apply lookup_replicate in He as [? _]. done.
        -- rewrite lookup_app_r in He by (rewrite length_replicate; lia).
           rewrite length_replicate in He.
           apply lookup_lt_Some in He as Hl. simpl in Hl. left. lia.
    + intros [-> | Hp].
      * exists v. rewrite lookup_app_r by lia.
        rewrite lookup_app_r by (rewrite length_replicate; lia).
        rewrite length_replicate. by replace (j - length a - (j - length a)) with 0 by lia.
      * destruct Hp as [e He]. exists e.
        rewrite lookup_app_l; [done|]. by apply lookup_lt_Some in He.
Qed.

Lemma populated_writePage (offset index : nat) (page : list Entry) (a : Js.array Entry)
    (i : nat) :
  populated (writePage offset index page a) i
  ↔ populated a i ∨ offset + index ≤ i < offset + index + length page.
Proof.
  revert index a. induction page as [|e page IH]; intros index a; simpl.
  - split; [by left | intros [?|?]; [done | lia]].
  - rewrite IH, populated_arraySet. split.
    + intros [[-> | ?] | ?]; [right; lia | by left | right; lia].
    + intros [? | ?]; [by left; right|].
      destruct (decide (i = offset + index)) as [->|]; [by left; left | right; lia].
Qed.

(** ** When an accumulator is complete *)

Lemma numberOfInteractions_addDigestPage (d : Digest) (isLast : bool) (pn : nat)
    (page : list Entry) :
  numberOfInteractions (Part000.addDigestPage d isLast pn page)
  = if isLast then ExpNumber (pn * 3 + length page) else numberOfInteractions d.
Proof. by destruct isLast. Qed.

Lemma interactions_addDigestPage (d : Digest) (isLast : bool) (pn : nat)
    (page : list Entry) :
  interactions (Part000.addDigestPage d isLast pn page)
  = writePage (pn * 3) 0 page (interactions d).
Proof. by destruct isLast. Qed.

Lemma addPages_no_last (d : Digest) (ps : list DigestPage) :
  Forall (λ p, page_isLastPage p = false) ps →
  numberOfInteractions (Part000.addPages d ps) = numberOfInteractions d.
Proof.
  revert d. induction ps as [|p ps IH]; intros d Hall; [done|].
  inversion Hall as [|? ? Hp Hps]; subst.
  change (Part000.addPages d (p :: ps))
    with (Part000.addPages
            (Part000.addDigestPage d (page_isLastPage p) (page_pageNumber p) (page_entries p)) ps).
  rewrite IH by done. by rewrite numberOfInteractions_addDigestPage, Hp.
Qed.

Lemma addPages_some_last (d : Digest) (ps : list DigestPage) :
  Exists (λ p, page_isLastPage p = true) ps →
  ∃ p, p ∈ ps ∧ page_isLastPage p = true ∧
       numberOfInteractions (Part000.addPages d ps) = ExpNumber (announcedCount p).
Proof.
  revert d. induction ps as [|p ps IH]; intros d Hex; [by inversion Hex|].
  change (Part000.addPages d (p :: ps))
    with (Part000.addPages
            (Part000.addDigestPage d (page_isLastPage p) (page_pageNumber p) (page_entries p)) ps).
  destruct (decide (Exists (λ p, page_isLastPage p = true) ps)) as [Hps|Hps].
  - destruct (IH (Part000.addDigestPage d (page_isLastPage p) (page_pageNumber p)
                    (page_entries p)) Hps) as (q & Hq & Hl & Hn).
    exists q. split; [by right | done].
  - inversion Hex as [? ? Hp | ? ? Hex']; subst; [|done].
    exists p. split; [by left|]. split; [done|].
    rewrite addPages_no_last.
    + by rewrite numberOfInteractions_addDigestPage, Hp.
    + apply Forall_forall. intros q Hq.
      destruct (page_isLastPage q) eqn:E; [|done].
      exfalso. apply Hps, Exists_exists. by exists q.
Qed.

Lemma populated_addPages (d : Digest) (ps : list DigestPage) (i : nat) :
  populated (interactions (Part000.addPages d ps)) i
  ↔ populated (interactions d) i
    ∨ ∃ p, p ∈ ps ∧ page_pageNumber p * 3 ≤ i < page_pageNumber p * 3 + length (page_entries p).
Proof.
  revert d. induction ps as [|p ps IH]; intros d.
  - simpl. split; [by left | intros [? | (p & Hp & _)]; [done | by apply elem_of_nil in Hp]].
  - change (Part000.addPages d (p :: ps))
      with (Part000.addPages
              (Part000.addDigestPage d (page_isLastPage p) (page_pageNumber p) (page_entries p)) ps).
    rewrite IH, interactions_addDigestPage, populated_writePage. split.
    + intros [[? | ?] | (q & Hq & ?)].
      * by left.
      * right. exists p. split; [by left | lia].
      * right. exists q. split; [by right | done].
    + intros [? | (q & Hq & ?)]; [by left; left|].
      apply elem_of_cons in Hq as [-> | Hq].
      * left; right. lia.
      * right. by exists q.
Qed.



Lemma isDigestComplete_iff (d : Digest) :
  isDigestComplete d = true
  ↔ ∃ n, numberOfInteractions d = ExpNumber n ∧ length (populatedIndices (interactions d)) = n.
Proof.
  unfold isDigestComplete, populatedIndices.
  rewrite <- (forEachCount_populatedFrom 0).
  destruct (numberOfInteractions d) as [|n|].
  - split; [done | by intros (n & ? & _)].
  - rewrite bool_decide_eq_true. split; [by exists n | by intros (m & [= <-] & ?)].
  - split; [done | by intros (n & ? & _)].
Qed.





(** ** One step of the reassembler *)

Lemma updateDigestWith_new_calls (fresh : Digest) (add : Digest → Digest)
    (st : DirActDigester) (id : string) (ts : Z) :
  digests st !! id = None →
  digestCalls (updateDigestWith fresh add st id ts)
  = if isDigestComplete fresh
    then digestCalls st ++ [(nextLoc st, setNumberOfInteractions ExpDeleted fresh)]
    else digestCalls st.
Proof.
  intros Hmap. destruct (isDigestComplete fresh) eqn:Hc.
  - by apply fresh_device_emits.
  - unfold updateDigestWith. rewrite Hmap.
    set (st1 := digestsSet id (nextLoc st) (alloc fresh st).2).
    assert (deref (nextLoc st) st1 = fresh) as Hd by apply deref_alloc_eq.
    change (digestCalls (emitIfComplete (nextLoc st) st1) = digestCalls st).
    by rewrite emitIfComplete_incomplete by by rewrite Hd.
Qed.

Lemma updateDigestWith_new_incomplete (fresh : Digest) (add : Digest → Digest)
    (st : DirActDigester) (id : string) (ts : Z) :
  digests st !! id = None →
  isDigestComplete fresh = false →
  updateDigestWith fresh add st id ts = digestsSet id (nextLoc st) (alloc fresh st).2.
Proof.
  intros Hmap Hc. unfold updateDigestWith. rewrite Hmap.
  set (st1 := digestsSet id (nextLoc st) (alloc fresh st).2).
  assert (deref (nextLoc st) st1 = fresh) as Hd by apply deref_alloc_eq.
  change (emitIfComplete (nextLoc st) st1 = st1).
  apply emitIfComplete_incomplete. by rewrite Hd.
Qed.

Lemma updateDigestWith_add_calls (fresh : Digest) (add : Digest → Digest)
    (st : DirActDigester) (id : string) (ts : Z) (l : loc) :
  digests st !! id = Some l →
  digestTimestamp (deref l st) = ts →
  isHandled (deref l st) = false →
  digestCalls (updateDigestWith fresh add st id ts)
  = if isDigestComplete (add (deref l st))
    then digestCalls st ++ [(l, setNumberOfInteractions ExpDeleted (add (deref l st)))]
    else digestCalls st.
Proof.
  intros Hmap Hts Hh. unfold updateDigestWith. rewrite Hmap, Hts, Z.eqb_refl, Hh. simpl.
  pose proof (deref_mutate_eq l add st) as Hd.
  destruct (isDigestComplete (add (deref l st))) eqn:Hc.
  - rewrite emitIfComplete_complete by by rewrite Hd. simpl. by rewrite Hd.
  - by rewrite emitIfComplete_incomplete by by rewrite Hd.
Qed.

(** The second page of a device whose first page did not complete. *)
Lemma second_page_calls (fresh0 fresh : Digest) (add : Digest → Digest)
    (st : DirActDigester) (id : string) (ts : Z) :
  digestTimestamp fresh0 = ts →
  isHandled fresh0 = false →
  digestCalls
    (updateDigestWith fresh add (digestsSet id (nextLoc st) (alloc fresh0 st).2) id ts)
  = if isDigestComplete (add fresh0)
    then digestCalls st ++ [(nextLoc st, setNumberOfInteractions ExpDeleted (add fresh0))]
    else digestCalls st.
Proof.
  intros Hts Hh.
  set (st1 := digestsSet id (nextLoc st) (alloc fresh0 st).2).
  assert (deref (nextLoc st) st1 = fresh0) as Hd by apply deref_alloc_eq.
  rewrite (updateDigestWith_add_calls fresh add st1 id ts (nextLoc st)).
  - by rewrite Hd.
  - unfold st1; simpl. by rewrite lookup_insert_eq.
  - by rewrite Hd.
  - by rewrite Hd.
Qed.

(** ** A two-page digest in either order *)

(** C2. In the timestamp variant, page 0 (not last, three entries) and page
    1 (last, two entries) of one device, delivered in either order to a
    fresh instance, give exactly one handler call, with the same digest of
    five interactions at indices 0 to 4.  [lib/diractdigester.js] gives no
    handler call in either order: it records the expected count only when
    the last page is the first to arrive, and then as [pageNumber +
    page.length] (3 here) instead of [pageNumber * 3 + page.length] (5). *)
Theorem two_page_digest_either_order (pa : bool) (id : string) (ts : Z)
    (e0 e1 e2 e3 e4 : Entry) (ta tb : Z) :
  let p0 := page0of2 id ts e0 e1 e2 in
  let p1 := page1of2 id ts e3 e4 in
  let st := newDirActDigester pa true in
  digestCalls (Part000.run st [(p0, ta); (p1, tb)])
    = [(0, fiveEntryDigest id ts e0 e1 e2 e3 e4 ta)] ∧
  digestCalls (Part000.run st [(p1, ta); (p0, tb)])
    = [(0, fiveEntryDigest id ts e0 e1 e2 e3 e4 ta)] ∧
  digestCalls (Lib.run st [p0; p1]) = [] ∧
  digestCalls (Lib.run st [p1; p0]) = [].
Proof.
  intros p0 p1 st.
  unfold Part000.run, Lib.run, Part000.feed, Lib.feed. simpl foldl.
  unfold p0, p1, page0of2, page1of2. simpl.
  rewrite !Lib_updateDigest_with, !Part000_updateDigest_with.
  repeat split.
  - rewrite (updateDigestWith_new_incomplete _ _ st) by done.
    by rewrite second_page_calls.
  - rewrite (updateDigestWith_new_incomplete _ _ st) by done.
    by rewrite second_page_calls.
  - rewrite (updateDigestWith_new_incomplete _ _ st) by done.
    by rewrite second_page_calls.
  - rewrite (updateDigestWith_new_incomplete _ _ st) by done.
    by rewrite second_page_calls.
Qed.

(** ** What an emitted digest looks like *)

(** With exactly [n] populated indices, the first [n] are all populated
    exactly when nothing from [n] on is. *)
Lemma populated_gap_free {A} (a : Js.array A) (n : nat) :
  length (populatedIndices a) = n →
  (∀ i, i < n → populated a i) ↔ (∀ i, n ≤ i → ¬ populated a i).
Proof.
  intros Hlen.
  pose proof (NoDup_populatedFrom 0 a) as Hnd. fold (populatedIndices a) in Hnd.
  split.
  - intros Hlow i Hi Hp.
    assert (seq 0 n ⊆+ populatedIndices a) as Hsub.
    { apply NoDup_submseteq; [apply NoDup_seq|].
      intros j Hj. apply elem_of_seq in Hj. apply elem_of_populatedIndices, Hlow. lia. }
    apply submseteq_length_Permutation in Hsub; [|rewrite length_seq; lia].
    apply elem_of_populatedIndices in Hp. rewrite <- Hsub in Hp.
    apply elem_of_seq in Hp. lia.
  - intros Hhigh i Hi.
    assert (populatedIndices a ⊆+ seq 0 n) as Hsub.
    { apply NoDup_submseteq; [done|].
      intros j Hj. apply elem_of_seq. apply elem_of_populatedIndices in Hj.
      destruct (decide (j < n)); [lia|]. exfalso. apply (Hhigh j); [lia | done]. }
    apply submseteq_length_Permutation in Hsub; [|rewrite length_seq; lia].
    apply elem_of_populatedIndices. rewrite Hsub. apply elem_of_seq. lia.
Qed.

(** C5, as the claim states it, fails: page 1 marked last with one entry
    announces four interactions; with page 2 and its three entries four
    indices are populated and the digest is handed over, although indices 0
    to 2 are holes and indices 6 to 8, beyond the expected count, are
    populated. *)
Lemma emitted_digest_with_gaps :
  digestCalls
    (Part000.handleRaddec (newDirActDigester true true)
       {| packets := Some [packetPage1Last; packetPage2]; raddec_timestamp := Some 7%Z |} 0)
    = [(0, gappedDigest)] ∧
  announcedCount (Part000.decodeDigestPage packetPage1Last) = 4 ∧
  interactions gappedDigest !! 0 = Some None ∧
  interactions gappedDigest !! 6
    = Some (Some {| entry_instanceId := "0bbbbbbb"; entry_count := Some 1%Z |}).
Proof. repeat split; vm_compute; reflexivity. Qed.

(** ** At most one call per epoch *)

Lemma emitIfComplete_post (l : loc) (st : DirActDigester) :
  digests (emitIfComplete l st) = digests st ∧
  nextLoc (emitIfComplete l st) = nextLoc st ∧
  (∀ l', l' ≠ l → deref l' (emitIfComplete l st) = deref l' st) ∧
  ((digestCalls (emitIfComplete l st) = digestCalls st ∧
    deref l (emitIfComplete l st) = deref l st)
   ∨ (digestCalls (emitIfComplete l st)
        = digestCalls st ++ [(l, setNumberOfInteractions ExpDeleted (deref l st))] ∧
      deref l (emitIfComplete l st)
        = setIsHandled true (setNumberOfInteractions ExpDeleted (deref l st)))).
Proof.
  destruct (emitIfComplete_calls l st) as [[_ ->] | (_ & Hc & Hm & Hn & Hl & Ho)].
  - repeat split; try done. by left.
  - repeat split; try done. by right.
Qed.

(** One step, by cases: the page is absorbed by a handled accumulator, or
    it lands in an accumulator [l] whose content before the completeness test
    is [d], freshly created or extended. *)
Lemma updateDigestWith_step (fresh : Digest) (add : Digest → Digest)
    (st : DirActDigester) (id : string) (ts : Z) :
  (∃ l, digests st !! id = Some l ∧ digestTimestamp (deref l st) = ts ∧
        isHandled (deref l st) = true ∧ updateDigestWith fresh add st id ts = st)
  ∨ ∃ l d,
      ((l = nextLoc st ∧ d = fresh ∧
        nextLoc (updateDigestWith fresh add st id ts) = S (nextLoc st) ∧
        (∀ l0, digests st !! id = Some l0 → digestTimestamp (deref l0 st) ≠ ts))
       ∨ (digests st !! id = Some l ∧ d = add (deref l st) ∧
          nextLoc (updateDigestWith fresh add st id ts) = nextLoc st ∧
          digestTimestamp (deref l st) = ts ∧ isHandled (deref l st) = false)) ∧
      digests (updateDigestWith fresh add st id ts) = <[id := l]> (digests st) ∧
      (∀ l', l' ≠ l → deref l' (updateDigestWith fresh add st id ts) = deref l' st) ∧
      ((digestCalls (updateDigestWith fresh add st id ts) = digestCalls st ∧
        deref l (updateDigestWith fresh add st id ts) = d)
       ∨ (digestCalls (updateDigestWith fresh add st id ts)
            = digestCalls st ++ [(l, setNumberOfInteractions ExpDeleted d)] ∧
          deref l (updateDigestWith fresh add st id ts)
            = setIsHandled true (setNumberOfInteractions ExpDeleted d))).
Proof.
  assert (∀ st1, st1 = digestsSet id (nextLoc st) (alloc fresh st).2 →
          (∀ l0, digests st !! id = Some l0 → digestTimestamp (deref l0 st) ≠ ts) →
          ∃ l d,
            ((l = nextLoc st ∧ d = fresh ∧
              nextLoc (emitIfComplete (nextLoc st) st1) = S (nextLoc st) ∧
              (∀ l0, digests st !! id = Some l0 → digestTimestamp (deref l0 st) ≠ ts))
             ∨ (digests st !! id = Some l ∧ d = add (deref l st) ∧
                nextLoc (emitIfComplete (nextLoc st) st1) = nextLoc st ∧
                digestTimestamp (deref l st) = ts ∧ isHandled (deref l st) = false)) ∧
            digests (emitIfComplete (nextLoc st) st1) = <[id := l]> (digests st) ∧
            (∀ l', l' ≠ l → deref l' (emitIfComplete (nextLoc st) st1) = deref l' st) ∧
            ((digestCalls (emitIfComplete (nextLoc st) st1) = digestCalls st ∧
              deref l (emitIfComplete (nextLoc st) st1) = d)
             ∨ (digestCalls (emitIfComplete (nextLoc st) st1)
                  = digestCalls st ++ [(l, setNumberOfInteractions ExpDeleted d)] ∧
                deref l (emitIfComplete (nextLoc st) st1)
                  = setIsHandled true (setNumberOfInteractions ExpDeleted d)))) as Hnew.
  { intros st1 Hst1 Hdiff.
    assert (deref (nextLoc st) st1 = fresh) as Hd by (subst st1; apply deref_alloc_eq).
    destruct (emitIfComplete_post (nextLoc st) st1) as (Hm & Hn & Ho & Hc).
    exists (nextLoc st), fresh. rewrite Hm, Hn, Hd in *. split; [left|split; [|split]].
    - repeat split; try done. by subst st1.
    - by subst st1.
    - intros l' Hne. rewrite Ho by done. subst st1.
      by rewrite deref_digestsSet, deref_alloc_ne.
    - destruct Hc as [[-> ->] | [-> ->]]; [left | right]; by subst st1. }
  unfold updateDigestWith.
  destruct (digests st !! id) as [l|] eqn:Hmap.
  - destruct (digestTimestamp (deref l st) =? ts)%Z eqn:Hts; simpl.
    + apply Z.eqb_eq in Hts.
      destruct (isHandled (deref l st)) eqn:Hh; [left; by exists l|].
      right. set (st1 := mutate l add st).
      assert (deref l st1 = add (deref l st)) as Hd by apply deref_mutate_eq.
      destruct (emitIfComplete_post l st1) as (Hm & Hn & Ho & Hc).
      exists l, (add (deref l st)). rewrite Hm, Hn, Hd in *. split; [right|split; [|split]].
      * done.
      * unfold st1; simpl. by rewrite insert_id.
      * intros l' Hne. rewrite Ho by done. by apply deref_mutate_ne.
      * destruct Hc as [[-> ->] | [-> ->]]; [left | right]; done.
    + apply Z.eqb_neq in Hts. right. apply (Hnew _ eq_refl).
      intros l0 [= <-]. done.
  - right. apply (Hnew _ eq_refl). done.
Qed.

Lemma emittedKeys_snoc (st st' : DirActDigester) (l : loc) (d : Digest) :
  digestCalls st' = digestCalls st ++ [(l, d)] →
  emittedKeys st' = emittedKeys st ++ [(instanceId d, digestTimestamp d)].
Proof. intros H. unfold emittedKeys. by rewrite H, map_app. Qed.

Lemma ReassemblerInv_init (pa pd : bool) : ReassemblerInv [] (newDirActDigester pa pd).
Proof.
  split; simpl.
  - constructor.
  - intros id l H. by rewrite lookup_empty in H.
  - intros id l H. by rewrite lookup_empty in H.
  - intros id t H. by apply elem_of_nil in H.
Qed.

Section Step.
Variables (fresh : Digest) (add : Digest → Digest) (p : DigestPage).
Hypothesis fresh_id : instanceId fresh = page_instanceId p.
Hypothesis fresh_ts : digestTimestamp fresh = page_digestTimestamp p.
Hypothesis fresh_unhandled : isHandled fresh = false.
Hypothesis add_id : ∀ d, instanceId (add d) = instanceId d.
Hypothesis add_ts : ∀ d, digestTimestamp (add d) = digestTimestamp d.
Hypothesis add_handled : ∀ d, isHandled (add d) = isHandled d.

Variables (ps : list DigestPage) (st : DirActDigester).
Hypothesis Hinv : ReassemblerInv ps st.
Hypothesis Hnr : noReturn (ps ++ [p]).

Let id := page_instanceId p.
Let ts := page_digestTimestamp p.
Let st' := updateDigestWith fresh add st id ts.

(** Old pairs keep their justification when [p] is appended, provided a
    current epoch stays current or is left by [p]. *)
Lemma keys_extend (st2 : DirActDigester) (id' : string) (t : Z) :
  (currentEpoch st id' t →
   currentEpoch st2 id' t ∨ (page_instanceId p = id' ∧ page_digestTimestamp p ≠ t)) →
  (id', t) ∈ emittedKeys st →
  ∃ ps1 q ps2,
    ps ++ [p] = ps1 ++ q :: ps2 ∧
    page_instanceId q = id' ∧ page_digestTimestamp q = t ∧
    (currentEpoch st2 id' t ∨
     ∃ r, r ∈ ps2 ∧ page_instanceId r = id' ∧ page_digestTimestamp r ≠ t).
Proof.
  intros Hcur Hin.
  destruct (inv_keys _ _ Hinv id' t Hin) as (ps1 & q & ps2 & Hps & Hq1 & Hq2 & Hdis).
  exists ps1, q, (ps2 ++ [p]). split; [by rewrite Hps, <- app_assoc|].
  split; [done|]. split; [done|].
  destruct Hdis as [Hc | (r & Hr & Hr1 & Hr2)].
  - destruct (Hcur Hc) as [? | [Hp1 Hp2]]; [by left|].
    right. exists p. split; [|done]. apply elem_of_app. right. by left.
  - right. exists r. split; [|done]. apply elem_of_app. by left.
Qed.

(** A page that is not absorbed belongs to a pair not handed over yet. *)
Lemma key_not_emitted (l : loc) :
  (∀ l0, digests st !! id = Some l0 → digestTimestamp (deref l0 st) ≠ ts)
  ∨ (digests st !! id = Some l ∧ digestTimestamp (deref l st) = ts ∧
     isHandled (deref l st) = false) →
  (id, ts) ∉ emittedKeys st.
Proof.
  intros Hcase Hin.
  destruct (inv_keys _ _ Hinv id ts Hin) as (ps1 & q & ps2 & Hps & Hq1 & Hq2 & Hdis).
  destruct Hdis as [(l0 & Hl0 & Ht0) | (r & Hr & Hr1 & Hr2)].
  - destruct Hcase as [Hdiff | (Hl & Ht & Hh)].
    + by apply (Hdiff l0).
    + rewrite Hl in Hl0. injection Hl0 as <-.
      rewrite (inv_handled _ _ Hinv id l) in Hh; [done | done | by rewrite Ht].
  - apply list_elem_of_split in Hr as (b & c & ->).
    apply Hr2. rewrite <- Hq2.
    apply (Hnr ps1 q b r c p []).
    + rewrite Hps. rewrite <- !app_assoc. simpl. by rewrite <- !app_assoc.
    + by rewrite Hq1, Hr1.
    + exact Hr1.
    + exact Hq2.
Qed.

Lemma ReassemblerInv_step : ReassemblerInv (ps ++ [p]) st'.
Proof.
  destruct (updateDigestWith_step fresh add st id ts)
    as [(l & Hmap & Hts & Hh & Heq) | (l & d & Hcase & Hdig & Hother & Hemit)].
  { (* absorbed by a handled accumulator *)
    unfold st'. rewrite Heq. split; try apply Hinv.
    intros id' t Hin. apply (keys_extend st); [by left | done]. }
  fold st' in Hcase, Hdig, Hother, Hemit.
  assert (instanceId d = id ∧ digestTimestamp d = ts ∧ isHandled d = false)
    as (Hd_id & Hd_ts & Hd_h).
  { destruct Hcase as [(_ & -> & _) | (Hl & -> & _ & Ht & Hh)]; [done|].
    rewrite add_id, add_ts, add_handled.
    by destruct (inv_wf _ _ Hinv id l Hl) as [_ ->]. }
  assert (l < nextLoc st' ∧ nextLoc st ≤ nextLoc st') as [Hl_lt Hnext].
  { destruct Hcase as [(-> & _ & -> & _) | (Hl & _ & -> & _)]; [lia|].
    destruct (inv_wf _ _ Hinv id l Hl). lia. }
  assert (∀ id' l', id' ≠ id → digests st !! id' = Some l' → l' ≠ l) as Hl_ne.
  { intros id' l' Hne Hl' ->. destruct (inv_wf _ _ Hinv id' l Hl') as [Hlt Hid].
    destruct Hcase as [(Hl & _) | (Hl & _)]; [lia|].
    destruct (inv_wf _ _ Hinv id l Hl) as [_ Hid2]. congruence. }
  assert ((id, ts) ∉ emittedKeys st) as Hfresh.
  { apply (key_not_emitted l).
    destruct Hcase as [(_ & _ & _ & Hdiff) | (Hl & _ & _ & Ht & Hh)]; [by left | by right]. }
  assert (instanceId (deref l st') = id ∧ digestTimestamp (deref l st') = ts ∧
          ((emittedKeys st' = emittedKeys st ∧ isHandled (deref l st') = false) ∨
           (emittedKeys st' = emittedKeys st ++ [(id, ts)] ∧
            isHandled (deref l st') = true)))
    as (Hl_id & Hl_ts & Hkeys).
  { destruct Hemit as [[Hc ->] | [Hc ->]].
    - repeat split; try done. left. split; [|done]. unfold emittedKeys. by rewrite Hc.
    - repeat split; try done. right. split; [|done].
      pose proof (emittedKeys_snoc st st' l _ Hc) as Hk. simpl in Hk.
      by rewrite Hd_id, Hd_ts in Hk. }
  assert (∀ k, k ∈ emittedKeys st' → k ∈ emittedKeys st ∨ k = (id, ts)) as Hkeys_in.
  { intros k. destruct Hkeys as [[-> _] | [-> _]]; [by left|].
    intros [? | ?%list_elem_of_singleton]%elem_of_app; [by left | by right]. }
  assert (currentEpoch st' id ts) as Hcur.
  { exists l. split; [|done]. rewrite Hdig. apply lookup_insert_eq. }
  split.
  - (* no pair twice *)
    destruct Hkeys as [[-> _] | [-> _]]; [apply Hinv|].
    apply NoDup_app. split; [apply Hinv|]. split; [|apply NoDup_singleton].
    intros k Hk ->%list_elem_of_singleton. done.
  - (* stored references *)
    intros id' l'. rewrite Hdig. rewrite lookup_insert. case_decide as Hid.
    + subst id'. intros [= <-]. done.
    + intros Hl'. destruct (inv_wf _ _ Hinv id' l' Hl') as [Hlt Hid'].
      rewrite Hother by by apply Hl_ne with id'. split; [lia | done].
  - (* handed over and current: handled *)
    intros id' l'. rewrite Hdig. rewrite lookup_insert. case_decide as Hid.
    + subst id'. intros [= <-]. rewrite Hl_ts. intros Hin.
      destruct Hkeys as [[Hk _] | [_ Hh]]; [|done].
      rewrite Hk in Hin. done.
    + intros Hl' Hin. rewrite Hother in * by by apply Hl_ne with id'.
      apply (inv_handled _ _ Hinv id' l' Hl').
      destruct (Hkeys_in _ Hin) as [? | [= ? _]]; [done | congruence].
  - (* every pair has its page *)
    intros id' t Hin. destruct (Hkeys_in _ Hin) as [Hold | [= -> ->]].
    + apply (keys_extend st'); [|done].
      intros (l0 & Hl0 & Ht0).
      destruct (decide (id' = id)) as [-> | Hne].
      * destruct (decide (t = ts)) as [-> | Hnt]; [by left | by right].
      * left. exists l0. rewrite Hdig, lookup_insert_ne by done.
        split; [done|]. rewrite Hother; [done|]. by apply Hl_ne with id'.
    + exists ps, p, []. repeat split; try done. by left.
Qed.
End Step.

Lemma noReturn_prefix (ps : list DigestPage) (p : DigestPage) :
  noReturn (ps ++ [p]) → noReturn ps.
Proof.
  intros H ps1 q ps2 r ps3 p' ps4 Hps. apply (H ps1 q ps2 r ps3 p' (ps4 ++ [p])).
  rewrite Hps. rewrite <- !app_assoc. simpl. rewrite <- !app_assoc. simpl.
  by rewrite <- !app_assoc.
Qed.

Lemma Lib_run_inv (pa pd : bool) (ps : list DigestPage) :
  noReturn ps → ReassemblerInv ps (Lib.run (newDirActDigester pa pd) ps).
Proof.
  induction ps as [|p ps IH] using rev_ind; intros Hnr.
  - apply ReassemblerInv_init.
  - unfold Lib.run. rewrite foldl_snoc. fold (Lib.run (newDirActDigester pa pd) ps).
    unfold Lib.feed. rewrite Lib_updateDigest_with.
    apply ReassemblerInv_step; try done.
    apply IH. by apply noReturn_prefix with p.
Qed.

Lemma Part000_run_inv (pa pd : bool) (pts : list (DigestPage * Z)) :
  noReturn (map fst pts) →
  ReassemblerInv (map fst pts) (Part000.run (newDirActDigester pa pd) pts).
Proof.
  induction pts as [|pt pts IH] using rev_ind; intros Hnr.
  - apply ReassemblerInv_init.
  - rewrite map_app in *. simpl in *.
    unfold Part000.run. rewrite foldl_snoc. fold (Part000.run (newDirActDigester pa pd) pts).
    unfold Part000.feed. rewrite Part000_updateDigest_with.
    apply ReassemblerInv_step; try done.
    + unfold Part000.createDigest, Part000.addDigestPage. by destruct (page_isLastPage pt.1).
    + unfold Part000.createDigest, Part000.addDigestPage. by destruct (page_isLastPage pt.1).
    + unfold Part000.createDigest, Part000.addDigestPage. by destruct (page_isLastPage pt.1).
    + intros d. unfold Part000.addDigestPage. by destruct (page_isLastPage pt.1).
    + intros d. unfold Part000.addDigestPage. by destruct (page_isLastPage pt.1).
    + intros d. unfold Part000.addDigestPage. by destruct (page_isLastPage pt.1).
    + apply IH. by apply noReturn_prefix with pt.1.
Qed.

Lemma updateDigestWith_supersedes (fresh : Digest) (add : Digest → Digest)
    (st : DirActDigester) (id : string) (ts : Z) (l : loc) :
  digests st !! id = Some l →
  digestTimestamp (deref l st) ≠ ts →
  supersedes st id fresh (updateDigestWith fresh add st id ts).
Proof.
  intros Hmap Hts.
  set (st1 := digestsSet id (nextLoc st) (alloc fresh st).2).
  assert (deref (nextLoc st) st1 = fresh) as Hd by apply deref_alloc_eq.
  assert (updateDigestWith fresh add st id ts = emitIfComplete (nextLoc st) st1) as ->.
  { unfold updateDigestWith. rewrite Hmap. apply Z.eqb_neq in Hts. by rewrite Hts. }
  unfold supersedes.
  destruct (emitIfComplete_post (nextLoc st) st1) as (Hm & _ & _ & _).
  split.
  - rewrite Hm. unfold st1; simpl. apply lookup_insert_eq.
  - destruct (isDigestComplete fresh) eqn:Hc.
    + rewrite emitIfComplete_complete by by rewrite Hd. simpl. by rewrite Hd.
    + by rewrite emitIfComplete_incomplete by by rewrite Hd.
Qed.

(** C1, as the claim states it, fails in both files: a one-page digest of
    epoch 3600, a page of epoch 3601 and the first packet again give two
    handler calls for the pair (01234567, 3600); the second is triggered by
    the page that arrives after its epoch was superseded. *)
Lemma superseded_epoch_emitted_again :
  emittedKeys (Lib.handleRaddec (newDirActDigester true true) raddecT1T2T1)
    = [("01234567", 3600%Z); ("01234567", 3600%Z)] ∧
  emittedKeys (Part000.handleRaddec (newDirActDigester true true) raddecT1T2T1 0)
    = [("01234567", 3600%Z); ("01234567", 3600%Z)] ∧
  map page_digestTimestamp
    (map Lib.decodeDigestPage [packetT1; packetT2; packetT1]) = [3600%Z; 3601%Z; 3600%Z].
Proof. repeat split; vm_compute; reflexivity. Qed.

(** * Further properties of the code *)

(** ** The codec on arbitrary input *)

Lemma band_ones_range (x : Js.number) (n : Z) :
  (0 ≤ n)%Z → (0 ≤ Js.band x (Z.ones n) < 2 ^ n)%Z.
Proof. intros Hn. unfold Js.band. by apply land_ones_range. Qed.

(** A property checked on 0..63 holds of every 6-bit value. *)
Lemma six_bit_check (P : Z → bool) :
  forallb (λ n, P (Z.of_nat n)) (seq 0 64) = true →
  ∀ z, (0 ≤ z ≤ 63)%Z → P z = true.
Proof.
  intros Hall z Hz. rewrite forallb_forall in Hall.
  specialize (Hall (Z.to_nat z)). rewrite Z2Nat.id in Hall by lia.
  apply Hall, in_seq. lia.
Qed.

Lemma battery_closed_form (data : Z) :
  (0 ≤ data ≤ 63)%Z →
  Js.mathRound (Q2Qc (inject_Z (100 * data)) / Q2Qc (inject_Z 63))%Qc
  = ((200 * data + 63) / 126)%Z.
Proof.
  intros Hd. apply Z.eqb_eq.
  apply (six_bit_check
           (λ d, (Js.mathRound (Q2Qc (inject_Z (100 * d)) / Q2Qc (inject_Z 63))%Qc
                  =? (200 * d + 63) / 126)%Z)); [|done].
  vm_compute. reflexivity.
Qed.

(** The battery percentage depends on the low six bits [d] of the parsed
    value only and is [100 * d / 63] rounded to the nearest integer; it lies
    in 0-100 whatever the input string, is 0 for [d = 0] and 100 for
    [d = 63], and never decreases when [d] grows. *)
Theorem toBatteryPercentage_rounds (bits bits' : string) :
  let d := Js.band (Js.parseInt16 bits) 0x3f in
  let d' := Js.band (Js.parseInt16 bits') 0x3f in
  toBatteryPercentage bits = ((200 * d + 63) / 126)%Z ∧
  (0 ≤ toBatteryPercentage bits ≤ 100)%Z ∧
  (d = 0%Z → toBatteryPercentage bits = 0%Z) ∧
  (d = 63%Z → toBatteryPercentage bits = 100%Z) ∧
  ((d ≤ d')%Z → (toBatteryPercentage bits ≤ toBatteryPercentage bits')%Z).
Proof.
  intros d d'.
  assert (0 ≤ d ≤ 63)%Z as Hd.
  { pose proof (band_ones_range (Js.parseInt16 bits) 6) as H.
    change (Z.ones 6) with 0x3f%Z in H. fold d in H. change (2 ^ 6)%Z with 64%Z in H. lia. }
  assert (0 ≤ d' ≤ 63)%Z as Hd'.
  { pose proof (band_ones_range (Js.parseInt16 bits') 6) as H.
    change (Z.ones 6) with 0x3f%Z in H. fold d' in H. change (2 ^ 6)%Z with 64%Z in H. lia. }
  assert (toBatteryPercentage bits = ((200 * d + 63) / 126)%Z) as ->
    by (unfold toBatteryPercentage; fold d; by apply battery_closed_form).
  assert (toBatteryPercentage bits' = ((200 * d' + 63) / 126)%Z) as ->
    by (unfold toBatteryPercentage; fold d'; by apply battery_closed_form).
  repeat split.
  - apply Z.div_pos; lia.
  - apply Z.lt_succ_r, Z.div_lt_upper_bound; lia.
  - by intros ->.
  - by intros ->.
  - intros Hle. apply Z.div_le_mono; lia.
Qed.

(** ** The loop of the packet decoders *)

Lemma entry_count_step (frameLength : Z) (i : nat) :
  (Z.of_nat i < frameLength + 2)%Z →
  Z.to_nat ((frameLength + 6 - Z.of_nat i) / 5)
  = S (Z.to_nat ((frameLength + 6 - Z.of_nat (i + 5)) / 5)).
Proof.
  intros Hlt.
  replace (frameLength + 6 - Z.of_nat i)%Z
    with ((frameLength + 6 - Z.of_nat (i + 5)) + 1 * 5)%Z by lia.
  rewrite Z.div_add by lia.
  assert (0 ≤ (frameLength + 6 - Z.of_nat (i + 5)) / 5)%Z by (apply Z.div_pos; lia).
  lia.
Qed.

Lemma entry_count_stop (frameLength : Z) (i : nat) :
  ¬ (Z.of_nat i < frameLength + 2)%Z →
  Z.to_nat ((frameLength + 6 - Z.of_nat i) / 5) = 0.
Proof.
  intros Hge.
  assert ((frameLength + 6 - Z.of_nat i) / 5 ≤ 0)%Z; [|lia].
  apply Z.lt_succ_r, Z.div_lt_upper_bound; lia.
Qed.

(** With enough fuel the loop pushes [body] of the offsets [i], [i + 5],
    ... below [frameLength + 2], in that order. *)
Lemma forStride5_unrolled {A} (fuel : nat) (frameLength : Z) (i : nat) (body : nat → A)
    (out : list A) :
  Z.to_nat ((frameLength + 6 - Z.of_nat i) / 5) ≤ fuel →
  forStride5 fuel frameLength i body out
  = out ++ map body (map (λ k, i + 5 * k)
                       (seq 0 (Z.to_nat ((frameLength + 6 - Z.of_nat i) / 5)))).
Proof.
  revert i out. induction fuel as [|fuel IH]; intros i out Hfuel.
  - simpl. replace (Z.to_nat _) with 0 by lia. simpl. by rewrite app_nil_r.
  - simpl. destruct (Z.of_nat i <? frameLength + 2)%Z eqn:E.
    + apply Z.ltb_lt in E. rewrite (entry_count_step frameLength i E) in *.
      rewrite IH by lia. rewrite <- app_assoc. f_equal. simpl. f_equal.
      * f_equal. lia.
      * rewrite <- seq_shift, !map_map. apply map_ext. intros k. f_equal. lia.
    + apply Z.ltb_ge in E. rewrite entry_count_stop by lia. simpl. by rewrite app_nil_r.
Qed.

Lemma forStride5_entryOffsets {A} (frameLength : Z) (body : nat → A) :
  forStride5 (loopFuel frameLength) frameLength 9 body []
  = map body (entryOffsets frameLength).
Proof.
  assert ((frameLength + 6 - Z.of_nat 9) = frameLength - 3)%Z as Heq by lia.
  rewrite forStride5_unrolled; rewrite Heq.
  - done.
  - unfold loopFuel.
    destruct (decide (frameLength + 2 ≤ 9)%Z) as [Hs|Hs].
    + rewrite <- Heq, entry_count_stop; lia.
    + apply Z2Nat.inj_le; [apply Z.div_pos; lia | lia |].
      apply Z.lt_succ_r, Z.div_lt_upper_bound; lia.
Qed.

Lemma decodeFrameLength_range (data : string) :
  (0 ≤ decodeFrameLength data ≤ 31)%Z.
Proof.
  pose proof (band_ones_range (Js.parseInt16 (Js.substr 2 2 data)) 5) as H.
  change (Z.ones 5) with 0x1f%Z in H. change (2 ^ 5)%Z with 32%Z in H.
  unfold decodeFrameLength. lia.
Qed.

Lemma length_entryOffsets (frameLength : Z) :
  (0 ≤ frameLength ≤ 31)%Z → length (entryOffsets frameLength) ≤ 5.
Proof.
  intros H. unfold entryOffsets. rewrite length_map, length_seq.
  assert ((frameLength - 3) / 5 < 6)%Z by (apply Z.div_lt_upper_bound; lia). lia.
Qed.

(** Both packet decoders visit the body offsets 9, 14, 19, ... below
    [frameLength + 2]: the entries of a digest page and the nearest list of
    a proximity report are read at these offsets, in wire order, so there
    are [(frameLength - 3) / 5] of them (none below frame length 8) and, the
    frame length being five bits wide, never more than five. *)
Theorem decoder_loop_unrolled (packet : string) (tstamp : option Z) :
  let data := Js.substrFrom 30 packet in
  let offsets := entryOffsets (decodeFrameLength data) in
  page_entries (Lib.decodeDigestPage packet)
    = map (λ i, {| entry_instanceId := Js.substr (i * 2) 8 data;
                   entry_count := Js.parseInt16 (Js.substr (i * 2 + 8) 2 data) |}) offsets ∧
  map entry_instanceId (page_entries (Part000.decodeDigestPage packet))
    = map (λ i, Js.substr (i * 2) 8 data) offsets ∧
  nearest (decodeProximity data tstamp)
    = map (λ i, {| nearest_instanceId := Js.substr (i * 2) 8 data;
                   nearest_rssi := toRssi (Js.substr (i * 2 + 8) 2 data) |}) offsets ∧
  length offsets = Z.to_nat ((decodeFrameLength data - 3) / 5) ∧
  length offsets ≤ 5.
Proof.
  intros data offsets.
  split; [apply forStride5_entryOffsets|].
  split.
  { unfold Part000.decodeDigestPage. cbv [page_entries]. fold data.
    rewrite forStride5_entryOffsets, map_map. done. }
  split; [apply forStride5_entryOffsets|].
  split.
  - unfold offsets, entryOffsets. by rewrite length_map, length_seq.
  - apply length_entryOffsets, decodeFrameLength_range.
Qed.

Lemma substr_length (n m : nat) (s : string) :
  String.length (Js.substr n m s) = Nat.min m (String.length s - n).
Proof.
  unfold Js.substr. revert n m. induction s as [|c s IH]; intros n m.
  - destruct n, m; simpl; lia.
  - destruct n as [|n].
    + destruct m as [|m]; simpl; [done|]. rewrite (IH 0 m). lia.
    + simpl. apply IH.
Qed.

Lemma toBatteryPercentage_range (bits : string) :
  (0 ≤ toBatteryPercentage bits ≤ 100)%Z.
Proof.
  pose proof (band_ones_range (Js.parseInt16 bits) 6) as H.
  change (Z.ones 6) with 0x3f%Z in H. change (2 ^ 6)%Z with 64%Z in H.
  unfold toBatteryPercentage. rewrite battery_closed_form by lia.
  split; [apply Z.div_pos; lia | apply Z.lt_succ_r, Z.div_lt_upper_bound; lia].
Qed.

Lemma toRssi_range (bits : string) : (-92 ≤ toRssi bits ≤ -29)%Z.
Proof.
  pose proof (band_ones_range (Js.parseInt16 bits) 6) as H.
  change (Z.ones 6) with 0x3f%Z in H. change (2 ^ 6)%Z with 64%Z in H.
  unfold toRssi. lia.
Qed.

(** Whatever the packet (truncated, not hexadecimal, of any length), the
    proximity report built from it has three acceleration readings, a
    battery percentage in 0-100, an instance identifier of at most eight
    characters and at most five nearest entries, each with an identifier of
    at most eight characters and an RSSI between -92 and -29. *)
Theorem proximity_report_in_range (packet : string) (tstamp : option Z) :
  let r := decodeProximity (Js.substrFrom 30 packet) tstamp in
  length (acceleration r) = 3 ∧
  (0 ≤ batteryPercentage r ≤ 100)%Z ∧
  String.length (prox_instanceId r) ≤ 8 ∧
  length (nearest r) ≤ 5 ∧
  Forall (λ n, String.length (nearest_instanceId n) ≤ 8 ∧
               (-92 ≤ nearest_rssi n ≤ -29)%Z) (nearest r).
Proof.
  intros r. split; [done|].
  split; [apply toBatteryPercentage_range|].
  split; [unfold r; simpl; rewrite substr_length; lia|].
  unfold r, decodeProximity. cbv [nearest]. rewrite forStride5_entryOffsets.
  split.
  - rewrite length_map. apply length_entryOffsets, decodeFrameLength_range.
  - apply Forall_forall. intros n [i [-> _]]%list_elem_of_fmap. simpl.
    split; [rewrite substr_length; lia | apply toRssi_range].
Qed.

(** ** Counts *)

Lemma allAscii_complete (c : ascii) : In c allAscii.
Proof.
  unfold allAscii. apply in_map_iff. exists (nat_of_ascii c).
  split; [apply ascii_nat_embedding|]. apply in_seq.
  pose proof (nat_ascii_bounded c). lia.
Qed.

(** A property checked on [lo], ..., [lo + n - 1] holds on that range. *)
Lemma range_check (lo : Z) (n : nat) (P : Z → bool) :
  forallb (λ k, P (lo + Z.of_nat k)%Z) (seq 0 n) = true →
  ∀ z, (lo ≤ z < lo + Z.of_nat n)%Z → P z = true.
Proof.
  intros Hall z Hz. rewrite forallb_forall in Hall.
  specialize (Hall (Z.to_nat (z - lo))).
  replace (lo + Z.of_nat (Z.to_nat (z - lo)))%Z with z in Hall by lia.
  apply Hall, in_seq. lia.
Qed.

(** Two characters, whatever they are, parse to [NaN] or to a value from
    -15 (a minus sign and a digit) to 255. *)
Lemma parseInt16_two_chars (s : string) :
  String.length s ≤ 2 →
  match Js.parseInt16 s with
  | None => True
  | Some z => (-15 ≤ z ≤ 255)%Z
  end.
Proof.
  intros Hlen.
  assert (∀ c1 c2,
            match Js.parseInt16 (String c1 (String c2 "")) with
            | None => true
            | Some z => (-15 <=? z)%Z && (z <=? 255)%Z
            end = true) as H2.
  { assert (forallb (λ c1, forallb (λ c2,
              match Js.parseInt16 (String c1 (String c2 "")) with
              | None => true
              | Some z => (-15 <=? z)%Z && (z <=? 255)%Z
              end) allAscii) allAscii = true) as Hall by (vm_compute; reflexivity).
    intros c1 c2. rewrite forallb_forall in Hall.
    specialize (Hall c1 (allAscii_complete c1)). rewrite forallb_forall in Hall.
    apply (Hall c2 (allAscii_complete c2)). }
  destruct s as [|c1 [|c2 [|c3 s]]]; [done | | | simpl in Hlen; lia].
  - assert (forallb (λ c,
              match Js.parseInt16 (String c "") with
              | None => true
              | Some z => (-15 <=? z)%Z && (z <=? 255)%Z
              end) allAscii = true) as Hall by (vm_compute; reflexivity).
    rewrite forallb_forall in Hall. specialize (Hall c1 (allAscii_complete c1)).
    destruct (Js.parseInt16 _) as [z|]; [|done].
    apply andb_true_iff in Hall as [?%Z.leb_le ?%Z.leb_le]. lia.
  - specialize (H2 c1 c2). destruct (Js.parseInt16 _) as [z|]; [|done].
    apply andb_true_iff in H2 as [?%Z.leb_le ?%Z.leb_le]. lia.
Qed.

Lemma rescaleCount_stored (z : Z) :
  (-15 ≤ z ≤ 255)%Z → rescaleCount (Some z) = Some (storedCount z).
Proof.
  intros Hz.
  assert (match rescaleCount (Some z) with
          | Some r => (r =? storedCount z)%Z
          | None => false
          end = true) as H.
  { apply (range_check (-15) 271
             (λ z, match rescaleCount (Some z) with
                   | Some r => (r =? storedCount z)%Z
                   | None => false
                   end)); [vm_compute; reflexivity | lia]. }
  destruct (rescaleCount (Some z)) as [r|]; [|done]. by apply Z.eqb_eq in H as ->.
Qed.

Lemma Lib_entry_counts (packet : string) :
  Forall (λ e, match entry_count e with
               | None => True
               | Some z => (-15 ≤ z ≤ 255)%Z
               end) (page_entries (Lib.decodeDigestPage packet)).
Proof.
  unfold Lib.decodeDigestPage. cbv [page_entries]. rewrite forStride5_entryOffsets.
  apply Forall_forall. intros e [i [-> _]]%list_elem_of_fmap. simpl.
  apply parseInt16_two_chars. rewrite substr_length. lia.
Qed.

(** The counts a digest page can carry, whatever the packet.
    [lib/diractdigester.js] stores [NaN] or a value from -15 to 255 (0-255
    for two hexadecimal digits).  The timestamp variant stores the same
    value up to 128 and [256 * (value - 128)] above, so its counts are
    [NaN], at most 128, or a multiple of 256 from 256 to 32512, never a
    value from 129 to 255; distinct raw values give distinct counts. *)
Theorem digest_counts_in_range (packet : string) :
  Forall (λ e, match entry_count e with
               | None => True
               | Some z => (-15 ≤ z ≤ 255)%Z
               end) (page_entries (Lib.decodeDigestPage packet)) ∧
  Forall2 (λ eP eL, entry_count eP = storedCount <$> entry_count eL)
    (page_entries (Part000.decodeDigestPage packet))
    (page_entries (Lib.decodeDigestPage packet)) ∧
  Forall (λ e, match entry_count e with
               | None => True
               | Some z => (-15 ≤ z ≤ 128)%Z ∨
                           (256 ≤ z ≤ 32512 ∧ z mod 256 = 0)%Z
               end) (page_entries (Part000.decodeDigestPage packet)) ∧
  (∀ b b', storedCount b = storedCount b' → (-15 ≤ b ≤ 255)%Z → (-15 ≤ b' ≤ 255)%Z →
           b = b').
Proof.
  pose proof (Lib_entry_counts packet) as HL.
  rewrite Part000_decodeDigestPage_entries.
  assert (∀ e, match entry_count e with
               | None => True
               | Some z => (-15 ≤ z ≤ 255)%Z
               end →
               entry_count (rescaleEntry e) = storedCount <$> entry_count e) as Hre.
  { intros [i [z|]]; simpl; [|done]. intros Hz. by apply rescaleCount_stored. }
  split; [exact HL|]. split; [|split].
  - apply Forall2_fmap_l, Forall_Forall2_diag.
    eapply Forall_impl; [exact HL|]. exact Hre.
  - apply Forall_fmap. eapply Forall_impl; [exact HL|].
    intros [i [z|]] He; unfold compose; [|done].
    rewrite (Hre {| entry_instanceId := i; entry_count := Some z |} He).
    simpl in He. simpl. unfold storedCount.
    destruct (z <=? 128)%Z eqn:E.
    + apply Z.leb_le in E. left. lia.
    + apply Z.leb_gt in E. right. split; [lia|].
      rewrite Z.mul_comm. apply Z.mod_mul. lia.
  - intros b b' Heq Hb Hb'. unfold storedCount in Heq.
    destruct (b <=? 128)%Z eqn:E; destruct (b' <=? 128)%Z eqn:E';
      try apply Z.leb_le in E; try apply Z.leb_gt in E;
      try apply Z.leb_le in E'; try apply Z.leb_gt in E'; lia.
Qed.

(** ** The last-page flag and the digest timestamp *)

Lemma substr_first_char (n m : nat) (s : string) (c : ascii) (rest : string) :
  Js.substr n (S m) s = String c rest → Js.substr n 1 s = String c "".
Proof.
  unfold Js.substr. revert s. induction n as [|n IH]; intros [|a s]; simpl; try done.
  - intros [= -> _]. by destruct s.
  - apply IH.
Qed.

Lemma parseInt16_hex6 (c1 c2 c3 c4 c5 c6 : ascii) (h1 h2 h3 h4 h5 h6 : Z) :
  Js.hexDigit c1 = Some h1 → Js.hexDigit c2 = Some h2 → Js.hexDigit c3 = Some h3 →
  Js.hexDigit c4 = Some h4 → Js.hexDigit c5 = Some h5 → Js.hexDigit c6 = Some h6 →
  Js.parseInt16
    (String c1 (String c2 (String c3 (String c4 (String c5 (String c6 ""))))))
  = Some (hex6 h1 h2 h3 h4 h5 h6).
Proof.
  intros H1 H2 H3 H4 H5 H6. unfold Js.parseInt16. simpl Js.skipWhiteSpace.
  rewrite (hexDigit_not_white c1 h1 H1), (hexDigit_no_sign c1 h1 _ H1).
  rewrite (hexDigit_no_prefix c1 c2 h2 _ H2).
  simpl. rewrite H1. simpl. rewrite H2. simpl. rewrite H3. simpl. rewrite H4. simpl.
  rewrite H5. simpl. rewrite H6. simpl. f_equal. unfold hex6. lia.
Qed.

Lemma nibble_bit3 (h : Z) :
  (0 ≤ h ≤ 15)%Z → (Z.land h 0x8 =? 0x8)%Z = (8 <=? h)%Z.
Proof.
  intros Hh. apply Bool.eqb_prop.
  apply (range_check 0 16 (λ h, Bool.eqb (Z.land h 0x8 =? 0x8)%Z (8 <=? h)%Z));
    [vm_compute; reflexivity | lia].
Qed.

(** For every packet the digest timestamp is a 23-bit value.  When the
    three bytes at body offset 6 are written as six hexadecimal digits of
    value [v], the last-page flag is bit 23 of [v] and the digest timestamp
    its low 23 bits: [v = 2^23 * isLastPage + digestTimestamp], so the two
    fields share the three bytes without losing a bit. *)
Theorem lastPage_timestamp_split (packet : string) (c1 c2 c3 c4 c5 c6 : ascii)
    (h1 h2 h3 h4 h5 h6 : Z) :
  let data := Js.substrFrom 30 packet in
  let p := Lib.decodeDigestPage packet in
  let p' := Part000.decodeDigestPage packet in
  let v := hex6 h1 h2 h3 h4 h5 h6 in
  Js.substr 12 6 data
    = String c1 (String c2 (String c3 (String c4 (String c5 (String c6 ""))))) →
  Js.hexDigit c1 = Some h1 → Js.hexDigit c2 = Some h2 → Js.hexDigit c3 = Some h3 →
  Js.hexDigit c4 = Some h4 → Js.hexDigit c5 = Some h5 → Js.hexDigit c6 = Some h6 →
  (0 ≤ page_digestTimestamp p < 2 ^ 23)%Z ∧
  page_isLastPage p = (2 ^ 23 <=? v)%Z ∧
  page_digestTimestamp p = (v mod 2 ^ 23)%Z ∧
  v = ((if page_isLastPage p then 2 ^ 23 else 0) + page_digestTimestamp p)%Z ∧
  page_isLastPage p' = page_isLastPage p ∧
  page_digestTimestamp p' = page_digestTimestamp p.
Proof.
  intros data p p' v Hsub H1 H2 H3 H4 H5 H6.
  change (page_digestTimestamp p) with (decodeDigestTimestamp data).
  change (page_isLastPage p) with (decodeIsLastPage data).
  change (page_digestTimestamp p') with (decodeDigestTimestamp data).
  change (page_isLastPage p') with (decodeIsLastPage data).
  pose proof (hexDigit_range _ _ H1). pose proof (hexDigit_range _ _ H2).
  pose proof (hexDigit_range _ _ H3). pose proof (hexDigit_range _ _ H4).
  pose proof (hexDigit_range _ _ H5). pose proof (hexDigit_range _ _ H6).
  assert (decodeDigestTimestamp data = v mod 2 ^ 23)%Z as Hts.
  { unfold decodeDigestTimestamp, Js.band. rewrite Hsub.
    rewrite (parseInt16_hex6 c1 c2 c3 c4 c5 c6 h1 h2 h3 h4 h5 h6) by done.
    fold v. rewrite toInt32_small by (unfold v, hex6; lia).
    change 0x7fffff%Z with (Z.ones 23). apply Z.land_ones. lia. }
  assert (decodeIsLastPage data = (2 ^ 23 <=? v)%Z) as Hlast.
  { unfold decodeIsLastPage, Js.band.
    rewrite (substr_first_char _ _ _ _ _ Hsub), (parseInt16_hex1 c1 h1 H1).
    rewrite toInt32_small by lia. rewrite nibble_bit3 by done.
    destruct (8 <=? h1)%Z eqn:E; symmetry.
    - apply Z.leb_le in E. apply Z.leb_le. unfold v, hex6. lia.
    - apply Z.leb_gt in E. apply Z.leb_gt. unfold v, hex6. lia. }
  rewrite Hlast, Hts.
  assert (0 ≤ v < 2 ^ 24)%Z as Hv by (unfold v, hex6; lia).
  pose proof (Z.mod_pos_bound v (2 ^ 23)) as Hm.
  pose proof (Z.div_mod v (2 ^ 23)) as Hdm.
  repeat split; try lia.
  destruct (2 ^ 23 <=? v)%Z eqn:E.
  - apply Z.leb_le in E.
    assert (v - 2 ^ 23 = v mod 2 ^ 23)%Z as <-; [|lia].
    apply (Z.mod_unique_pos v (2 ^ 23) 1); lia.
  - apply Z.leb_gt in E. rewrite Z.mod_small; lia.
Qed.

Lemma lastPage_timestamp_split_witness :
  page_isLastPage (Lib.decodeDigestPage packetT1) = (2 ^ 23 <=? hex6 8 0 0 14 1 0)%Z.
Proof.
  apply (lastPage_timestamp_split packetT1 "8" "0" "0" "e" "1" "0" 8 0 0 14 1 0);
    reflexivity.
Defined.

(** ** What a packet can and cannot do *)

Lemma emitIfComplete_frame (l : loc) (st : DirActDigester) :
  handleDirActProximity (emitIfComplete l st) = handleDirActProximity st ∧
  handleDirActDigest (emitIfComplete l st) = handleDirActDigest st ∧
  proximityCalls (emitIfComplete l st) = proximityCalls st.
Proof.
  destruct (isDigestComplete (deref l st)) eqn:E.
  - by rewrite emitIfComplete_complete.
  - by rewrite emitIfComplete_incomplete.
Qed.

Lemma updateDigestWith_frame (fresh : Digest) (add : Digest → Digest)
    (st : DirActDigester) (id : string) (ts : Z) :
  handleDirActProximity (updateDigestWith fresh add st id ts) = handleDirActProximity st ∧
  handleDirActDigest (updateDigestWith fresh add st id ts) = handleDirActDigest st ∧
  proximityCalls (updateDigestWith fresh add st id ts) = proximityCalls st.
Proof.
  unfold updateDigestWith.
  pose proof (emitIfComplete_frame (nextLoc st)
                (digestsSet id (nextLoc st) (alloc fresh st).2)) as Hnew.
  destruct (digests st !! id) as [l|]; [|exact Hnew].
  destruct (negb _); [exact Hnew|].
  destruct (isHandled (deref l st)); [done|].
  exact (emitIfComplete_frame l (mutate l add st)).
Qed.

(** The map, the allocation counter and the digest log after one step. *)
Lemma updateDigestWith_grows (fresh : Digest) (add : Digest → Digest)
    (st : DirActDigester) (id : string) (ts : Z) :
  nextLoc st ≤ nextLoc (updateDigestWith fresh add st id ts) ∧
  (∀ id', is_Some (digests st !! id') →
          is_Some (digests (updateDigestWith fresh add st id ts) !! id')) ∧
  (digestCalls (updateDigestWith fresh add st id ts) = digestCalls st ∨
   ∃ c, digestCalls (updateDigestWith fresh add st id ts) = digestCalls st ++ [c]).
Proof.
  destruct (updateDigestWith_step fresh add st id ts)
    as [(l & _ & _ & _ & ->) | (l & d & Hcase & Hdig & _ & Hemit)].
  - repeat split; [lia | done | by left].
  - rewrite Hdig. repeat split.
    + destruct Hcase as [(_ & _ & -> & _) | (_ & _ & -> & _)]; lia.
    + intros id' His. rewrite lookup_insert. by case_decide.
    + destruct Hemit as [[-> _] | [-> _]]; [by left | right; by eexists].
Qed.

Lemma packetEffect_skip (stamp : option Z) (st : DirActDigester) :
  packetEffect stamp st st.
Proof. repeat split; try done. by left. Qed.

Lemma packetEffect_proximity (st : DirActDigester) (r : Proximity) :
  packetEffect (prox_timestamp r) st (callProximityHandler r st).
Proof. repeat split; try done. right; left. by exists r. Qed.

Lemma packetEffect_digest (stamp : option Z) (fresh : Digest) (add : Digest → Digest)
    (st : DirActDigester) (id : string) (ts : Z) :
  packetEffect stamp st (updateDigestWith fresh add st id ts).
Proof.
  destruct (updateDigestWith_frame fresh add st id ts) as (Hp & Hd & Hpc).
  destruct (updateDigestWith_grows fresh add st id ts) as (Hn & Hdom & Hc).
  repeat split; try done.
  destruct Hc as [Hc | [c Hc]]; [left | right; right; exists c]; done.
Qed.

(** The effect of one packet on the instance, in both files. *)
Lemma processPacket_effect (st : DirActDigester) (packet : string) (tstamp : Z) :
  packetEffect None st (Lib.processPacket st packet) ∧
  packetEffect (Some tstamp) st (Part000.processPacket st packet tstamp).
Proof.
  split.
  - unfold Lib.processPacket.
    destruct (_ && _);
      [exact (packetEffect_proximity st (decodeProximity (Js.substrFrom 30 packet) None))|].
    destruct (_ && _); [|apply packetEffect_skip].
    unfold Lib.processDigestPacket. rewrite Lib_updateDigest_with.
    apply packetEffect_digest.
  - unfold Part000.processPacket.
    destruct (_ && _);
      [exact (packetEffect_proximity st
                (decodeProximity (Js.substrFrom 30 packet) (Some tstamp)))|].
    destruct (_ && _); [|apply packetEffect_skip].
    unfold Part000.processDigestPacket. rewrite Part000_updateDigest_with.
    apply packetEffect_digest.
Qed.

Lemma raddecEffect_nil (stamp : option Z) (st : DirActDigester) :
  raddecEffect stamp 0 st st.
Proof.
  repeat split; try done. exists [], []. by rewrite !app_nil_r.
Qed.

Lemma raddecEffect_cons (stamp : option Z) (n : nat) (st st1 st2 : DirActDigester) :
  packetEffect stamp st st1 → raddecEffect stamp n st1 st2 →
  raddecEffect stamp (S n) st st2.
Proof.
  intros (Hp1 & Hd1 & Hn1 & Hdom1 & Hc1) (Hp2 & Hd2 & Hn2 & Hdom2 & nP & nD & HP & HD & Hlen & Hall).
  split; [congruence|]. split; [congruence|]. split; [lia|].
  split; [intros id His; by apply Hdom2, Hdom1|].
  destruct Hc1 as [[HP1 HD1] | [(r & HP1 & Hr & HD1) | (c & HD1 & HP1)]].
  - exists nP, nD. rewrite HP, HD, HP1, HD1. repeat split; try done. lia.
  - exists (r :: nP), nD. rewrite HP, HD, HP1, HD1, <- app_assoc.
    repeat split; try done; [simpl; lia | by constructor].
  - exists nP, (c :: nD). rewrite HP, HD, HP1, HD1, <- app_assoc.
    repeat split; try done. simpl; lia.
Qed.

Lemma raddecEffect_foldl {P} (stamp : option Z) (f : DirActDigester → P → DirActDigester)
    (ps : list P) (st : DirActDigester) :
  (∀ st p, packetEffect stamp st (f st p)) →
  raddecEffect stamp (length ps) st (foldl f st ps).
Proof.
  intros Hf. revert st. induction ps as [|p ps IH]; intros st; simpl.
  - apply raddecEffect_nil.
  - apply raddecEffect_cons with (f st p); [apply Hf | apply IH].
Qed.

(** Handling a raddec never changes the handler options, never removes a
    device from the map and only appends to the two call logs, at most one
    call per packet in total.  Without a [packets] property nothing
    happens.  The proximity reports of [lib/diractdigester.js] carry no
    timestamp; those of the timestamp variant all carry the raddec's
    timestamp, or the current time when it is missing or zero. *)
Theorem handleRaddec_effect (st : DirActDigester) (raddec : Raddec) (now : Z) :
  raddecEffect None (packetCount raddec) st (Lib.handleRaddec st raddec) ∧
  raddecEffect (Some (effectiveTimestamp raddec now)) (packetCount raddec) st
    (Part000.handleRaddec st raddec now) ∧
  (packets raddec = None →
   Lib.handleRaddec st raddec = st ∧ Part000.handleRaddec st raddec now = st).
Proof.
  unfold Lib.handleRaddec, Part000.handleRaddec, packetCount.
  fold (effectiveTimestamp raddec now).
  destruct (packets raddec) as [ps|].
  - split; [|split; [|done]].
    + apply raddecEffect_foldl. intros st1 p. apply (processPacket_effect st1 p 0).
    + apply (raddecEffect_foldl _
               (λ st1 packet, Part000.processPacket st1 packet (effectiveTimestamp raddec now))).
      intros st1 p. apply processPacket_effect.
  - split; [apply raddecEffect_nil|]. split; [apply raddecEffect_nil | done].
Qed.

(** A packet too short to hold the four signature bytes at offset 12, that
    is of fewer than 32 hexadecimal characters, is ignored by both files:
    the instance is returned as it is. *)
Theorem short_packet_ignored (st : DirActDigester) (packet : string) (tstamp : Z) :
  String.length packet < 32 →
  Lib.processPacket st packet = st ∧ Part000.processPacket st packet tstamp = st.
Proof.
  intros Hlen.
  assert (∀ sig, String.length sig = 8 →
                 String.eqb (Js.substr 24 8 packet) sig = false) as Hne.
  { intros sig Hsig. apply String.eqb_neq. intros Heq.
    apply (f_equal String.length) in Heq. rewrite substr_length in Heq. lia. }
  unfold Lib.processPacket, Part000.processPacket.
  change (Js.substr DIRACT_PACKET_SIGNATURE_OFFSET
            (String.length DIRACT_PROXIMITY_SIGNATURE) packet)
    with (Js.substr 24 8 packet).
  by rewrite !Hne.
Qed.

Lemma short_packet_ignored_witness :
  Lib.processPacket (newDirActDigester true true) "ff830511"
  = newDirActDigester true true.
Proof.
  apply (short_packet_ignored (newDirActDigester true true) "ff830511" 0).
  simpl. lia.
Defined.

(** ** The store of every reachable instance *)

Lemma StoreInv_new (pa pd : bool) : StoreInv (newDirActDigester pa pd).
Proof. intros id l H. simpl in H. by rewrite lookup_empty in H. Qed.

Lemma StoreInv_step (fresh : Digest) (add : Digest → Digest) (st : DirActDigester)
    (id : string) (ts : Z) :
  instanceId fresh = id →
  isHandled fresh = false →
  numberOfInteractions fresh ≠ ExpDeleted →
  (∀ d, instanceId (add d) = instanceId d) →
  (∀ d, isHandled (add d) = isHandled d) →
  (∀ d, numberOfInteractions d ≠ ExpDeleted → numberOfInteractions (add d) ≠ ExpDeleted) →
  StoreInv st → StoreInv (updateDigestWith fresh add st id ts).
Proof.
  intros Hfid Hfh Hfn Haid Hah Han Hinv.
  destruct (updateDigestWith_step fresh add st id ts)
    as [(l & _ & _ & _ & ->) | (l & d & Hcase & Hdig & Hother & Hemit)]; [done|].
  assert (instanceId d = id ∧ isHandled d = false ∧ numberOfInteractions d ≠ ExpDeleted)
    as (Hd_id & Hd_h & Hd_n).
  { destruct Hcase as [(_ & -> & _) | (Hl & -> & _ & _ & Hh)]; [done|].
    destruct (Hinv id l Hl) as (_ & Hid & Hiff).
    rewrite Haid, Hah. repeat split; try done.
    apply Han. intros Hn. apply Hiff in Hn. congruence. }
  intros id' l'. rewrite Hdig, lookup_insert. case_decide as Hid.
  - subst id'. intros [= <-]. split.
    + destruct Hcase as [(-> & _ & -> & _) | (Hl & _ & -> & _)]; [lia|].
      by destruct (Hinv id l Hl).
    + destruct Hemit as [[_ ->] | [_ ->]]; simpl; [|done].
      split; [done|]. rewrite Hd_h. split; [done | intros Hn; by destruct Hd_n].
  - intros Hl'. destruct (Hinv id' l' Hl') as (Hlt & Hid' & Hiff).
    assert (l' ≠ l) as Hne.
    { intros ->. destruct Hcase as [(-> & _) | (Hl & _)]; [lia|].
      destruct (Hinv id l Hl) as (_ & Hid2 & _). congruence. }
    rewrite Hother by done. split; [|done].
    destruct Hcase as [(_ & _ & -> & _) | (_ & _ & -> & _)]; lia.
Qed.

Lemma StoreInv_processPacket (st : DirActDigester) (packet : string) (tstamp : Z) :
  StoreInv st →
  StoreInv (Lib.processPacket st packet) ∧ StoreInv (Part000.processPacket st packet tstamp).
Proof.
  intros Hinv. split.
  - unfold Lib.processPacket. destruct (_ && _); [done|].
    destruct (_ && _); [|done].
    unfold Lib.processDigestPacket. rewrite Lib_updateDigest_with.
    apply StoreInv_step; try done.
    unfold Lib.createDigest. simpl. by destruct (decodeIsLastPage _).
  - unfold Part000.processPacket. destruct (_ && _); [done|].
    destruct (_ && _); [|done].
    unfold Part000.processDigestPacket. rewrite Part000_updateDigest_with.
    apply StoreInv_step; try done;
      unfold Part000.createDigest, Part000.addDigestPage; simpl;
      by destruct (decodeIsLastPage _).
Qed.

Lemma StoreInv_handleRaddec (st : DirActDigester) (raddec : Raddec) (now : Z) :
  StoreInv st →
  StoreInv (Lib.handleRaddec st raddec) ∧ StoreInv (Part000.handleRaddec st raddec now).
Proof.
  unfold Lib.handleRaddec, Part000.handleRaddec.
  destruct (packets raddec) as [ps|]; [|done].
  generalize (match raddec_timestamp raddec with
              | Some t => if (t =? 0)%Z then now else t
              | None => now
              end). intros t.
  revert st. induction ps as [|p ps IH]; intros st Hinv; [done|].
  simpl. destruct (StoreInv_processPacket st p t Hinv) as [HL HP].
  split; [apply (IH _ HL) | apply (IH _ HP)].
Qed.

(** In every instance reached from a fresh one by handling raddecs, in
    either file, each reference in the map points to an allocated digest
    object whose [instanceId] is the key it is stored under, and that object
    is marked handled exactly when its [numberOfInteractions] property has
    been deleted. *)
Theorem store_invariant (pa pd : bool) (rs : list Raddec) (rts : list (Raddec * Z)) :
  StoreInv (Lib_handleRaddecs (newDirActDigester pa pd) rs) ∧
  StoreInv (Part000_handleRaddecs (newDirActDigester pa pd) rts).
Proof.
  split.
  - unfold Lib_handleRaddecs. generalize (StoreInv_new pa pd).
    generalize (newDirActDigester pa pd).
    induction rs as [|r rs IH]; intros st Hinv; [done|].
    simpl. apply IH. by apply (StoreInv_handleRaddec st r 0).
  - unfold Part000_handleRaddecs. generalize (StoreInv_new pa pd).
    generalize (newDirActDigester pa pd).
    induction rts as [|r rts IH]; intros st Hinv; [done|].
    simpl. apply IH. by apply (StoreInv_handleRaddec st r.1 r.2).
Qed.

(** ** Other devices and handled digests are left alone *)

Lemma updateDigestWith_other_device (fresh : Digest) (add : Digest → Digest)
    (st : DirActDigester) (id : string) (ts : Z) (id' : string) (l' : loc) :
  StoreInv st → digests st !! id' = Some l' → id' ≠ id →
  digests (updateDigestWith fresh add st id ts) !! id' = Some l' ∧
  deref l' (updateDigestWith fresh add st id ts) = deref l' st.
Proof.
  intros Hinv Hl' Hne.
  destruct (updateDigestWith_step fresh add st id ts)
    as [(l & _ & _ & _ & ->) | (l & d & Hcase & Hdig & Hother & _)]; [done|].
  rewrite Hdig, lookup_insert_ne by done. split; [done|].
  apply Hother. intros ->. destruct (Hinv id' l Hl') as (Hlt & Hid & _).
  destruct Hcase as [(-> & _) | (Hl & _)]; [lia|].
  destruct (Hinv id l Hl) as (_ & Hid2 & _). congruence.
Qed.

(** A packet leaves the accumulators of all devices other than the one it
    names (the eight characters at body offset 2) as they are: same
    reference in the map, same object.  This holds in both files, in every
    instance whose store is as in [store_invariant]. *)
Theorem other_devices_untouched (st : DirActDigester) (packet : string) (tstamp : Z)
    (id' : string) (l' : loc) :
  StoreInv st →
  digests st !! id' = Some l' →
  id' ≠ Js.substr 4 8 (Js.substrFrom 30 packet) →
  (digests (Lib.processPacket st packet) !! id' = Some l' ∧
   deref l' (Lib.processPacket st packet) = deref l' st) ∧
  (digests (Part000.processPacket st packet tstamp) !! id' = Some l' ∧
   deref l' (Part000.processPacket st packet tstamp) = deref l' st).
Proof.
  intros Hinv Hl' Hne. split.
  - unfold Lib.processPacket. destruct (_ && _); [done|].
    destruct (_ && _); [|done].
    unfold Lib.processDigestPacket. rewrite Lib_updateDigest_with.
    by apply updateDigestWith_other_device.
  - unfold Part000.processPacket. destruct (_ && _); [done|].
    destruct (_ && _); [|done].
    unfold Part000.processDigestPacket. rewrite Part000_updateDigest_with.
    by apply updateDigestWith_other_device.
Qed.

Lemma other_devices_untouched_witness :
  deref 0 (Lib.processPacket (Lib.processPacket (newDirActDigester true true) packetT1)
             packetOtherDevice)
  = deref 0 (Lib.processPacket (newDirActDigester true true) packetT1).
Proof.
  apply (other_devices_untouched
           (Lib.processPacket (newDirActDigester true true) packetT1)
           packetOtherDevice 0 "01234567" 0).
  - apply (StoreInv_processPacket (newDirActDigester true true) packetT1 0), StoreInv_new.
  - vm_compute. reflexivity.
  - vm_compute. discriminate.
Defined.

Lemma updateDigestWith_frozen (fresh : Digest) (add : Digest → Digest)
    (st : DirActDigester) (id : string) (ts : Z) (l : loc) :
  l < nextLoc st → isHandled (deref l st) = true →
  deref l (updateDigestWith fresh add st id ts) = deref l st.
Proof.
  intros Hlt Hh.
  destruct (updateDigestWith_step fresh add st id ts)
    as [(l0 & _ & _ & _ & ->) | (l0 & d & Hcase & _ & Hother & _)]; [done|].
  apply Hother. intros ->.
  destruct Hcase as [(-> & _) | (_ & _ & _ & _ & Hu)]; [lia | congruence].
Qed.

Lemma processPacket_frozen (st : DirActDigester) (packet : string) (tstamp : Z) (l : loc) :
  l < nextLoc st → isHandled (deref l st) = true →
  deref l (Lib.processPacket st packet) = deref l st ∧
  deref l (Part000.processPacket st packet tstamp) = deref l st.
Proof.
  intros Hlt Hh. split.
  - unfold Lib.processPacket. destruct (_ && _); [done|].
    destruct (_ && _); [|done].
    unfold Lib.processDigestPacket. rewrite Lib_updateDigest_with.
    by apply updateDigestWith_frozen.
  - unfold Part000.processPacket. destruct (_ && _); [done|].
    destruct (_ && _); [|done].
    unfold Part000.processDigestPacket. rewrite Part000_updateDigest_with.
    by apply updateDigestWith_frozen.
Qed.

(** Once a digest object is marked handled, no later raddec changes it, in
    either file: what the handler was given (the stored object itself) stays
    as it was left after the call, whatever packets follow. *)
Theorem handled_digest_frozen (st : DirActDigester) (l : loc) (raddec : Raddec) (now : Z) :
  l < nextLoc st →
  isHandled (deref l st) = true →
  deref l (Lib.handleRaddec st raddec) = deref l st ∧
  deref l (Part000.handleRaddec st raddec now) = deref l st.
Proof.
  unfold Lib.handleRaddec, Part000.handleRaddec.
  destruct (packets raddec) as [ps|]; [|done].
  generalize (match raddec_timestamp raddec with
              | Some t => if (t =? 0)%Z then now else t
              | None => now
              end). intros t Hlt Hh.
  assert (∀ f : DirActDigester → string → DirActDigester,
            (∀ st1 p, nextLoc st1 ≤ nextLoc (f st1 p)) →
            (∀ st1 p, l < nextLoc st1 → isHandled (deref l st1) = true →
                      deref l (f st1 p) = deref l st1) →
            deref l (foldl f st ps) = deref l st) as Hfold.
  { intros f Hmono Hstep. revert st Hlt Hh.
    induction ps as [|p ps IH]; intros st Hlt Hh; [done|].
    simpl. rewrite IH.
    - by apply Hstep.
    - specialize (Hmono st p). lia.
    - by rewrite Hstep. }
  split; apply Hfold.
  - intros st1 p. by destruct (processPacket_effect st1 p 0) as [(_ & _ & ? & _) _].
  - intros st1 p Hlt1 Hh1. by apply (processPacket_frozen st1 p 0).
  - intros st1 p. by destruct (processPacket_effect st1 p t) as [_ (_ & _ & ? & _)].
  - intros st1 p Hlt1 Hh1. by apply (processPacket_frozen st1 p t).
Qed.

Lemma handled_digest_frozen_witness :
  deref 0 (Part000.handleRaddec handledInstance raddecT1T2T1 0) = deref 0 handledInstance.
Proof.
  apply (handled_digest_frozen handledInstance 0 raddecT1T2T1 0).
  - vm_compute. lia.
  - vm_compute. reflexivity.
Defined.

(** ** A digest packet received twice *)

Lemma arraySet_same {A} (i : nat) (v : A) (a : Js.array A) :
  a !! i = Some (Some v) → Js.arraySet i v a = a.
Proof.
  intros H. unfold Js.arraySet. apply lookup_lt_Some in H as Hlt.
  rewrite decide_True by done. by apply list_insert_id.
Qed.

Lemma length_arraySet {A} (j : nat) (v : A) (a : Js.array A) :
  length a ≤ length (Js.arraySet j v a) ∧ j < length (Js.arraySet j v a).
Proof.
  unfold Js.arraySet. destruct (decide (j < length a)).
  - rewrite length_insert. lia.
  - rewrite !length_app, length_replicate. simpl. lia.
Qed.

Lemma lookup_arraySet_eq {A} (j : nat) (v : A) (a : Js.array A) :
  Js.arraySet j v a !! j = Some (Some v).
Proof.
  destruct (populated_arraySet j v a j) as [_ H].
  unfold Js.arraySet in *. destruct (decide (j < length a)).
  - by rewrite list_lookup_insert_eq.
  - rewrite lookup_app_r by lia.
    rewrite lookup_app_r by (rewrite length_replicate; lia).
    rewrite length_replicate. by replace (j - length a - (j - length a)) with 0 by lia.
Qed.

Lemma lookup_arraySet_ne {A} (i j : nat) (v : A) (a : Js.array A) :
  i ≠ j → i < length a → Js.arraySet j v a !! i = a !! i.
Proof.
  intros Hne Hlt. unfold Js.arraySet. destruct (decide (j < length a)).
  - by rewrite list_lookup_insert_ne.
  - by rewrite lookup_app_l.
Qed.

Lemma writePage_lookup_before (offset index : nat) (page : list Entry)
    (a : Js.array Entry) (i : nat) :
  i < offset + index → i < length a →
  writePage offset index page a !! i = a !! i.
Proof.
  revert index a. induction page as [|e page IH]; intros index a Hi Hlen; [done|].
  simpl. destruct (length_arraySet (offset + index) e a) as [Hge _].
  rewrite IH by lia. apply lookup_arraySet_ne; lia.
Qed.

Lemma writePage_written (offset index : nat) (page : list Entry) (a : Js.array Entry)
    (k : nat) (e : Entry) :
  page !! k = Some e →
  writePage offset index page a !! (offset + index + k) = Some (Some e).
Proof.
  revert index a k. induction page as [|e0 page IH]; intros index a k Hk; [done|].
  simpl. destruct k as [|k].
  - injection Hk as ->. replace (offset + index + 0) with (offset + index) by lia.
    destruct (length_arraySet (offset + index) e a) as [_ Hlt].
    rewrite writePage_lookup_before by lia. apply lookup_arraySet_eq.
  - replace (offset + index + S k) with (offset + S index + k) by lia.
    by apply IH.
Qed.

Lemma writePage_id (offset index : nat) (page : list Entry) (a : Js.array Entry) :
  (∀ k e, page !! k = Some e → a !! (offset + index + k) = Some (Some e)) →
  writePage offset index page a = a.
Proof.
  revert index. induction page as [|e0 page IH]; intros index H; [done|].
  simpl. rewrite arraySet_same.
  - apply IH. intros k e Hk.
    replace (offset + S index + k) with (offset + index + S k) by lia. by apply H.
  - replace (offset + index) with (offset + index + 0) by lia. by apply H.
Qed.

(** Writing a page where it already stands changes nothing. *)
Lemma writePage_idempotent (offset index : nat) (page : list Entry) (a : Js.array Entry) :
  writePage offset index page (writePage offset index page a)
  = writePage offset index page a.
Proof. apply writePage_id. intros k e Hk. by apply writePage_written. Qed.

Lemma Part000_addDigestPage_idempotent (d : Digest) (isLast : bool) (pn : nat)
    (page : list Entry) :
  Part000.addDigestPage (Part000.addDigestPage d isLast pn page) isLast pn page
  = Part000.addDigestPage d isLast pn page.
Proof.
  unfold Part000.addDigestPage. destruct d, isLast; unfold setInteractions; simpl;
    by rewrite writePage_idempotent.
Qed.

(** An instance on which a page for [(id, ts)] has no effect. *)
Lemma updateDigestWith_settled (fresh : Digest) (add : Digest → Digest)
    (st : DirActDigester) (id : string) (ts : Z) (l : loc) :
  digests st !! id = Some l →
  digestTimestamp (deref l st) = ts →
  isHandled (deref l st) = true ∨
    (heap st !! l = Some (deref l st) ∧ add (deref l st) = deref l st ∧
     isDigestComplete (deref l st) = false) →
  updateDigestWith fresh add st id ts = st.
Proof.
  intros Hmap Hts Hcase. unfold updateDigestWith. rewrite Hmap, Hts, Z.eqb_refl. simpl.
  destruct (isHandled (deref l st)) eqn:Hh; [done|].
  destruct Hcase as [? | (Hheap & Hadd & Hc)]; [done|].
  assert (mutate l add st = st) as ->.
  { unfold mutate. rewrite Hadd, insert_id by done. by destruct st. }
  by apply emitIfComplete_incomplete.
Qed.

Lemma updateDigestWith_twice (fresh fresh' : Digest) (add : Digest → Digest)
    (st : DirActDigester) (id : string) (ts : Z) :
  digestTimestamp fresh = ts →
  isHandled fresh = false →
  add fresh = fresh →
  (∀ d, add (add d) = add d) →
  (∀ d, digestTimestamp (add d) = digestTimestamp d) →
  updateDigestWith fresh' add (updateDigestWith fresh add st id ts) id ts
  = updateDigestWith fresh add st id ts.
Proof.
  intros Hfts Hfh Hff Haa Hats.
  assert (∀ l s0 d, digests s0 !! id = Some l → heap s0 !! l = Some d →
                    digestTimestamp d = ts → add d = d →
                    updateDigestWith fresh' add (emitIfComplete l s0) id ts
                    = emitIfComplete l s0) as Hsettle.
  { intros l s0 d Hmap Hheap Hts Hadd.
    assert (deref l s0 = d) as Hd by (unfold deref; by rewrite lookup_total_alt, Hheap).
    destruct (isDigestComplete (deref l s0)) eqn:Hc.
    - rewrite emitIfComplete_complete by done. rewrite Hd.
      apply updateDigestWith_settled with l; simpl; [done | |left].
      + unfold deref; simpl. by rewrite lookup_total_insert_eq.
      + unfold deref; simpl. by rewrite lookup_total_insert_eq.
    - rewrite emitIfComplete_incomplete by done.
      apply updateDigestWith_settled with l; [done | by rewrite Hd | right].
      rewrite Hd in *. done. }
  assert (updateDigestWith fresh' add
            (emitIfComplete (nextLoc st) (digestsSet id (nextLoc st) (alloc fresh st).2)) id ts
          = emitIfComplete (nextLoc st) (digestsSet id (nextLoc st) (alloc fresh st).2))
    as Hnew.
  { apply Hsettle with fresh; simpl; try done; apply lookup_insert_eq. }
  unfold updateDigestWith at 2 3.
  destruct (digests st !! id) as [l|] eqn:Hmap; [|exact Hnew].
  destruct (digestTimestamp (deref l st) =? ts)%Z eqn:Hts; simpl; [|exact Hnew].
  apply Z.eqb_eq in Hts.
  destruct (isHandled (deref l st)) eqn:Hh.
  - apply updateDigestWith_settled with l; [done | done | by left].
  - apply Hsettle with (add (deref l st)); simpl; [done | apply lookup_insert_eq | |done].
    by rewrite Hats.
Qed.

Lemma processDigestPacket_twice (st : DirActDigester) (packet : string) (t t' : Z) :
  Lib.processDigestPacket (Lib.processDigestPacket st packet) packet
    = Lib.processDigestPacket st packet ∧
  Part000.processDigestPacket (Part000.processDigestPacket st packet t) packet t'
    = Part000.processDigestPacket st packet t.
Proof.
  unfold Lib.processDigestPacket, Part000.processDigestPacket.
  rewrite !Lib_updateDigest_with, !Part000_updateDigest_with. split.
  - apply updateDigestWith_twice; try done.
    + unfold Lib.createDigest, Lib.addDigestPage, setInteractions. simpl.
      by rewrite writePage_idempotent.
    + intros d. unfold Lib.addDigestPage, setInteractions. simpl.
      by rewrite writePage_idempotent.
  - apply updateDigestWith_twice.
    + unfold Part000.createDigest, Part000.addDigestPage.
      by destruct (page_isLastPage _).
    + unfold Part000.createDigest, Part000.addDigestPage.
      by destruct (page_isLastPage _).
    + unfold Part000.createDigest. apply Part000_addDigestPage_idempotent.
    + intros d. apply Part000_addDigestPage_idempotent.
    + intros d. unfold Part000.addDigestPage. by destruct (page_isLastPage _).
Qed.

(** A packet that is not a proximity packet, received twice in a row,
    leaves the instance the second time exactly as the first delivery left
    it, in both files and from any instance: a duplicated digest page
    neither changes an accumulator nor calls the handler again (for the
    timestamp variant also when the two deliveries carry different raddec
    timestamps). *)
Theorem duplicate_packet_absorbed (st : DirActDigester) (packet : string) (t t' : Z) :
  Js.substr 24 8 packet ≠ DIRACT_PROXIMITY_SIGNATURE →
  Lib.processPacket (Lib.processPacket st packet) packet = Lib.processPacket st packet ∧
  Part000.processPacket (Part000.processPacket st packet t) packet t'
    = Part000.processPacket st packet t.
Proof.
  intros Hsig. apply String.eqb_neq in Hsig.
  destruct (processDigestPacket_twice st packet t t') as [HL HP].
  assert (∀ s, Lib.processPacket s packet = s ∨ handleDirActDigest s = true ∧
               Lib.processPacket s packet = Lib.processDigestPacket s packet) as HcL.
  { intros s. unfold Lib.processPacket.
    change (Js.substr DIRACT_PACKET_SIGNATURE_OFFSET
              (String.length DIRACT_PROXIMITY_SIGNATURE) packet)
      with (Js.substr 24 8 packet).
    rewrite Hsig.
    destruct (String.eqb (Js.substr 24 8 packet) DIRACT_DIGEST_SIGNATURE);
      destruct (handleDirActDigest s); simpl; try (by left). by right. }
  assert (∀ s, (∀ u, Part000.processPacket s packet u = s) ∨ handleDirActDigest s = true ∧
               ∀ u, Part000.processPacket s packet u = Part000.processDigestPacket s packet u)
    as HcP.
  { intros s. unfold Part000.processPacket.
    change (Js.substr DIRACT_PACKET_SIGNATURE_OFFSET
              (String.length DIRACT_PROXIMITY_SIGNATURE) packet)
      with (Js.substr 24 8 packet).
    rewrite Hsig.
    destruct (String.eqb (Js.substr 24 8 packet) DIRACT_DIGEST_SIGNATURE);
      destruct (handleDirActDigest s); simpl; try (by left). by right. }
  split.
  - destruct (HcL st) as [H | [Hh H]]; [rewrite !H; reflexivity|].
    rewrite H.
    destruct (HcL (Lib.processDigestPacket st packet)) as [H1 | [_ H1]]; [exact H1|].
    rewrite H1. exact HL.
  - destruct (HcP st) as [H | [Hh H]]; [rewrite !H; reflexivity|].
    rewrite H.
    destruct (HcP (Part000.processDigestPacket st packet t)) as [H1 | [_ H1]];
      [apply H1|].
    rewrite H1. exact HP.
Qed.

Lemma duplicate_packet_absorbed_witness :
  Lib.processPacket (Lib.processPacket (newDirActDigester true true) packetT2) packetT2
  = Lib.processPacket (newDirActDigester true true) packetT2.
Proof.
  apply (duplicate_packet_absorbed (newDirActDigester true true) packetT2 0 0).
  vm_compute. discriminate.
Defined.

(** ** [lib/diractdigester.js]: an epoch that does not start with its last page *)

Lemma Lib_pending_step (st : DirActDigester) (id : string) (l : loc) (ts : Z)
    (isLast : bool) (pn : nat) (page : list Entry) :
  digests st !! id = Some l →
  digestTimestamp (deref l st) = ts →
  numberOfInteractions (deref l st) = ExpNull →
  digestCalls (Lib.updateDigest st id ts isLast pn page) = digestCalls st ∧
  digests (Lib.updateDigest st id ts isLast pn page) !! id = Some l ∧
  digestTimestamp (deref l (Lib.updateDigest st id ts isLast pn page)) = ts ∧
  numberOfInteractions (deref l (Lib.updateDigest st id ts isLast pn page)) = ExpNull.
Proof.
  intros Hmap Hts Hn. unfold Lib.updateDigest. rewrite Hmap, Hts, Z.eqb_refl. simpl.
  destruct (isHandled (deref l st)); [done|].
  rewrite emitIfComplete_incomplete.
  - rewrite deref_mutate_eq. simpl. done.
  - rewrite deref_mutate_eq. unfold isDigestComplete. simpl. by rewrite Hn.
Qed.

(** In [lib/diractdigester.js], when the first page of a new epoch of a
    device is not marked last, no page of that device and epoch that
    follows, the last page included, makes the handler be called: the
    expected count is only ever recorded by [createDigest]. *)
Theorem Lib_epoch_never_completes (st : DirActDigester) (id : string) (ts : Z) (pn : nat)
    (page : list Entry) (ps : list DigestPage) :
  handleDirActDigest st = true →
  (∀ l, digests st !! id = Some l → digestTimestamp (deref l st) ≠ ts) →
  Forall (λ p, page_instanceId p = id ∧ page_digestTimestamp p = ts) ps →
  digestCalls (Lib.run st (pageAt id ts false pn page :: ps)) = digestCalls st.
Proof.
  intros _ Hnew Hall. unfold Lib.run. simpl foldl.
  set (st1 := Lib.feed st (pageAt id ts false pn page)).
  assert (digestCalls st1 = digestCalls st ∧
          ∃ l, digests st1 !! id = Some l ∧ digestTimestamp (deref l st1) = ts ∧
               numberOfInteractions (deref l st1) = ExpNull) as [Hc Hst1].
  { unfold st1, Lib.feed. simpl. rewrite Lib_updateDigest_with.
    assert (updateDigestWith (Lib.createDigest id ts false pn page)
              (λ d, setInteractions (Lib.addDigestPage (interactions d) pn page) d) st id ts
            = digestsSet id (nextLoc st)
                (alloc (Lib.createDigest id ts false pn page) st).2) as ->.
    { unfold updateDigestWith. destruct (digests st !! id) as [l|] eqn:Hmap.
      - specialize (Hnew l eq_refl). apply Z.eqb_neq in Hnew. rewrite Hnew. simpl.
        apply emitIfComplete_incomplete. unfold deref; simpl.
        by rewrite lookup_total_insert_eq.
      - apply emitIfComplete_incomplete. unfold deref; simpl.
        by rewrite lookup_total_insert_eq. }
    split; [done|]. exists (nextLoc st). simpl. rewrite lookup_insert_eq.
    unfold deref; simpl. by rewrite lookup_total_insert_eq. }
  rewrite <- Hc. clear Hc Hnew. revert Hst1. generalize st1. clear st1.
  induction Hall as [|p ps [Hid Hts] _ IH]; intros st1 (l & Hmap & Ht & Hn); [done|].
  simpl. unfold Lib.feed at 2. rewrite Hid, Hts.
  destruct (Lib_pending_step st1 id l ts (page_isLastPage p) (page_pageNumber p)
              (page_entries p) Hmap Ht Hn) as (Hc & Hmap' & Ht' & Hn').
  rewrite IH; [done|]. by exists l.
Qed.

Lemma Lib_epoch_never_completes_witness :
  let e := {| entry_instanceId := "0aaaaaaa"; entry_count := Some 1%Z |} in
  digestCalls
    (Lib.run (newDirActDigester true true)
       [pageAt "01234567" 3600 false 0 [e; e; e]; pageAt "01234567" 3600 true 1 [e; e]])
  = digestCalls (newDirActDigester true true).
Proof.
  intros e.
  apply (Lib_epoch_never_completes (newDirActDigester true true) "01234567" 3600 0
           [e; e; e] [pageAt "01234567" 3600 true 1 [e; e]]).
  - reflexivity.
  - intros l H. simpl in H. by rewrite lookup_empty in H.
  - by repeat constructor.
Defined.

(** ** A well-formed pagination in any order *)

Lemma length_arraySet_eq {A} (j : nat) (v : A) (a : Js.array A) :
  length (Js.arraySet j v a) = Nat.max (length a) (S j).
Proof.
  unfold Js.arraySet. destruct (decide (j < length a)).
  - rewrite length_insert. lia.
  - rewrite !length_app, length_replicate. simpl. lia.
Qed.

Lemma writePage_length (offset index : nat) (page : list Entry) (a : Js.array Entry) :
  length a ≤ length (writePage offset index page a) ∧
  length (writePage offset index page a)
    ≤ Nat.max (length a) (offset + index + length page).
Proof.
  revert index a. induction page as [|e page IH]; intros index a; simpl; [lia|].
  destruct (IH (S index) (Js.arraySet (offset + index) e a)) as [H1 H2].
  rewrite length_arraySet_eq in *. lia.
Qed.

Lemma writePage_lookup_after (offset index : nat) (page : list Entry)
    (a : Js.array Entry) (i : nat) :
  offset + index + length page ≤ i → i < length a →
  writePage offset index page a !! i = a !! i.
Proof.
  revert index a. induction page as [|e page IH]; intros index a Hi Hlen; [done|].
  simpl in *. destruct (length_arraySet (offset + index) e a) as [Hge _].
  rewrite IH by lia. apply lookup_arraySet_ne; lia.
Qed.

Lemma addPages_cons (d : Digest) (p : DigestPage) (ps : list DigestPage) :
  Part000.addPages d (p :: ps)
  = Part000.addPages
      (Part000.addDigestPage d (page_isLastPage p) (page_pageNumber p) (page_entries p)) ps.
Proof. reflexivity. Qed.

Lemma addPages_snoc (d : Digest) (p : DigestPage) (ps : list DigestPage) :
  Part000.addPages d (ps ++ [p])
  = Part000.addDigestPage (Part000.addPages d ps)
      (page_isLastPage p) (page_pageNumber p) (page_entries p).
Proof. unfold Part000.addPages. by rewrite foldl_snoc. Qed.

Lemma addDigestPage_fields (d : Digest) (isLast : bool) (pn : nat) (page : list Entry) :
  instanceId (Part000.addDigestPage d isLast pn page) = instanceId d ∧
  digestTimestamp (Part000.addDigestPage d isLast pn page) = digestTimestamp d ∧
  timestamp (Part000.addDigestPage d isLast pn page) = timestamp d ∧
  isHandled (Part000.addDigestPage d isLast pn page) = isHandled d.
Proof. by destruct isLast. Qed.

Lemma addPages_fields (d : Digest) (ps : list DigestPage) :
  instanceId (Part000.addPages d ps) = instanceId d ∧
  digestTimestamp (Part000.addPages d ps) = digestTimestamp d ∧
  timestamp (Part000.addPages d ps) = timestamp d ∧
  isHandled (Part000.addPages d ps) = isHandled d.
Proof.
  revert d. induction ps as [|p ps IH]; intros d; [done|].
  rewrite addPages_cons.
  destruct (IH (Part000.addDigestPage d (page_isLastPage p) (page_pageNumber p)
                  (page_entries p))) as (-> & -> & -> & ->).
  apply addDigestPage_fields.
Qed.

(** An index no page of [ps] covers keeps what it holds. *)
Lemma addPages_lookup_untouched (d : Digest) (ps : list DigestPage) (i : nat) :
  i < length (interactions d) →
  (∀ q, q ∈ ps → i < page_pageNumber q * 3 ∨
                 page_pageNumber q * 3 + length (page_entries q) ≤ i) →
  interactions (Part000.addPages d ps) !! i = interactions d !! i.
Proof.
  revert d. induction ps as [|p ps IH]; intros d Hlen Hout; [done|].
  rewrite addPages_cons, IH.
  - rewrite interactions_addDigestPage.
    destruct (Hout p) as [Hb | Ha]; [by left | |].
    + apply writePage_lookup_before; lia.
    + apply writePage_lookup_after; lia.
  - rewrite interactions_addDigestPage.
    destruct (writePage_length (page_pageNumber p * 3) 0 (page_entries p) (interactions d)).
    lia.
  - intros q Hq. apply Hout. by right.
Qed.

Lemma addPages_length (d : Digest) (ps : list DigestPage) (n : nat) :
  length (interactions d) ≤ n →
  (∀ q, q ∈ ps → page_pageNumber q * 3 + length (page_entries q) ≤ n) →
  length (interactions (Part000.addPages d ps)) ≤ n.
Proof.
  revert d. induction ps as [|p ps IH]; intros d Hlen Hend; [done|].
  rewrite addPages_cons. apply IH.
  - rewrite interactions_addDigestPage.
    destruct (writePage_length (page_pageNumber p * 3) 0 (page_entries p) (interactions d))
      as [_ H].
    specialize (Hend p (list_elem_of_here _ _)). lia.
  - intros q Hq. apply Hend. by right.
Qed.

Lemma concat3_length (chunks : list (list Entry)) :
  Forall (λ es, length es = 3) chunks → length (concat chunks) = length chunks * 3.
Proof.
  induction 1 as [|c cs Hc _ IH]; [done|]. simpl. rewrite length_app, IH, Hc. lia.
Qed.

Lemma concat3_lookup (chunks : list (list Entry)) (k j : nat) (es : list Entry) (e : Entry) :
  Forall (λ es, length es = 3) chunks →
  chunks !! k = Some es → es !! j = Some e →
  concat chunks !! (k * 3 + j) = Some e.
Proof.
  intros Hall. revert k. induction Hall as [|c cs Hc _ IH]; intros k Hk Hj; [done|].
  simpl. destruct k as [|k].
  - injection Hk as ->. simpl. by apply lookup_app_l_Some.
  - simpl in Hk. rewrite lookup_app_r by lia.
    replace (S k * 3 + j - length c) with (k * 3 + j) by lia. by apply IH.
Qed.

Lemma Digest_eq (d d' : Digest) :
  instanceId d = instanceId d' → digestTimestamp d = digestTimestamp d' →
  numberOfInteractions d = numberOfInteractions d' → interactions d = interactions d' →
  timestamp d = timestamp d' → isHandled d = isHandled d' → d = d'.
Proof. destruct d, d'; simpl; by intros -> -> -> -> -> ->. Qed.

(** The pages of one device and epoch given to a fresh instance, as long as
    no proper prefix of them is complete: one accumulator, holding all the
    pages, followed by the completeness test. *)
Lemma run_single_device (pa : bool) (id : string) (ts : Z) (p0 : DigestPage) (t0 : Z)
    (pts : list (DigestPage * Z)) :
  (∀ p, p ∈ p0 :: map fst pts → page_instanceId p = id ∧ page_digestTimestamp p = ts) →
  (∀ j, 0 < j < length (p0 :: map fst pts) →
        isDigestComplete (Part000.addPages (emptyDigest id ts t0) (take j (p0 :: map fst pts)))
        = false) →
  Part000.run (newDirActDigester pa true) ((p0, t0) :: pts)
  = emitIfComplete 0
      (singleDevice pa id (Part000.addPages (emptyDigest id ts t0) (p0 :: map fst pts))).
Proof.
  induction pts as [|[q tq] pts IH] using rev_ind; intros Hsame Hprefix.
  - destruct (Hsame p0 (list_elem_of_here _ _)) as [Hid Hts].
    unfold Part000.run, Part000.feed. simpl. rewrite Part000_updateDigest_with.
    unfold updateDigestWith. simpl. rewrite lookup_empty, Hid, Hts. reflexivity.
  - destruct (Hsame q) as [Hid Hts].
    { rewrite map_app. simpl. apply elem_of_cons. right. apply elem_of_app. right. by left. }
    rewrite map_app in *. simpl map in *.
    change (p0 :: map fst pts ++ [q]) with ((p0 :: map fst pts) ++ [q]) in *.
    change ((p0, t0) :: pts ++ [(q, tq)]) with (((p0, t0) :: pts) ++ [(q, tq)]).
    unfold Part000.run. rewrite foldl_snoc. fold (Part000.run (newDirActDigester pa true) ((p0, t0) :: pts)).
    rewrite IH.
    + specialize (Hprefix (length (p0 :: map fst pts))).
      rewrite take_app_length, length_app in Hprefix. simpl length in Hprefix.
      rewrite addPages_snoc.
      destruct (addPages_fields (emptyDigest id ts t0) (p0 :: map fst pts))
        as (_ & Hacc_ts & _ & Hacc_h).
      revert Hprefix Hacc_ts Hacc_h.
      generalize (Part000.addPages (emptyDigest id ts t0) (p0 :: map fst pts)).
      intros acc Hprefix Hacc_ts Hacc_h. simpl in Hacc_ts, Hacc_h.
      assert (deref 0 (singleDevice pa id acc) = acc) as Hd
        by (unfold deref, singleDevice; simpl; by rewrite lookup_total_insert_eq).
      rewrite emitIfComplete_incomplete by (rewrite Hd; apply Hprefix; lia).
      unfold Part000.feed. simpl fst. simpl snd. rewrite Hid, Hts.
      rewrite Part000_updateDigest_with. unfold updateDigestWith.
      assert (digests (singleDevice pa id acc) !! id = (Some 0 : option loc)) as ->
        by (unfold singleDevice; simpl; apply lookup_insert_eq).
      rewrite Hd, Hacc_ts, Z.eqb_refl, Hacc_h. simpl negb. cbv iota.
      f_equal; unfold mutate; rewrite Hd; unfold singleDevice; simpl;
        by rewrite insert_insert_eq.
    + intros p Hp. apply Hsame. apply elem_of_app. by left.
    + intros j Hj. specialize (Hprefix j). rewrite take_app_le in Hprefix by (simpl in *; lia).
      apply Hprefix. rewrite length_app. simpl in *. lia.
Qed.

Section Pagination.
Variables (id : string) (ts : Z) (chunks : list (list Entry)) (lastEntries : list Entry).
Hypothesis Hchunks : Forall (λ es, length es = 3) chunks.

Let pages := paginate id ts chunks lastEntries.
Let total := length chunks * 3 + length lastEntries.
Let lastPage := pageAt id ts true (length chunks) lastEntries.
Let entries := concat chunks ++ lastEntries.

Lemma elem_of_pages (p : DigestPage) :
  p ∈ pages
  ↔ (∃ k es, chunks !! k = Some es ∧ length es = 3 ∧ k < length chunks ∧
             p = pageAt id ts false k es)
    ∨ p = lastPage.
Proof.
  unfold pages, paginate. rewrite elem_of_app, elem_of_lookup_imap, list_elem_of_singleton.
  split; (intros [(k & es & H1 & H2) | ->]; [left | by right]).
  - exists k, es. repeat split; try done.
    + by apply (Forall_lookup_1 _ _ _ _ Hchunks H2).
    + by apply lookup_lt_Some in H2.
  - destruct H2 as (_ & _ & ->). by exists k, es.
Qed.

Lemma pages_same_device (p : DigestPage) :
  p ∈ pages → page_instanceId p = id ∧ page_digestTimestamp p = ts.
Proof. by intros [(k & es & _ & _ & _ & ->) | ->]%elem_of_pages. Qed.

Lemma pages_last (p : DigestPage) :
  p ∈ pages → page_isLastPage p = true → p = lastPage.
Proof. by intros [(k & es & _ & _ & _ & ->) | ->]%elem_of_pages. Qed.

Lemma pages_end (p : DigestPage) :
  p ∈ pages → page_pageNumber p * 3 + length (page_entries p) ≤ total.
Proof.
  intros [(k & es & _ & Hlen & Hk & ->) | ->]%elem_of_pages; unfold total; simpl; lia.
Qed.

Lemma pages_disjoint (p q : DigestPage) (j : nat) :
  p ∈ pages → q ∈ pages → p ≠ q → j < length (page_entries p) →
  page_pageNumber p * 3 + j < page_pageNumber q * 3 ∨
  page_pageNumber q * 3 + length (page_entries q) ≤ page_pageNumber p * 3 + j.
Proof.
  intros [(k & es & Hk & Hlen & Hlt & ->) | ->]%elem_of_pages
         [(k' & es' & Hk' & Hlen' & Hlt' & ->) | ->]%elem_of_pages Hne Hj; simpl in *.
  - assert (k ≠ k') by (intros ->; rewrite Hk in Hk'; injection Hk' as ->; done). lia.
  - lia.
  - lia.
  - done.
Qed.

Lemma pages_NoDup : NoDup pages.
Proof.
  apply (NoDup_fmap_1 page_pageNumber).
  assert (page_pageNumber <$> pages = seq 0 (S (length chunks))) as ->;
    [|apply NoDup_seq].
  apply list_eq. intros i. unfold pages, paginate.
  rewrite list_lookup_fmap.
  destruct (decide (i < length chunks)) as [Hi|Hi].
  - rewrite lookup_app_l by by rewrite length_imap.
    rewrite list_lookup_imap, lookup_seq_lt by lia.
    destruct (lookup_lt_is_Some_2 chunks i Hi) as [es ->]. done.
  - rewrite lookup_app_r by (rewrite length_imap; lia). rewrite length_imap.
    destruct (decide (i = length chunks)) as [->|Hne].
    + rewrite Nat.sub_diag, lookup_seq_lt by lia. done.
    + rewrite lookup_ge_None_2 by (simpl; lia).
      symmetry. apply lookup_ge_None_2. rewrite length_seq. lia.
Qed.

Lemma entries_of_page (p : DigestPage) (j : nat) (e : Entry) :
  p ∈ pages → page_entries p !! j = Some e →
  entries !! (page_pageNumber p * 3 + j) = Some e.
Proof.
  unfold entries.
  intros [(k & es & Hk & Hlen & Hlt & ->) | ->]%elem_of_pages Hj; simpl in *.
  - apply lookup_app_l_Some. by apply concat3_lookup with es.
  - rewrite lookup_app_r by (rewrite concat3_length by done; lia).
    rewrite concat3_length by done.
    by replace (length chunks * 3 + j - length chunks * 3) with j by lia.
Qed.

Lemma length_entries : length entries = total.
Proof. unfold entries, total. by rewrite length_app, concat3_length. Qed.

(** Every index below [total] belongs to one page. *)
Lemma index_page (i : nat) :
  i < total →
  ∃ p j e, p ∈ pages ∧ page_entries p !! j = Some e ∧ i = page_pageNumber p * 3 + j.
Proof.
  intros Hi. destruct (decide (i < length chunks * 3)) as [Hlt|Hge].
  - assert (i / 3 < length chunks) as Hk by (apply Nat.Div0.div_lt_upper_bound; lia).
    destruct (lookup_lt_is_Some_2 chunks (i / 3) Hk) as [es Hes].
    pose proof (Forall_lookup_1 _ _ _ _ Hchunks Hes) as Hlen. simpl in Hlen.
    pose proof (Nat.mod_upper_bound i 3) as Hmod.
    destruct (lookup_lt_is_Some_2 es (i mod 3)) as [e He]; [lia|].
    exists (pageAt id ts false (i / 3) es), (i mod 3), e. split; [|split; [done|]].
    + apply elem_of_pages. left. by exists (i / 3), es.
    + change (i = i / 3 * 3 + i mod 3). pose proof (Nat.div_mod_eq i 3). lia.
  - destruct (lookup_lt_is_Some_2 lastEntries (i - length chunks * 3)) as [e He];
      [unfold total in Hi; lia|].
    exists lastPage, (i - length chunks * 3), e. split; [|split; [done|]].
    + apply elem_of_pages. by right.
    + simpl. lia.
Qed.

(** What a page wrote stays, whatever other pages of the pagination come
    before or after it. *)
Lemma addPages_content (ps : list DigestPage) (d : Digest) (p : DigestPage) (j : nat)
    (e : Entry) :
  (∀ q, q ∈ ps → q ∈ pages) → p ∈ ps → page_entries p !! j = Some e →
  interactions (Part000.addPages d ps) !! (page_pageNumber p * 3 + j) = Some (Some e).
Proof.
  revert d. induction ps as [|q ps IH]; intros d Hsub Hp Hj; [by apply elem_of_nil in Hp|].
  rewrite addPages_cons.
  destruct (decide (p ∈ ps)) as [Hin|Hnotin].
  - apply IH; [|done|done]. intros q' Hq'. apply Hsub. by right.
  - apply elem_of_cons in Hp as [<- | Hp]; [|done].
    assert (interactions (Part000.addDigestPage d (page_isLastPage p) (page_pageNumber p)
                            (page_entries p)) !! (page_pageNumber p * 3 + j)
            = Some (Some e)) as Hw.
    { rewrite interactions_addDigestPage.
      replace (page_pageNumber p * 3 + j) with (page_pageNumber p * 3 + 0 + j) by lia.
      by apply writePage_written. }
    rewrite addPages_lookup_untouched; [done | by apply lookup_lt_Some in Hw |].
    intros q' Hq'. apply pages_disjoint.
    + apply Hsub. by left.
    + apply Hsub. by right.
    + intros ->. done.
    + by apply lookup_lt_Some in Hj.
Qed.

Lemma addPages_all (ps : list DigestPage) (t0 : Z) :
  ps ≡ₚ pages →
  interactions (Part000.addPages (emptyDigest id ts t0) ps) = map Some entries.
Proof.
  intros Hperm. apply list_eq. intros i.
  destruct (decide (i < total)) as [Hi|Hi].
  - destruct (index_page i Hi) as (p & j & e & Hp & Hj & ->).
    rewrite (addPages_content ps _ p j e); [| |by rewrite Hperm|done].
    + rewrite list_lookup_fmap, (entries_of_page p j e) by done. done.
    + intros q Hq. by rewrite <- Hperm.
  - rewrite !lookup_ge_None_2; [done | |].
    + rewrite length_map, length_entries. lia.
    + assert (length (interactions (Part000.addPages (emptyDigest id ts t0) ps)) ≤ total);
        [|lia].
      apply addPages_length; [simpl; lia|].
      intros q Hq. apply pages_end. by rewrite <- Hperm.
Qed.

Lemma addPages_all_expected (ps : list DigestPage) (t0 : Z) :
  (∀ q, q ∈ ps → q ∈ pages) → lastPage ∈ ps →
  numberOfInteractions (Part000.addPages (emptyDigest id ts t0) ps) = ExpNumber total.
Proof.
  intros Hsub Hlast.
  destruct (addPages_some_last (emptyDigest id ts t0) ps) as (p & Hp & Hl & ->).
  { apply Exists_exists. by exists lastPage. }
  by rewrite (pages_last p (Hsub p Hp) Hl).
Qed.

Lemma complete_with_all_pages (ps : list DigestPage) (t0 : Z) :
  ps ≡ₚ pages → isDigestComplete (Part000.addPages (emptyDigest id ts t0) ps) = true.
Proof.
  intros Hperm. unfold isDigestComplete.
  rewrite addPages_all_expected.
  - rewrite addPages_all by done. rewrite forEachCount_map_Some, length_entries.
    by apply bool_decide_eq_true_2.
  - intros q Hq. by rewrite <- Hperm.
  - rewrite Hperm. apply elem_of_pages. by right.
Qed.

Lemma incomplete_with_page_missing (ps : list DigestPage) (q : DigestPage) (t0 : Z) :
  (∀ p, p ∈ ps → p ∈ pages) → q ∈ pages → q ∉ ps →
  isDigestComplete (Part000.addPages (emptyDigest id ts t0) ps) = false.
Proof.
  intros Hsub Hq Hmiss. unfold isDigestComplete.
  destruct (decide (lastPage ∈ ps)) as [Hlast|Hnolast].
  - rewrite addPages_all_expected by done.
    apply bool_decide_eq_false_2. intros Hcount.
    rewrite (forEachCount_populatedFrom 0) in Hcount.
    fold (populatedIndices (interactions (Part000.addPages (emptyDigest id ts t0) ps)))
      in Hcount.
    set (a := interactions (Part000.addPages (emptyDigest id ts t0) ps)) in *.
    assert (∀ i, populated a i →
                 ∃ p, p ∈ ps ∧ page_pageNumber p * 3 ≤ i
                                < page_pageNumber p * 3 + length (page_entries p)) as Hpop.
    { intros i Hi. apply populated_addPages in Hi as [[e He] | Hi]; [done | done]. }
    assert (populatedIndices a ⊆+ seq 0 total) as Hsubm.
    { apply NoDup_submseteq; [apply NoDup_populatedFrom|].
      intros i Hi%elem_of_populatedIndices. destruct (Hpop i Hi) as (p & Hp & Hr).
      apply elem_of_seq. pose proof (pages_end p (Hsub p Hp)). lia. }
    apply submseteq_length_Permutation in Hsubm; [|rewrite length_seq; lia].
    apply elem_of_pages in Hq as Hq'.
    destruct Hq' as [(k & es & Hk & Hlen & Hlt & ->) | ->]; [|done].
    assert (k * 3 ∈ populatedIndices a) as Hin.
    { rewrite Hsubm. apply elem_of_seq. unfold total. lia. }
    apply elem_of_populatedIndices in Hin. destruct (Hpop _ Hin) as (p & Hp & Hr).
    assert (pageAt id ts false k es ≠ p) as Hne by (intros <-; done).
    assert (0 < length (page_entries (pageAt id ts false k es))) as Hpos
      by (simpl; lia).
    pose proof (pages_disjoint _ p 0 Hq (Hsub p Hp) Hne Hpos) as Hdis.
    simpl in Hdis. lia.
  - rewrite addPages_no_last; [done|].
    apply Forall_forall. intros p Hp. destruct (page_isLastPage p) eqn:E; [|done].
    exfalso. apply Hnolast. by rewrite <- (pages_last p (Hsub p Hp) E).
Qed.

Lemma pagination_run (pa : bool) (p0 : DigestPage) (t0 : Z) (pts : list (DigestPage * Z)) :
  p0 :: map fst pts ≡ₚ pages →
  digestCalls (Part000.run (newDirActDigester pa true) ((p0, t0) :: pts))
  = [(0, completedDigest id ts entries t0)].
Proof.
  intros Hperm.
  assert (NoDup (p0 :: map fst pts)) as Hnd by (rewrite Hperm; apply pages_NoDup).
  rewrite (run_single_device pa id ts).
  - pose proof (addPages_all _ t0 Hperm) as Hall.
    pose proof (complete_with_all_pages _ t0 Hperm) as Hc.
    destruct (addPages_fields (emptyDigest id ts t0) (p0 :: map fst pts))
      as (Hi & Ht & Hs & Hh).
    revert Hall Hc Hi Ht Hs Hh.
    generalize (Part000.addPages (emptyDigest id ts t0) (p0 :: map fst pts)).
    intros acc Hall Hc Hi Ht Hs Hh.
    assert (deref 0 (singleDevice pa id acc) = acc) as Hd
      by (unfold deref, singleDevice; simpl; apply lookup_total_insert_eq).
    rewrite emitIfComplete_complete by (by rewrite Hd).
    rewrite Hd. cbn [digestCalls singleDevice app]. f_equal. f_equal.
    apply Digest_eq; [exact Hi | exact Ht | reflexivity | exact Hall | exact Hs | exact Hh].
  - intros p Hp. apply pages_same_device. by rewrite <- Hperm.
  - intros j Hj.
    destruct (lookup_lt_is_Some_2 (p0 :: map fst pts) j) as [q Hq]; [lia|].
    apply incomplete_with_page_missing with q.
    + intros p (i & Hi & _)%elem_of_take. rewrite <- Hperm.
      by apply list_elem_of_lookup_2 in Hi.
    + rewrite <- Hperm. by apply list_elem_of_lookup_2 in Hq.
    + intros (i & Hi & Hlt)%elem_of_take.
      pose proof (proj1 (NoDup_alt _) Hnd i j q Hi Hq). lia.
Qed.

End Pagination.

(** Timestamp variant, [updateDigest] with [addDigestPage] and
    [isDigestComplete]: the pages of a well-formed digest (every page but the
    last carries three entries, the page after them is marked last) delivered
    to a fresh instance in any order, each page once, call the digest handler
    exactly once, when the last of them arrives.  The handler gets every
    entry at its place, no [numberOfInteractions] property, and the raddec
    timestamp of the page that arrived first. *)
Theorem pagination_any_order (pa : bool) (id : string) (ts : Z)
    (chunks : list (list Entry)) (lastEntries : list Entry)
    (p0 : DigestPage) (t0 : Z) (pts : list (DigestPage * Z)) :
  Forall (λ es, length es = 3) chunks →
  p0 :: map fst pts ≡ₚ paginate id ts chunks lastEntries →
  digestCalls (Part000.run (newDirActDigester pa true) ((p0, t0) :: pts))
  = [(0, completedDigest id ts (concat chunks ++ lastEntries) t0)].
Proof.
  intros Hchunks Hperm. by apply pagination_run.
Qed.

Lemma pagination_any_order_witness :
  digestCalls
    (Part000.run (newDirActDigester false true)
       [(pageAt "0a0b0c0d" 7 true 1
           [{| entry_instanceId := "00000004"; entry_count := Some 4%Z |}], 1000%Z);
        (pageAt "0a0b0c0d" 7 false 0
           [{| entry_instanceId := "00000001"; entry_count := Some 1%Z |};
            {| entry_instanceId := "00000002"; entry_count := Some 2%Z |};
            {| entry_instanceId := "00000003"; entry_count := Some 3%Z |}], 2000%Z)])
  = [(0, completedDigest "0a0b0c0d" 7
           [{| entry_instanceId := "00000001"; entry_count := Some 1%Z |};
            {| entry_instanceId := "00000002"; entry_count := Some 2%Z |};
            {| entry_instanceId := "00000003"; entry_count := Some 3%Z |};
            {| entry_instanceId := "00000004"; entry_count := Some 4%Z |}] 1000)].
Proof.
  apply (pagination_any_order false "0a0b0c0d" 7
           [[{| entry_instanceId := "00000001"; entry_count := Some 1%Z |};
             {| entry_instanceId := "00000002"; entry_count := Some 2%Z |};
             {| entry_instanceId := "00000003"; entry_count := Some 3%Z |}]]
           [{| entry_instanceId := "00000004"; entry_count := Some 4%Z |}]
           (pageAt "0a0b0c0d" 7 true 1
              [{| entry_instanceId := "00000004"; entry_count := Some 4%Z |}]) 1000
           [(pageAt "0a0b0c0d" 7 false 0
               [{| entry_instanceId := "00000001"; entry_count := Some 1%Z |};
                {| entry_instanceId := "00000002"; entry_count := Some 2%Z |};
                {| entry_instanceId := "00000003"; entry_count := Some 3%Z |}], 2000%Z)]).
  - repeat constructor.
  - apply perm_swap.
Defined.

(** * Handler calls over whole page sequences *)

(** ** One step, with the outcome of the completeness test *)

Lemma updateDigestWith_tested (fresh : Digest) (add : Digest → Digest)
    (st : DirActDigester) (id : string) (ts : Z) :
  (∃ l, digests st !! id = Some l ∧ digestTimestamp (deref l st) = ts ∧
        isHandled (deref l st) = true ∧ updateDigestWith fresh add st id ts = st)
  ∨ ∃ l d,
      ((l = nextLoc st ∧ d = fresh ∧
        (∀ l0, digests st !! id = Some l0 → digestTimestamp (deref l0 st) ≠ ts))
       ∨ (digests st !! id = Some l ∧ d = add (deref l st) ∧
          digestTimestamp (deref l st) = ts ∧ isHandled (deref l st) = false)) ∧
      digests (updateDigestWith fresh add st id ts) = <[id := l]> (digests st) ∧
      (∀ l', l' ≠ l → deref l' (updateDigestWith fresh add st id ts) = deref l' st) ∧
      ((isDigestComplete d = false ∧
        digestCalls (updateDigestWith fresh add st id ts) = digestCalls st ∧
        deref l (updateDigestWith fresh add st id ts) = d)
       ∨ (isDigestComplete d = true ∧
          digestCalls (updateDigestWith fresh add st id ts)
            = digestCalls st ++ [(l, setNumberOfInteractions ExpDeleted d)] ∧
          deref l (updateDigestWith fresh add st id ts)
            = setIsHandled true (setNumberOfInteractions ExpDeleted d))).
Proof.
  assert (∀ l d st1,
            deref l st1 = d →
            (isDigestComplete d = false ∧
             digestCalls (emitIfComplete l st1) = digestCalls st1 ∧
             deref l (emitIfComplete l st1) = d)
            ∨ (isDigestComplete d = true ∧
               digestCalls (emitIfComplete l st1)
                 = digestCalls st1 ++ [(l, setNumberOfInteractions ExpDeleted d)] ∧
               deref l (emitIfComplete l st1)
                 = setIsHandled true (setNumberOfInteractions ExpDeleted d))) as Htail.
  { intros l d st1 <-.
    destruct (emitIfComplete_calls l st1) as [[Hc ->] | (Hc & Hcalls & _ & _ & Hd & _)];
      [by left | by right]. }
  assert (∀ st1, st1 = digestsSet id (nextLoc st) (alloc fresh st).2 →
          (∀ l0, digests st !! id = Some l0 → digestTimestamp (deref l0 st) ≠ ts) →
          ∃ l d,
            ((l = nextLoc st ∧ d = fresh ∧
              (∀ l0, digests st !! id = Some l0 → digestTimestamp (deref l0 st) ≠ ts))
             ∨ (digests st !! id = Some l ∧ d = add (deref l st) ∧
                digestTimestamp (deref l st) = ts ∧ isHandled (deref l st) = false)) ∧
            digests (emitIfComplete (nextLoc st) st1) = <[id := l]> (digests st) ∧
            (∀ l', l' ≠ l → deref l' (emitIfComplete (nextLoc st) st1) = deref l' st) ∧
            ((isDigestComplete d = false ∧
              digestCalls (emitIfComplete (nextLoc st) st1) = digestCalls st ∧
              deref l (emitIfComplete (nextLoc st) st1) = d)
             ∨ (isDigestComplete d = true ∧
                digestCalls (emitIfComplete (nextLoc st) st1)
                  = digestCalls st ++ [(l, setNumberOfInteractions ExpDeleted d)] ∧
                deref l (emitIfComplete (nextLoc st) st1)
                  = setIsHandled true (setNumberOfInteractions ExpDeleted d)))) as Hnew.
  { intros st1 Hst1 Hdiff.
    assert (deref (nextLoc st) st1 = fresh) as Hd by (subst st1; apply deref_alloc_eq).
    destruct (emitIfComplete_post (nextLoc st) st1) as (Hm & _ & Ho & _).
    exists (nextLoc st), fresh. split; [by left|]. split; [|split].
    - rewrite Hm. by subst st1.
    - intros l' Hne. rewrite Ho by done. subst st1.
      by rewrite deref_digestsSet, deref_alloc_ne.
    - assert (digestCalls st1 = digestCalls st) as <- by by subst st1.
      by apply Htail. }
  unfold updateDigestWith.
  destruct (digests st !! id) as [l|] eqn:Hmap.
  - destruct (digestTimestamp (deref l st) =? ts)%Z eqn:Hts; simpl.
    + apply Z.eqb_eq in Hts.
      destruct (isHandled (deref l st)) eqn:Hh; [left; by exists l|].
      right. set (st1 := mutate l add st).
      assert (deref l st1 = add (deref l st)) as Hd by apply deref_mutate_eq.
      destruct (emitIfComplete_post l st1) as (Hm & _ & Ho & _).
      exists l, (add (deref l st)). split; [by right|]. split; [|split].
      * rewrite Hm. unfold st1; simpl. by rewrite insert_id.
      * intros l' Hne. rewrite Ho by done. by apply deref_mutate_ne.
      * change (digestCalls st) with (digestCalls st1). by apply Htail.
    + apply Z.eqb_neq in Hts. right. apply (Hnew _ eq_refl).
      intros l0 [= <-]. done.
  - right. apply (Hnew _ eq_refl). done.
Qed.

(** ** Where the entries of an accumulator come from *)

Lemma lookup_arraySet_Some {A} (i j : nat) (v e : A) (a : Js.array A) :
  Js.arraySet j v a !! i = Some (Some e) → (i = j ∧ e = v) ∨ a !! i = Some (Some e).
Proof.
  unfold Js.arraySet. destruct (decide (j < length a)) as [Hlt|Hge].
  - destruct (decide (i = j)) as [->|Hne].
    + rewrite list_lookup_insert_eq by done. intros [= ->]. by left.
    + rewrite list_lookup_insert_ne by done. by right.
  - intros H. destruct (decide (i < length a)).
    + rewrite lookup_app_l in H by done. by right.
    + rewrite lookup_app_r in H by lia.
      destruct (decide (i - length a < j - length a)).
      * rewrite lookup_app_l in H by (rewrite length_replicate; lia).
        apply lookup_replicate in H as [? _]. done.
      * rewrite lookup_app_r in H by (rewrite length_replicate; lia).
        rewrite length_replicate in H.
        destruct (i - length a - (j - length a)) as [|k] eqn:E.
        -- injection H as ->. left. split; [lia | done].
        -- simpl in H. by rewrite lookup_nil in H.
Qed.

Lemma writePage_lookup_Some (offset index : nat) (page : list Entry) (a : Js.array Entry)
    (i : nat) (e : Entry) :
  writePage offset index page a !! i = Some (Some e) →
  a !! i = Some (Some e) ∨ ∃ k, page !! k = Some e ∧ i = offset + index + k.
Proof.
  revert index a. induction page as [|e0 page IH]; intros index a H; [by left|].
  simpl in H. apply IH in H as [H | (k & Hk & ->)].
  - apply lookup_arraySet_Some in H as [[-> ->] | H]; [|by left].
    right. exists 0. split; [done | lia].
  - right. exists (S k). split; [done | lia].
Qed.

Lemma placedByPages_addDigestPage (ps : list DigestPage) (d : Digest) (p : DigestPage) :
  pageOf d p → placedByPages ps d →
  placedByPages (ps ++ [p])
    (Part000.addDigestPage d (page_isLastPage p) (page_pageNumber p) (page_entries p)).
Proof.
  intros Hof Hplaced i e H.
  assert (∀ q, pageOf d q →
               pageOf (Part000.addDigestPage d (page_isLastPage p) (page_pageNumber p)
                         (page_entries p)) q) as Hsame.
  { intros q. unfold pageOf, Part000.addDigestPage. by destruct (page_isLastPage p). }
  rewrite interactions_addDigestPage in H.
  apply writePage_lookup_Some in H as [H | (k & Hk & ->)].
  - destruct (Hplaced i e H) as (q & j & Hq & Hofq & Hj & ->).
    exists q, j. split; [apply elem_of_app; by left|]. split; [by apply Hsame | done].
  - exists p, k. split; [apply elem_of_app; right; by left|]. split; [by apply Hsame|].
    split; [done|]. unfold DIRACT_DEVICES_PER_PAGE. lia.
Qed.

Lemma countedByLastPage_addDigestPage (ps : list DigestPage) (d : Digest) (p : DigestPage) :
  pageOf d p → countedByLastPage ps d →
  countedByLastPage (ps ++ [p])
    (Part000.addDigestPage d (page_isLastPage p) (page_pageNumber p) (page_entries p)).
Proof.
  intros Hof Hcounted n Hn.
  assert (∀ q, pageOf d q →
               pageOf (Part000.addDigestPage d (page_isLastPage p) (page_pageNumber p)
                         (page_entries p)) q) as Hsame.
  { intros q. unfold pageOf, Part000.addDigestPage. by destruct (page_isLastPage p). }
  rewrite numberOfInteractions_addDigestPage in Hn.
  destruct (page_isLastPage p) eqn:Hlast.
  - injection Hn as <-. exists p. split; [apply elem_of_app; right; by left|].
    split; [by apply Hsame|]. split; [done|]. unfold announcedCount, DIRACT_DEVICES_PER_PAGE. lia.
  - destruct (Hcounted n Hn) as (q & Hq & Hofq & Hlq & Hnq).
    exists q. split; [apply elem_of_app; by left|]. split; [by apply Hsame | done].
Qed.

Lemma placedByPages_snoc (ps : list DigestPage) (p : DigestPage) (d : Digest) :
  placedByPages ps d → placedByPages (ps ++ [p]) d.
Proof.
  intros H i e Hi. destruct (H i e Hi) as (q & j & Hq & Hrest).
  exists q, j. split; [apply elem_of_app; by left | done].
Qed.

Lemma countedByLastPage_snoc (ps : list DigestPage) (p : DigestPage) (d : Digest) :
  countedByLastPage ps d → countedByLastPage (ps ++ [p]) d.
Proof.
  intros H n Hn. destruct (H n Hn) as (q & Hq & Hrest).
  exists q. split; [apply elem_of_app; by left | done].
Qed.

Lemma countedDigest_snoc (ps : list DigestPage) (p : DigestPage) (d : Digest) :
  countedDigest ps d → countedDigest (ps ++ [p]) d.
Proof.
  intros (Hn & (q & Hq & Hrest) & Hplaced & Hgap).
  split; [done|]. split; [|split; [by apply placedByPages_snoc | done]].
  exists q. split; [apply elem_of_app; by left | done].
Qed.

(** A complete accumulator, handed over without its count, is as
    [countedDigest] says. *)
Lemma countedDigest_complete (ps : list DigestPage) (d : Digest) :
  placedByPages ps d → countedByLastPage ps d → isDigestComplete d = true →
  countedDigest ps (setNumberOfInteractions ExpDeleted d).
Proof.
  intros Hplaced Hcounted (n & Hn & Hlen)%isDigestComplete_iff.
  destruct (Hcounted n Hn) as (q & Hq & Hof & Hlq & Hnq).
  unfold countedDigest. simpl. rewrite Hlen.
  split; [done|]. split; [by exists q|]. split; [exact Hplaced|].
  by apply populated_gap_free.
Qed.

(** The object the page lands in: made from the page alone, or the stored
    accumulator of the page's epoch with the page added. *)
Lemma Part000_createDigest_placed (ps : list DigestPage) (p : DigestPage) (tstamp : Z) :
  let d := Part000.createDigest (page_instanceId p) (page_digestTimestamp p)
             (page_isLastPage p) (page_pageNumber p) (page_entries p) tstamp in
  placedByPages (ps ++ [p]) d ∧ countedByLastPage (ps ++ [p]) d.
Proof.
  unfold Part000.createDigest.
  split.
  - apply placedByPages_addDigestPage; [done|]. intros i e H. simpl in H.
    by rewrite lookup_nil in H.
  - apply countedByLastPage_addDigestPage; [done|]. intros n Hn. done.
Qed.

Lemma EmissionInv_step (ps : list DigestPage) (st : DirActDigester) (p : DigestPage)
    (tstamp : Z) :
  EmissionInv ps st → EmissionInv (ps ++ [p]) (Part000.feed st (p, tstamp)).
Proof.
  intros [Hstore Hstored Hemitted].
  unfold Part000.feed. simpl. rewrite Part000_updateDigest_with.
  set (id := page_instanceId p). set (ts := page_digestTimestamp p).
  set (fresh := Part000.createDigest id ts (page_isLastPage p) (page_pageNumber p)
                  (page_entries p) tstamp).
  set (add := λ d, Part000.addDigestPage d (page_isLastPage p) (page_pageNumber p)
                     (page_entries p)).
  assert (StoreInv (updateDigestWith fresh add st id ts)) as Hstore'.
  { apply StoreInv_step; try done;
      unfold fresh, add, Part000.createDigest, Part000.addDigestPage; simpl;
      try (intros d); by destruct (page_isLastPage p). }
  destruct (updateDigestWith_tested fresh add st id ts)
    as [(l & _ & _ & _ & ->) | (l & d & Hcase & Hdig & Hother & Hemit)].
  { split; [done| |].
    - intros id' l' Hl'. destruct (Hstored id' l' Hl').
      split; [by apply placedByPages_snoc | by apply countedByLastPage_snoc].
    - intros l' d' Hd'. by apply countedDigest_snoc, (Hemitted l'). }
  assert (placedByPages (ps ++ [p]) d ∧ countedByLastPage (ps ++ [p]) d) as [Hd_placed Hd_counted].
  { destruct Hcase as [(_ & -> & _) | (Hl & -> & Hts & _)].
    - apply Part000_createDigest_placed.
    - destruct (Hstore id l Hl) as (_ & Hid & _). destruct (Hstored id l Hl).
      split; [apply placedByPages_addDigestPage | apply countedByLastPage_addDigestPage];
        done. }
  split; [done| |].
  - intros id' l'. rewrite Hdig, lookup_insert. case_decide as Hid.
    + intros [= <-]. destruct Hemit as [(_ & _ & ->) | (_ & _ & ->)]; done.
    + intros Hl'. destruct (Hstored id' l' Hl').
      assert (l' ≠ l) as Hne.
      { intros ->. destruct (Hstore id' l Hl') as (Hlt & Hid' & _).
        destruct Hcase as [(-> & _) | (Hl & _)]; [lia|].
        destruct (Hstore id l Hl) as (_ & Hid2 & _). congruence. }
      rewrite Hother by done.
      split; [by apply placedByPages_snoc | by apply countedByLastPage_snoc].
  - intros l' d'. destruct Hemit as [(_ & -> & _) | (Hc & -> & _)].
    + intros Hd'. by apply countedDigest_snoc, (Hemitted l').
    + intros [Hd' | [= -> ->]%list_elem_of_singleton]%elem_of_app.
      * by apply countedDigest_snoc, (Hemitted l').
      * by apply countedDigest_complete.
Qed.

Lemma EmissionInv_run (pa pd : bool) (pts : list (DigestPage * Z)) :
  EmissionInv (map fst pts) (Part000.run (newDirActDigester pa pd) pts).
Proof.
  induction pts as [|[p t] pts IH] using rev_ind.
  - split; [apply StoreInv_new| |].
    + intros id l H. simpl in H. by rewrite lookup_empty in H.
    + intros l d H. simpl in H. by apply elem_of_nil in H.
  - rewrite map_app. simpl. unfold Part000.run. rewrite foldl_snoc.
    fold (Part000.run (newDirActDigester pa pd) pts).
    by apply EmissionInv_step.
Qed.

(** The object the handler is called with, in terms of the instance before
    the page. *)
Lemma Part000_feed_calls (st : DirActDigester) (p : DigestPage) (tstamp : Z) (l : loc)
    (d : Digest) :
  digestCalls (Part000.feed st (p, tstamp)) = digestCalls st ++ [(l, d)] →
  isDigestComplete (Part000_accumulator st p tstamp) = true ∧
  d = setNumberOfInteractions ExpDeleted (Part000_accumulator st p tstamp) ∧
  digests (Part000.feed st (p, tstamp)) !! page_instanceId p = Some l.
Proof.
  unfold Part000.feed. simpl. rewrite Part000_updateDigest_with.
  set (id := page_instanceId p). set (ts := page_digestTimestamp p).
  set (fresh := Part000.createDigest id ts (page_isLastPage p) (page_pageNumber p)
                  (page_entries p) tstamp).
  set (add := λ d, Part000.addDigestPage d (page_isLastPage p) (page_pageNumber p)
                     (page_entries p)).
  intros Hcalls.
  destruct (updateDigestWith_tested fresh add st id ts)
    as [(l0 & _ & _ & _ & Heq) | (l0 & d0 & Hcase & Hdig & _ & Hemit)].
  { rewrite Heq in Hcalls. apply (f_equal length) in Hcalls.
    rewrite length_app in Hcalls. simpl in Hcalls. lia. }
  destruct Hemit as [(_ & Hsame & _) | (Hc & Hnew & _)].
  { rewrite Hsame in Hcalls. apply (f_equal length) in Hcalls.
    rewrite length_app in Hcalls. simpl in Hcalls. lia. }
  rewrite Hnew in Hcalls. apply app_inv_head in Hcalls. injection Hcalls as <- <-.
  assert (Part000_accumulator st p tstamp = d0) as ->.
  { unfold Part000_accumulator. fold id ts.
    destruct Hcase as [(_ & -> & Hdiff) | (Hl & -> & Hts & _)].
    - destruct (digests st !! id) as [l1|] eqn:Hl1; [|done].
      specialize (Hdiff l1 eq_refl). apply Z.eqb_neq in Hdiff. by rewrite Hdiff.
    - rewrite Hl. apply Z.eqb_eq in Hts. by rewrite Hts. }
  split; [done|]. split; [done|]. rewrite Hdig. apply lookup_insert_eq.
Qed.

Lemma Part000_accumulator_page (st : DirActDigester) (p : DigestPage) (tstamp : Z)
    (j : nat) (e : Entry) :
  page_entries p !! j = Some e →
  interactions (Part000_accumulator st p tstamp)
    !! (page_pageNumber p * DIRACT_DEVICES_PER_PAGE + j) = Some (Some e).
Proof.
  intros Hj.
  assert (∀ d, interactions (Part000.addDigestPage d (page_isLastPage p) (page_pageNumber p)
                               (page_entries p))
               !! (page_pageNumber p * DIRACT_DEVICES_PER_PAGE + j) = Some (Some e)) as Hadd.
  { intros d. rewrite interactions_addDigestPage.
    replace (page_pageNumber p * DIRACT_DEVICES_PER_PAGE + j)
      with (page_pageNumber p * 3 + 0 + j) by (unfold DIRACT_DEVICES_PER_PAGE; lia).
    by apply writePage_written. }
  unfold Part000_accumulator, Part000.createDigest.
  destruct (digests st !! page_instanceId p) as [l|]; [|apply Hadd].
  destruct (_ =? _)%Z; apply Hadd.
Qed.

(** ** Two calls for one pair *)

(** One step and the pairs handed over: a call is for the pair of the page
    and leaves that pair's accumulator handled; a handled accumulator stays
    as it is until a page of its device with another timestamp arrives, and
    a page of its own epoch is absorbed. *)
Lemma updateDigestWith_keys (fresh : Digest) (add : Digest → Digest) (st : DirActDigester)
    (id : string) (ts : Z) :
  instanceId fresh = id → digestTimestamp fresh = ts →
  (∀ d, instanceId (add d) = instanceId d) →
  (∀ d, digestTimestamp (add d) = digestTimestamp d) →
  StoreInv st →
  (emittedKeys (updateDigestWith fresh add st id ts) = emittedKeys st ∨
   (emittedKeys (updateDigestWith fresh add st id ts) = emittedKeys st ++ [(id, ts)] ∧
    handledAt (updateDigestWith fresh add st id ts) id ts)) ∧
  (∀ id0 ts0, handledAt st id0 ts0 → id0 ≠ id ∨ ts0 = ts →
     handledAt (updateDigestWith fresh add st id ts) id0 ts0 ∧
     (id0 = id → updateDigestWith fresh add st id ts = st)).
Proof.
  intros Hfid Hfts Haid Hats Hinv.
  destruct (updateDigestWith_step fresh add st id ts)
    as [(l & Hl & Hts & Hh & Heq) | (l & d & Hcase & Hdig & Hother & Hemit)].
  { rewrite Heq. split; [by left|]. intros id0 ts0 Hha _. done. }
  split.
  - assert (instanceId d = id ∧ digestTimestamp d = ts) as [Hd_id Hd_ts].
    { destruct Hcase as [(_ & -> & _) | (Hl & -> & _ & Ht & _)]; [done|].
      rewrite Haid, Hats. by destruct (Hinv id l Hl) as (_ & -> & _). }
    destruct Hemit as [[Hc Hd] | [Hc Hd]].
    + left. unfold emittedKeys. by rewrite Hc.
    + right. split.
      * rewrite (emittedKeys_snoc st _ l _ Hc). simpl. by rewrite Hd_id, Hd_ts.
      * exists l. rewrite Hdig, lookup_insert_eq, Hd. done.
  - intros id0 ts0 (l0 & Hl0 & Ht0 & Hh0) Hor.
    destruct (decide (id0 = id)) as [-> | Hne].
    + destruct Hor as [? | ->]; [done|]. exfalso.
      destruct Hcase as [(_ & _ & _ & Hdiff) | (Hl & _ & _ & _ & Hh)].
      * by apply (Hdiff l0).
      * rewrite Hl0 in Hl. injection Hl as ->. congruence.
    + destruct (updateDigestWith_other_device fresh add st id ts id0 l0 Hinv Hl0 Hne)
        as [Hm Hd].
      split; [|done]. exists l0. by rewrite Hd.
Qed.

Section Sequences.
Context {P : Type}.
Variables (feed : DirActDigester → P → DirActDigester) (page : P → DigestPage).
Hypothesis feed_with : ∀ st x, ∃ fresh add,
  feed st x
    = updateDigestWith fresh add st (page_instanceId (page x)) (page_digestTimestamp (page x)) ∧
  instanceId fresh = page_instanceId (page x) ∧
  digestTimestamp fresh = page_digestTimestamp (page x) ∧
  isHandled fresh = false ∧
  numberOfInteractions fresh ≠ ExpDeleted ∧
  (∀ d, instanceId (add d) = instanceId d) ∧
  (∀ d, digestTimestamp (add d) = digestTimestamp d) ∧
  (∀ d, isHandled (add d) = isHandled d) ∧
  (∀ d, numberOfInteractions d ≠ ExpDeleted → numberOfInteractions (add d) ≠ ExpDeleted).
Variables (pa pd : bool) (xs : list P).

Let run (ys : list P) : DirActDigester := foldl feed (newDirActDigester pa pd) ys.
Let calls (n : nat) : list (string * Z) := emittedKeys (run (take n xs)).
Let key (x : P) : string * Z := (page_instanceId (page x), page_digestTimestamp (page x)).

Lemma run_StoreInv (ys : list P) : StoreInv (run ys).
Proof.
  induction ys as [|y ys IH] using rev_ind; [apply StoreInv_new|].
  unfold run. rewrite foldl_snoc. fold (run ys).
  destruct (feed_with (run ys) y)
    as (fresh & add & -> & Hfid & _ & Hfh & Hfn & Haid & _ & Hah & Han).
  by apply StoreInv_step.
Qed.

Lemma run_step (k : nat) (x : P) :
  xs !! k = Some x → run (take (S k) xs) = feed (run (take k xs)) x.
Proof. intros H. rewrite (take_S_r _ _ _ H). unfold run. by rewrite foldl_snoc. Qed.

Lemma page_call (k : nat) (x : P) :
  xs !! k = Some x →
  (calls (S k) = calls k ∨
   (calls (S k) = calls k ++ [key x] ∧
    handledAt (run (take (S k) xs)) (page_instanceId (page x))
      (page_digestTimestamp (page x)))) ∧
  (∀ id ts, handledAt (run (take k xs)) id ts →
     id ≠ page_instanceId (page x) ∨ ts = page_digestTimestamp (page x) →
     handledAt (run (take (S k) xs)) id ts ∧
     (id = page_instanceId (page x) → calls (S k) = calls k)).
Proof.
  intros Hx. unfold calls. rewrite (run_step k x Hx).
  destruct (feed_with (run (take k xs)) x)
    as (fresh & add & -> & Hfid & Hfts & _ & _ & Haid & Hats & _ & _).
  destruct (updateDigestWith_keys fresh add (run (take k xs)) _ _ Hfid Hfts Haid Hats
              (run_StoreInv _)) as [Hkeys Hkeep].
  split; [exact Hkeys|].
  intros id ts Hh Hor. destruct (Hkeep id ts Hh Hor) as [Hh' Hsame].
  split; [done|]. intros Hid. by rewrite (Hsame Hid).
Qed.

Lemma call_in_range (k : nat) (kk : string * Z) :
  calls (S k) = calls k ++ [kk] → k < length xs.
Proof.
  intros H. destruct (decide (k < length xs)) as [|Hge]; [done|]. exfalso.
  unfold calls in H. rewrite !take_ge in H by lia.
  apply (f_equal length) in H. rewrite length_app in H. simpl in H. lia.
Qed.

Lemma call_own_pair (k : nat) (x : P) (kk : string * Z) :
  xs !! k = Some x → calls (S k) = calls k ++ [kk] →
  kk = key x ∧
  handledAt (run (take (S k) xs)) (page_instanceId (page x)) (page_digestTimestamp (page x)).
Proof.
  intros Hx H. destruct (page_call k x Hx) as [[Hsame | [Hnew Hh]] _].
  - rewrite Hsame in H. apply (f_equal length) in H. rewrite length_app in H.
    simpl in H. lia.
  - rewrite Hnew in H. apply app_inv_head in H. by injection H as <-.
Qed.

Lemma calls_separated (i j : nat) (id : string) (ts : Z) :
  i < j →
  calls (S i) = calls i ++ [(id, ts)] →
  calls (S j) = calls j ++ [(id, ts)] →
  leftBetween (map page xs) i j id ts.
Proof.
  intros Hij Hi Hj.
  destruct (lookup_lt_is_Some_2 xs i (call_in_range _ _ Hi)) as [x Hx].
  destruct (lookup_lt_is_Some_2 xs j (call_in_range _ _ Hj)) as [y Hy].
  destruct (call_own_pair i x _ Hx Hi) as [Hkx Hhandled].
  destruct (call_own_pair j y _ Hy Hj) as [Hky _].
  injection Hkx as Hx_id Hx_ts. injection Hky as Hy_id Hy_ts.
  rewrite <- Hx_id, <- Hx_ts in Hhandled.
  assert (∀ m, i < m → m ≤ j →
               leftBetween (map page xs) i m id ts ∨ handledAt (run (take m xs)) id ts)
    as Hind.
  { induction m as [|m IH]; [lia|]. intros Him Hmj.
    destruct (decide (m = i)) as [->|Hne]; [by right|].
    destruct IH as [(k & r & Hk & Hrest) | Hh]; [lia | lia | |].
    - left. exists k, r. split; [lia | done].
    - destruct (lookup_lt_is_Some_2 xs m) as [z Hz]; [apply lookup_lt_Some in Hy; lia|].
      destruct (decide (page_instanceId (page z) = id)) as [Hzid|Hzid].
      + destruct (decide (page_digestTimestamp (page z) = ts)) as [Hzts|Hzts].
        * right. apply (page_call m z Hz); [done | by right].
        * left. exists m, (page z). split; [lia|].
          split; [|done]. by rewrite list_lookup_fmap, Hz.
      + right. apply (page_call m z Hz); [done | left; congruence]. }
  destruct (Hind j Hij (le_n _)) as [H | Hh]; [done|]. exfalso.
  destruct (page_call j y Hy) as [_ Habs].
  destruct (Habs id ts Hh) as [_ Hsame]; [by right|].
  rewrite Hsame in Hj by done.
  apply (f_equal length) in Hj. rewrite length_app in Hj. simpl in Hj. lia.
Qed.

Lemma calls_grow (k k' : nat) : k ≤ k' → length (calls k) ≤ length (calls k').
Proof.
  induction 1 as [|m Hle IH]; [done|].
  destruct (decide (m < length xs)) as [Hlt|Hge].
  - destruct (lookup_lt_is_Some_2 xs m Hlt) as [x Hx].
    destruct (page_call m x Hx) as [[-> | [-> _]] _]; [done|].
    rewrite length_app. lia.
  - unfold calls in *. rewrite (take_ge xs (S m)) by lia.
    by rewrite (take_ge xs m) in IH by lia.
Qed.

(** Every call in the log was made while some page was processed. *)
Lemma call_position (n a : nat) (kk : string * Z) :
  calls n !! a = Some kk →
  ∃ k, k < n ∧ calls (S k) = calls k ++ [kk] ∧ length (calls k) = a.
Proof.
  induction n as [|n IH]; intros Ha.
  { unfold calls, run, emittedKeys in Ha. simpl in Ha. done. }
  assert (calls n !! a = Some kk → ∃ k, k < S n ∧ calls (S k) = calls k ++ [kk] ∧
                                        length (calls k) = a) as Hold.
  { intros H. destruct (IH H) as (k & Hk & Hrest). exists k. split; [lia | done]. }
  destruct (decide (n < length xs)) as [Hlt|Hge].
  - destruct (lookup_lt_is_Some_2 xs n Hlt) as [x Hx].
    destruct (page_call n x Hx) as [[Hsame | [Hnew _]] _].
    + rewrite Hsame in Ha. by apply Hold.
    + destruct (decide (a < length (calls n))) as [Hal|Hal].
      * rewrite Hnew, lookup_app_l in Ha by done. by apply Hold.
      * rewrite Hnew, lookup_app_r in Ha by lia.
        apply list_lookup_singleton_Some in Ha as [Ha <-].
        exists n. split; [lia|]. split; [done | lia].
  - apply Hold. unfold calls in *. rewrite (take_ge xs (S n)) in Ha by lia.
    by rewrite (take_ge xs n) by lia.
Qed.

Lemma at_most_one_call (id : string) (ts : Z) :
  ¬ returnsTo (map page xs) id ts → atMostOnce (id, ts) (emittedKeys (run xs)).
Proof.
  intros Hnr.
  assert (emittedKeys (run xs) = calls (length xs)) as ->
    by (unfold calls; by rewrite take_ge).
  assert (∀ a b, a < b → calls (length xs) !! a = Some (id, ts) →
                 calls (length xs) !! b = Some (id, ts) → False) as Hlt.
  { intros a b Hab Ha Hb.
    destruct (call_position _ _ _ Ha) as (i & _ & Hi & Hia).
    destruct (call_position _ _ _ Hb) as (j & _ & Hj & Hjb).
    assert (i < j) as Hij.
    { destruct (decide (i < j)) as [|Hge]; [done|]. exfalso.
      destruct (decide (i = j)) as [->|Hne]; [lia|].
      pose proof (calls_grow (S j) i ltac:(lia)) as Hg.
      rewrite Hj, length_app in Hg. simpl in Hg. lia. }
    destruct (lookup_lt_is_Some_2 xs i (call_in_range _ _ Hi)) as [x Hx].
    destruct (lookup_lt_is_Some_2 xs j (call_in_range _ _ Hj)) as [y Hy].
    destruct (call_own_pair i x _ Hx Hi) as [Hkx _].
    destruct (call_own_pair j y _ Hy Hj) as [Hky _].
    injection Hkx as Hx_id Hx_ts. injection Hky as Hy_id Hy_ts.
    apply Hnr. exists i, j, (page x), (page y).
    rewrite !list_lookup_fmap, Hx, Hy.
    repeat split; try done. by apply calls_separated. }
  intros a b Ha Hb.
  destruct (lt_eq_lt_dec a b) as [[Hab|Hab]|Hab]; [|done|]; exfalso; eauto.
Qed.

End Sequences.

Lemma Lib_feed_with (st : DirActDigester) (p : DigestPage) :
  ∃ fresh add,
    Lib.feed st p
      = updateDigestWith fresh add st (page_instanceId p) (page_digestTimestamp p) ∧
    instanceId fresh = page_instanceId p ∧
    digestTimestamp fresh = page_digestTimestamp p ∧
    isHandled fresh = false ∧
    numberOfInteractions fresh ≠ ExpDeleted ∧
    (∀ d, instanceId (add d) = instanceId d) ∧
    (∀ d, digestTimestamp (add d) = digestTimestamp d) ∧
    (∀ d, isHandled (add d) = isHandled d) ∧
    (∀ d, numberOfInteractions d ≠ ExpDeleted → numberOfInteractions (add d) ≠ ExpDeleted).
Proof.
  eexists _, _. split; [unfold Lib.feed; apply Lib_updateDigest_with|].
  unfold Lib.createDigest. simpl. repeat split; try done.
  by destruct (page_isLastPage p).
Qed.

Lemma Part000_feed_with (st : DirActDigester) (pt : DigestPage * Z) :
  ∃ fresh add,
    Part000.feed st pt
      = updateDigestWith fresh add st (page_instanceId pt.1) (page_digestTimestamp pt.1) ∧
    instanceId fresh = page_instanceId pt.1 ∧
    digestTimestamp fresh = page_digestTimestamp pt.1 ∧
    isHandled fresh = false ∧
    numberOfInteractions fresh ≠ ExpDeleted ∧
    (∀ d, instanceId (add d) = instanceId d) ∧
    (∀ d, digestTimestamp (add d) = digestTimestamp d) ∧
    (∀ d, isHandled (add d) = isHandled d) ∧
    (∀ d, numberOfInteractions d ≠ ExpDeleted → numberOfInteractions (add d) ≠ ExpDeleted).
Proof.
  eexists _, _. split; [unfold Part000.feed; apply Part000_updateDigest_with|].
  unfold Part000.createDigest, Part000.addDigestPage.
  repeat split; try (intros d); simpl; by destruct (page_isLastPage pt.1).
Qed.

(** C1, amended. For every sequence of digest pages fed to a fresh instance
    with a digest handler, in both files: a page makes the handler be called
    at most once, for the pair (instanceId, digestTimestamp) of that page;
    two calls for one pair are separated by a page of that device with
    another digest timestamp; so the handler is called at most once for a
    pair whose device does not return to its timestamp after leaving it, and
    at most once for every pair when no device returns.  A page whose digest
    timestamp differs from the stored accumulator's is not rejected, whatever
    came before: it replaces the accumulator by one made from that page
    alone, and the handler is called for it exactly when that new
    accumulator is complete. *)
Theorem calls_for_one_pair_separated :
  (∀ pa ps k p, ps !! k = Some p →
     emittedKeys (Lib.run (newDirActDigester pa true) (take (S k) ps))
       = emittedKeys (Lib.run (newDirActDigester pa true) (take k ps)) ∨
     calledAt (Lib.run (newDirActDigester pa true)) ps k
       (page_instanceId p, page_digestTimestamp p)) ∧
  (∀ pa pts k pt, pts !! k = Some pt →
     emittedKeys (Part000.run (newDirActDigester pa true) (take (S k) pts))
       = emittedKeys (Part000.run (newDirActDigester pa true) (take k pts)) ∨
     calledAt (Part000.run (newDirActDigester pa true)) pts k
       (page_instanceId pt.1, page_digestTimestamp pt.1)) ∧
  (∀ pa ps i j id ts, i < j →
     calledAt (Lib.run (newDirActDigester pa true)) ps i (id, ts) →
     calledAt (Lib.run (newDirActDigester pa true)) ps j (id, ts) →
     leftBetween ps i j id ts) ∧
  (∀ pa pts i j id ts, i < j →
     calledAt (Part000.run (newDirActDigester pa true)) pts i (id, ts) →
     calledAt (Part000.run (newDirActDigester pa true)) pts j (id, ts) →
     leftBetween (map fst pts) i j id ts) ∧
  (∀ pa ps id ts,
     ¬ returnsTo ps id ts →
     atMostOnce (id, ts) (emittedKeys (Lib.run (newDirActDigester pa true) ps))) ∧
  (∀ pa pts id ts,
     ¬ returnsTo (map fst pts) id ts →
     atMostOnce (id, ts) (emittedKeys (Part000.run (newDirActDigester pa true) pts))) ∧
  (∀ pa ps,
     noReturn ps → NoDup (emittedKeys (Lib.run (newDirActDigester pa true) ps))) ∧
  (∀ pa pts,
     noReturn (map fst pts) →
     NoDup (emittedKeys (Part000.run (newDirActDigester pa true) pts))) ∧
  (∀ st id l ts isLast pn page tstamp,
     handleDirActDigest st = true →
     digests st !! id = Some l →
     digestTimestamp (deref l st) ≠ ts →
     supersedes st id (Lib.createDigest id ts isLast pn page)
       (Lib.updateDigest st id ts isLast pn page) ∧
     supersedes st id (Part000.createDigest id ts isLast pn page tstamp)
       (Part000.updateDigest st id ts isLast pn page tstamp)).
Proof.
  split; [|split; [|split; [|split; [|split; [|split; [|split; [|split]]]]]]].
  - intros pa ps k p Hp.
    destruct (page_call Lib.feed (λ p, p) Lib_feed_with pa true ps k p Hp)
      as [[Hsame | [Hnew _]] _]; [by left | by right].
  - intros pa pts k pt Hpt.
    destruct (page_call Part000.feed fst Part000_feed_with pa true pts k pt Hpt)
      as [[Hsame | [Hnew _]] _]; [by left | by right].
  - intros pa ps i j id ts Hij Hi Hj.
    pose proof (calls_separated Lib.feed (λ p, p) Lib_feed_with pa true ps i j id ts
                  Hij Hi Hj) as H.
    by rewrite map_id in H.
  - intros pa pts i j id ts Hij Hi Hj.
    exact (calls_separated Part000.feed fst Part000_feed_with pa true pts i j id ts
             Hij Hi Hj).
  - intros pa ps id ts Hnr.
    apply (at_most_one_call Lib.feed (λ p, p) Lib_feed_with pa true ps id ts).
    by rewrite map_id.
  - intros pa pts id ts Hnr.
    exact (at_most_one_call Part000.feed fst Part000_feed_with pa true pts id ts Hnr).
  - intros pa ps Hnr. apply (inv_nodup ps), Lib_run_inv, Hnr.
  - intros pa pts Hnr. apply (inv_nodup (map fst pts)), Part000_run_inv, Hnr.
  - intros st id l ts isLast pn page tstamp _ Hmap Hts.
    rewrite Lib_updateDigest_with, Part000_updateDigest_with.
    split; by apply updateDigestWith_supersedes with l.
Qed.

Lemma calls_for_one_pair_separated_witness :
  (calledAt (Part000.run (newDirActDigester true true)) pagesT1T2T1 0 ("01234567", 3600%Z) ∧
   calledAt (Part000.run (newDirActDigester true true)) pagesT1T2T1 2 ("01234567", 3600%Z) ∧
   leftBetween (map fst pagesT1T2T1) 0 2 "01234567" 3600) ∧
  (returnsTo (map fst pagesT1T2T1Other) "01234567" 3600 ∧
   ¬ returnsTo (map fst pagesT1T2T1Other) "89abcdef" 3600 ∧
   ("89abcdef", 3600%Z)
     ∈ emittedKeys (Part000.run (newDirActDigester true true) pagesT1T2T1Other) ∧
   atMostOnce ("89abcdef", 3600%Z)
     (emittedKeys (Part000.run (newDirActDigester true true) pagesT1T2T1Other))).
Proof.
  assert (calledAt (Part000.run (newDirActDigester true true)) pagesT1T2T1 0
            ("01234567", 3600%Z)) as H0 by (vm_compute; reflexivity).
  assert (calledAt (Part000.run (newDirActDigester true true)) pagesT1T2T1 2
            ("01234567", 3600%Z)) as H2 by (vm_compute; reflexivity).
  assert (¬ returnsTo (map fst pagesT1T2T1Other) "89abcdef" 3600) as Hnr.
  { intros (i & j & q & p & Hi & Hj & Hq & _ & _ & _ & (k & r & Hk & _)).
    apply lookup_lt_Some in Hj. vm_compute in Hj.
    destruct i as [|[|i]]; [| |lia];
      vm_compute in Hi; injection Hi as <-; vm_compute in Hq; discriminate. }
  destruct calls_for_one_pair_separated as (_ & _ & _ & Hsep & _ & Honce & _).
  split; [|split; [|split; [exact Hnr|split]]].
  - split; [exact H0|]. split; [exact H2|].
    apply (Hsep true pagesT1T2T1 0 2 "01234567" 3600%Z); [lia | exact H0 | exact H2].
  - exists 0, 2, (Part000.decodeDigestPage packetT1), (Part000.decodeDigestPage packetT1).
    repeat split; try (vm_compute; reflexivity).
    exists 1, (Part000.decodeDigestPage packetT2).
    split; [lia|]. split; [vm_compute; reflexivity|].
    split; [vm_compute; reflexivity | vm_compute; discriminate].
  - assert (emittedKeys (Part000.run (newDirActDigester true true) pagesT1T2T1Other)
            = [("01234567", 3600%Z); ("01234567", 3600%Z); ("89abcdef", 3600%Z)]) as ->
      by (vm_compute; reflexivity).
    right. right. left.
  - exact (Honce true pagesT1T2T1Other "89abcdef" 3600%Z Hnr).
Defined.

(** ** What an emitted digest holds *)

(** C5, amended. Whenever the timestamp variant hands over a digest, the
    handler gets the accumulator the page landed in (the one stored for the
    page's device) without its expected count; that count equals the number
    of populated indices, and the entries of the page sit at
    [pageNumber * 3 + j].  For any sequence of pages fed to a fresh
    instance, every digest handed over has as many populated indices as a
    page of its device and epoch marked last announced, and each of its
    entries is entry [j] of a page of its device and epoch, at the absolute
    index [pageNumber * 3 + j]; so every index below the expected count is
    populated exactly when no index at or beyond it is.  Pages that do not
    follow a well-formed pagination can complete a digest with holes. *)
Theorem emitted_digest_counted :
  (∀ st p tstamp l d,
     digestCalls (Part000.feed st (p, tstamp)) = digestCalls st ++ [(l, d)] →
     digests (Part000.feed st (p, tstamp)) !! page_instanceId p = Some l ∧
     isDigestComplete (Part000_accumulator st p tstamp) = true ∧
     d = setNumberOfInteractions ExpDeleted (Part000_accumulator st p tstamp) ∧
     numberOfInteractions (Part000_accumulator st p tstamp)
       = ExpNumber (length (populatedIndices (interactions d))) ∧
     (∀ j e, page_entries p !! j = Some e →
             interactions d !! (page_pageNumber p * DIRACT_DEVICES_PER_PAGE + j)
             = Some (Some e))) ∧
  (∀ pa pts l d,
     (l, d) ∈ digestCalls (Part000.run (newDirActDigester pa true) pts) →
     countedDigest (map fst pts) d).
Proof.
  split.
  - intros st p tstamp l d Hcalls.
    destruct (Part000_feed_calls st p tstamp l d Hcalls) as (Hc & -> & Hl).
    split; [done|]. split; [done|]. split; [done|]. split.
    + apply isDigestComplete_iff in Hc as (n & Hn & Hlen). simpl. by rewrite Hlen.
    + intros j e Hj. simpl. by apply Part000_accumulator_page.
  - intros pa pts l d Hd.
    by apply (einv_emitted _ _ (EmissionInv_run pa true pts) l).
Qed.

Lemma emitted_digest_counted_witness :
  (0, gappedDigest)
    ∈ digestCalls (Part000.run (newDirActDigester true true)
                     [(pageOneLast, 7%Z); (pageTwo, 7%Z)]) ∧
  countedDigest [pageOneLast; pageTwo] gappedDigest.
Proof.
  assert ((0, gappedDigest)
            ∈ digestCalls (Part000.run (newDirActDigester true true)
                             [(pageOneLast, 7%Z); (pageTwo, 7%Z)])) as Hin.
  { assert (digestCalls (Part000.run (newDirActDigester true true)
                           [(pageOneLast, 7%Z); (pageTwo, 7%Z)]) = [(0, gappedDigest)]) as ->
      by (vm_compute; reflexivity).
    by left. }
  split; [exact Hin|].
  destruct emitted_digest_counted as [_ H].
  exact (H true [(pageOneLast, 7%Z); (pageTwo, 7%Z)] 0 gappedDigest Hin).
Defined.
